(** * hncli: a shallow embedding of the cache, remote client, pagination
      engine, comment navigator and configuration.

    Sources embedded here:
      - [cache.py]            : the TTL cache (memory dict plus disk mirror);
      - [config.py]           : [load_config], [save_config], [get_setting],
                                [update_setting];
      - [src/hncli/cli.py]    : [get_story_ids], [get_item], [get_user],
                                [format_time_ago], [truncate_text],
                                [calculate_stories_per_page],
                                [browse_stories], [search],
                                [display_comments] with its inner [get_key],
                                [expand_comment_tree] and [collect],
                                [get_config_value], [config_set],
                                [config_reset];
      - [hncli.py]            : [top], [new], [best] and the comment tree of
                                [display_comments].

    Conventions.  Python integers are [Z]; [time.time()] is read from a
    clock field counted in whole ticks; a Rocq string stands for the Python
    [str] with the same code points, all below 256; every value that comes
    out of [json.load] / [response.json()] is a [json] tree, with [JNull]
    standing for Python's [None].  An exception is a value of [exn]; code
    that can raise lives in the monad [M]. *)

From Stdlib Require Import ZArith List Lia Ascii String.
From stdpp Require Import gmap strings list fin_maps pretty.

Open Scope Z_scope.

(** ** Python values and primitives *)

Module Py.

#[warnings="-register-all"]
Inductive json : Type :=
  | JNull
  | JBool (b : bool)
  | JNum (n : Z)
  | JStr (s : string)
  | JList (l : list json)
  | JObj (kvs : list (string * json)).

(** The exceptions the embedded code can meet. *)
Inductive io_op : Type :=
  | Mkdir
  | OpenRead (stem : string)
  | OpenWrite (stem : string)
  | WriteData (stem : string)
  | Unlink (stem : string).

Inductive exn : Type :=
  | ZeroDivisionError
  | TypeError
  | AttributeError
  | ValueError
  | IndexError
  | JSONDecodeError
  | RecursionError
  | OSError (op : io_op)
  | RequestException
  | HTTPError (status : Z).

Inductive result (A : Type) : Type :=
  | Ok (a : A)
  | Raise (e : exn).
Arguments Ok {A} a.
Arguments Raise {A} e.

(** [bool(x)]: Python truthiness. *)
Definition truthy (j : json) : bool :=
  match j with
  | JNull => false
  | JBool b => b
  | JNum n => negb (n =? 0)
  | JStr s => negb (String.eqb s EmptyString)
  | JList l => match l with [] => false | _ => true end
  | JObj kvs => match kvs with [] => false | _ => true end
  end.

(** [a // b] and [a % b] on integers. *)
Definition floordiv (a b : Z) : result Z :=
  if b =? 0 then Raise ZeroDivisionError else Ok (a / b).

Definition pymod (a b : Z) : result Z :=
  if b =? 0 then Raise ZeroDivisionError else Ok (a mod b).

(** [l[a:b]] with Python's treatment of negative and oversized bounds. *)
Definition slice_bound (n i : Z) : Z :=
  if i <? 0 then Z.max (i + n) 0 else Z.min i n.

Definition slice {A} (l : list A) (a b : Z) : list A :=
  let n := Z.of_nat (length l) in
  let lo := slice_bound n a in
  let hi := slice_bound n b in
  drop (Z.to_nat lo) (take (Z.to_nat hi) l).

(** [d.get(k, default)] on a parsed object; any other receiver has no
    attribute [get]. *)
Fixpoint assoc (k : string) (kvs : list (string * json)) : option json :=
  match kvs with
  | [] => None
  | (k', v) :: rest => if String.eqb k k' then Some v else assoc k rest
  end.

Definition dict_get (j : json) (k : string) (default : json) : result json :=
  match j with
  | JObj kvs => Ok (match assoc k kvs with Some v => v | None => default end)
  | _ => Raise AttributeError
  end.

(** [x == s] for a string literal [s]. *)
Definition eq_str (s : string) (x : json) : bool :=
  match x with
  | JStr t => String.eqb s t
  | _ => false
  end.

(** [needle in hay] for a string [hay]. *)
Fixpoint is_substring (needle hay : string) : bool :=
  String.prefix needle hay ||
  match hay with
  | EmptyString => false
  | String _ rest => is_substring needle rest
  end.

(** [s in x] for a string [s]: key membership on an object, element
    membership on a list, substring test on a string; anything else is not
    iterable. *)
Definition str_in (s : string) (x : json) : result bool :=
  match x with
  | JObj kvs => Ok (match assoc s kvs with Some _ => true | None => false end)
  | JList l => Ok (existsb (eq_str s) l)
  | JStr t => Ok (is_substring s t)
  | _ => Raise TypeError
  end.

(** [for x in j]: the elements a [for] loop visits. *)
Fixpoint chars (s : string) : list json :=
  match s with
  | EmptyString => []
  | String c rest => JStr (String c EmptyString) :: chars rest
  end.

Definition iter (j : json) : result (list json) :=
  match j with
  | JList l => Ok l
  | JStr s => Ok (chars s)
  | JObj kvs => Ok (map (fun kv => JStr (fst kv)) kvs)
  | _ => Raise TypeError
  end.

(** [a, b = x]: unpacking into exactly two targets. *)
Definition unpack2 (x : json) : result (json * json) :=
  match iter x with
  | Ok [a; b] => Ok (a, b)
  | Ok _ => Raise ValueError
  | Raise e => Raise e
  end.

(** A value usable as the right operand of [float - x]. *)
Definition as_number (x : json) : option Z :=
  match x with
  | JNum n => Some n
  | JBool b => Some (if b then 1 else 0)
  | _ => None
  end.

(** [str(n)] for an integer. *)
Definition str_int (n : Z) : string := pretty n.

(** [s.lower()], [s.isdigit()] and [int(s)].  A character is a code point
    below 256: besides the ASCII letters, [lower] moves the capital
    letters 192..222 of Latin-1 (the multiplication sign 215 apart) to
    their small forms; besides the decimal digits 0-9, [isdigit] accepts
    the superscript digits 178, 179 and 185, for which [isdecimal] is
    false. *)
Definition lower_char (c : ascii) : ascii :=
  let n := nat_of_ascii c in
  if ((65 <=? n)%nat && (n <=? 90)%nat)
     || ((192 <=? n)%nat && (n <=? 222)%nat && negb (n =? 215)%nat)
  then ascii_of_nat (n + 32) else c.

Fixpoint lower (s : string) : string :=
  match s with
  | EmptyString => EmptyString
  | String c rest => String (lower_char c) (lower rest)
  end.

Definition is_decimal_char (c : ascii) : bool :=
  let n := nat_of_ascii c in (48 <=? n)%nat && (n <=? 57)%nat.

Definition is_digit_char (c : ascii) : bool :=
  let n := nat_of_ascii c in
  is_decimal_char c || (n =? 178)%nat || (n =? 179)%nat || (n =? 185)%nat.

Fixpoint all_digits (s : string) : bool :=
  match s with
  | EmptyString => true
  | String c rest => is_digit_char c && all_digits rest
  end.

Definition isdigit (s : string) : bool :=
  negb (String.eqb s EmptyString) && all_digits s.

Fixpoint all_decimal (s : string) : bool :=
  match s with
  | EmptyString => true
  | String c rest => is_decimal_char c && all_decimal rest
  end.

(** The number a string of decimal digits denotes, read from the left. *)
Fixpoint int_of_digits (acc : Z) (s : string) : Z :=
  match s with
  | EmptyString => acc
  | String c rest =>
      int_of_digits (10 * acc + (Z.of_nat (nat_of_ascii c) - 48)) rest
  end.

(** [sys.get_int_max_str_digits()], at its default. *)
Definition int_max_str_digits : Z := 4300.

(** [int(s)] for a string that passed [isdigit] (no sign, blank or
    underscore in it): a digit that is not decimal is an invalid literal,
    and a numeral of more than [int_max_str_digits] digits, leading zeros
    counted, exceeds the limit of the conversion; both raise
    [ValueError]. *)
Definition int_of_str (s : string) : result Z :=
  if all_decimal s && (Z.of_nat (String.length s) <=? int_max_str_digits)
  then Ok (int_of_digits 0 s)
  else Raise ValueError.

End Py.
Export Py.

(** ** The process state and the effect monad

    [mem] is the module-level dict [_cache]; [disk] is the cache directory,
    a finite map from a file's stem to its content; [clock] is what
    [time.time()] returns; [io_fails] tells which disk operations fail in
    this state; [server] answers the n-th HTTP request for a URL;
    [requests] logs the URLs requested so far; [console] is what was
    printed; [lines] is the line buffer that [expand_comment_tree] fills. *)

Module World.

Inductive content : Type :=
  | Garbage
  | Parsed (j : json).

Inductive response : Type :=
  | TransportFailure
  | Reply (status : Z) (body : option json).

(** What [console.print] wrote that the claims are about. *)
Inductive message : Type :=
  | ErrorFetchingStory (story_id : json) (e : exn).

Record world : Type := mkWorld {
  mem : gmap string (json * json);
  disk : gmap string content;
  clock : Z;
  io_fails : io_op -> bool;
  server : nat -> string -> response;
  requests : list string;
  cache_timeout_minutes : Z;
  console : list message;
  lines : list string
}.

Definition with_mem (m : gmap string (json * json)) (w : world) : world :=
  mkWorld m (disk w) (clock w) (io_fails w) (server w) (requests w)
          (cache_timeout_minutes w) (console w) (lines w).

Definition with_disk (d : gmap string content) (w : world) : world :=
  mkWorld (mem w) d (clock w) (io_fails w) (server w) (requests w)
          (cache_timeout_minutes w) (console w) (lines w).

Definition with_clock (t : Z) (w : world) : world :=
  mkWorld (mem w) (disk w) t (io_fails w) (server w) (requests w)
          (cache_timeout_minutes w) (console w) (lines w).

Definition with_requests (r : list string) (w : world) : world :=
  mkWorld (mem w) (disk w) (clock w) (io_fails w) (server w) r
          (cache_timeout_minutes w) (console w) (lines w).

Definition with_console (c : list message) (w : world) : world :=
  mkWorld (mem w) (disk w) (clock w) (io_fails w) (server w) (requests w)
          (cache_timeout_minutes w) c (lines w).

Definition with_lines (l : list string) (w : world) : world :=
  mkWorld (mem w) (disk w) (clock w) (io_fails w) (server w) (requests w)
          (cache_timeout_minutes w) (console w) l.

(** Time passing between two operations. *)
Definition advance (d : Z) (w : world) : world := with_clock (clock w + d) w.

Definition M (A : Type) : Type := world -> world * result A.

Global Instance M_ret : MRet M := fun A a w => (w, Ok a).

Global Instance M_bind : MBind M := fun A B f m w =>
  match m w with
  | (w', Ok a) => f a w'
  | (w', Raise e) => (w', Raise e)
  end.

Definition raise {A} (e : exn) : M A := fun w => (w, Raise e).

Definition lift {A} (r : result A) : M A := fun w => (w, r).

(** [try: body  except Exception: handler]. *)
Definition try_except {A} (body : M A) (handler : exn -> M A) : M A :=
  fun w =>
    match body w with
    | (w', Ok a) => (w', Ok a)
    | (w', Raise e) => handler e w'
    end.

(** [for x in xs: body]. *)
Fixpoint for_each {A} (xs : list A) (body : A -> M unit) : M unit :=
  match xs with
  | [] => mret tt
  | x :: rest => body x ;; for_each rest body
  end.

Definition read_world : M world := fun w => (w, Ok w).
Definition modify (f : world -> world) : M unit := fun w => (f w, Ok tt).

Definition time_time : M Z := w ← read_world; mret (clock w).

Definition console_print (m : message) : M unit :=
  modify (fun w => with_console (console w ++ [m]) w).

Definition lines_append (l : string) : M unit :=
  modify (fun w => with_lines (lines w ++ [l]) w).

End World.
Export World.

(** ** cache.py *)

Module Cache.

(** An argument of [cache_key], converted by [str(arg)]. *)
Inductive arg : Type :=
  | AInt (n : Z)
  | AStr (s : string).

Definition str (a : arg) : string :=
  match a with
  | AInt n => str_int n
  | AStr s => s
  end.

(** [sep.join(parts)]. *)
Fixpoint join (sep : string) (parts : list string) : string :=
  match parts with
  | [] => EmptyString
  | [p] => p
  | p :: rest => p +:+ sep +:+ join sep rest
  end.

Definition cache_key (prefix : string) (args : list arg) : string :=
  prefix +:+ "_" +:+ join "-" (map str args).

(** [get_cache_dir]: [mkdir(parents=True, exist_ok=True)] is its only
    effect; it is called outside every [try] block. *)
Definition get_cache_dir : M unit :=
  w ← read_world;
  if io_fails w Mkdir then raise (OSError Mkdir) else mret tt.

(** [get_cache_file]: the path is identified with the file's stem, which
    is what [load_cache_from_disk] takes as the key. *)
Definition get_cache_file (key : string) : M string :=
  get_cache_dir ;; mret key.

(** The keys for which [cache_dir / f"{key}.json"] is a file of the cache
    directory whose stem is the key again: the key is not empty (the stem
    of [.json] is [.json]) and has no path separator and no NUL in it
    (POSIX paths). *)
Definition names_its_file (key : string) : bool :=
  negb (String.eqb key EmptyString)
  && forallb (fun c => negb (Ascii.eqb c "/") && negb (Ascii.eqb c Ascii.zero))
       (list_ascii_of_string key).

(** [cache_dir.glob("*.json")]. *)
Definition glob : M (list string) :=
  w ← read_world; mret ((map_to_list (disk w)).*1).

(** [with open(cache_file, "r") as f: ... json.load(f)]. *)
Definition open_read (stem : string) : M content :=
  w ← read_world;
  if io_fails w (OpenRead stem) then raise (OSError (OpenRead stem))
  else match disk w !! stem with
       | Some c => mret c
       | None => raise (OSError (OpenRead stem))
       end.

Definition json_load (c : content) : M json :=
  match c with
  | Garbage => raise JSONDecodeError
  | Parsed j => mret j
  end.

(** [with open(cache_file, "w") as f: json.dump(entry, f)]: opening
    truncates the file, so a write that fails half-way leaves garbage. *)
Definition open_write_dump (stem : string) (entry : json * json) : M unit :=
  w ← read_world;
  if io_fails w (OpenWrite stem) then raise (OSError (OpenWrite stem))
  else if io_fails w (WriteData stem) then
    modify (fun w => with_disk (<[stem := Garbage]> (disk w)) w) ;;
    raise (OSError (WriteData stem))
  else
    modify (fun w =>
      with_disk (<[stem := Parsed (JList [entry.1; entry.2])]> (disk w)) w).

(** [os.unlink(cache_file)]. *)
Definition unlink (stem : string) : M unit :=
  w ← read_world;
  if io_fails w (Unlink stem) then raise (OSError (Unlink stem))
  else match disk w !! stem with
       | Some _ => modify (fun w => with_disk (delete stem (disk w)) w)
       | None => raise (OSError (Unlink stem))
       end.

(** The body of the loop of [load_cache_from_disk]. *)
Definition load_one (stem : string) : M unit :=
  try_except
    (c ← open_read stem;
     j ← json_load c;
     entry ← lift (unpack2 j);
     modify (fun w => with_mem (<[stem := entry]> (mem w)) w))
    (fun _ => mret tt).

Definition load_cache_from_disk : M unit :=
  get_cache_dir ;;
  files ← glob;
  for_each files load_one.

Definition save_cache_to_disk (key : string) : M unit :=
  w ← read_world;
  match mem w !! key with
  | Some entry =>
      cache_file ← get_cache_file key;
      try_except (open_write_dump cache_file entry) (fun _ => mret tt)
  | None => mret tt
  end.

(** [time.time() - timestamp < ttl]; a timestamp that is not a number
    raises [TypeError]. *)
Definition fresh (now : Z) (timestamp : json) (ttl : Z) : result bool :=
  match as_number timestamp with
  | Some t => Ok (now - t <? ttl)
  | None => Raise TypeError
  end.

Definition get (key : string) (ttl : Z) : M json :=
  w ← read_world;
  match mem w !! key with
  | Some (timestamp, value) =>
      now ← time_time;
      ok ← lift (fresh now timestamp ttl);
      if ok : bool then mret value else mret JNull
  | None => mret JNull
  end.

Definition set (key : string) (value : json) : M unit :=
  now ← time_time;
  modify (fun w => with_mem (<[key := (JNum now, value)]> (mem w)) w) ;;
  save_cache_to_disk key.

Definition clear : M unit :=
  modify (with_mem ∅) ;;
  get_cache_dir ;;
  files ← glob;
  for_each files (fun f => try_except (unlink f) (fun _ => mret tt)).

(** The list comprehension of [clear_expired]. *)
Fixpoint expired_keys (now ttl : Z) (items : list (string * (json * json)))
  : result (list string) :=
  match items with
  | [] => Ok []
  | (key, (timestamp, _)) :: rest =>
      match fresh now timestamp ttl with
      | Raise e => Raise e
      | Ok is_fresh =>
          match expired_keys now ttl rest with
          | Raise e => Raise e
          | Ok keys => Ok (if is_fresh then keys else key :: keys)
          end
      end
  end.

Definition clear_expired (ttl : Z) : M unit :=
  now ← time_time;
  w ← read_world;
  keys ← lift (expired_keys now ttl (map_to_list (mem w)));
  for_each keys (fun key =>
    modify (fun w => with_mem (delete key (mem w)) w) ;;
    cache_file ← get_cache_file key;
    try_except (unlink cache_file) (fun _ => mret tt)).

End Cache.

(** ** The remote client of cli.py *)

Module Client.

Definition BASE_URL : string := "https://hacker-news.firebaseio.com/v0".
Definition ITEM_URL : string := BASE_URL +:+ "/item".
Definition USER_URL : string := BASE_URL +:+ "/user".

(** [get_config_value("cache_timeout_minutes", 5) * 60]. *)
Definition cache_ttl : M Z :=
  w ← read_world; mret (cache_timeout_minutes w * 60).

(** [response = requests.get(url); response.raise_for_status();
    response.json()]. *)
Definition requests_get_json (url : string) : M json :=
  w ← read_world;
  modify (with_requests (requests w ++ [url])) ;;
  match server w (length (requests w)) url with
  | TransportFailure => raise RequestException
  | Reply status body =>
      if (400 <=? status) && (status <? 600) then raise (HTTPError status)
      else match body with
           | Some j => mret j
           | None => raise JSONDecodeError
           end
  end.

Definition get_story_ids (story_type : string) : M json :=
  let cache_key := Cache.cache_key "stories" [Cache.AStr story_type] in
  ttl ← cache_ttl;
  cached ← Cache.get cache_key ttl;
  if truthy cached then mret cached
  else
    result ← requests_get_json (BASE_URL +:+ "/" +:+ story_type +:+ "stories.json");
    Cache.set cache_key result ;;
    mret result.

Definition get_item (item_id : Z) : M json :=
  let cache_key := Cache.cache_key "item" [Cache.AInt item_id] in
  ttl ← cache_ttl;
  cached ← Cache.get cache_key ttl;
  if truthy cached then mret cached
  else
    result ← requests_get_json (ITEM_URL +:+ "/" +:+ str_int item_id +:+ ".json");
    Cache.set cache_key result ;;
    mret result.

Definition get_user (username : string) : M json :=
  let cache_key := Cache.cache_key "user" [Cache.AStr username] in
  ttl ← cache_ttl;
  cached ← Cache.get cache_key ttl;
  if truthy cached then mret cached
  else
    result ← requests_get_json (USER_URL +:+ "/" +:+ username +:+ ".json");
    Cache.set cache_key result ;;
    mret result.

(** The three operations seen as one family of requests. *)
Inductive request : Type :=
  | Stories (story_type : string)
  | Item (item_id : Z)
  | User (username : string).

Definition perform (r : request) : M json :=
  match r with
  | Stories t => get_story_ids t
  | Item i => get_item i
  | User u => get_user u
  end.

Definition key_of (r : request) : string :=
  match r with
  | Stories t => Cache.cache_key "stories" [Cache.AStr t]
  | Item i => Cache.cache_key "item" [Cache.AInt i]
  | User u => Cache.cache_key "user" [Cache.AStr u]
  end.

Definition url_of (r : request) : string :=
  match r with
  | Stories t => BASE_URL +:+ "/" +:+ t +:+ "stories.json"
  | Item i => ITEM_URL +:+ "/" +:+ str_int i +:+ ".json"
  | User u => USER_URL +:+ "/" +:+ u +:+ ".json"
  end.

End Client.

(** ** The pagination engine of cli.py *)

Module Pagination.

(** [calculate_stories_per_page], as a function of the terminal's rows. *)
Definition RESERVED_ROWS : Z := 8.
Definition MIN_STORIES : Z := 10.
Definition MAX_STORIES : Z := 20.

Definition calculate_stories_per_page (rows : Z) : Z :=
  let available_rows := Z.max (rows - RESERVED_ROWS) 1 in
  Z.max MIN_STORIES (Z.min available_rows MAX_STORIES).

(** [(total_stories + stories_per_page - 1) // stories_per_page]. *)
Definition total_pages_of (total_stories stories_per_page : Z) : result Z :=
  floordiv (total_stories + stories_per_page - 1) stories_per_page.

(** [story_ids[start_idx:end_idx]] for the current page. *)
Definition page_slice {A} (story_ids : list A)
    (current_page stories_per_page : Z) : list A :=
  let total_stories := Z.of_nat (length story_ids) in
  let start_idx := (current_page - 1) * stories_per_page in
  let end_idx := Z.min (start_idx + stories_per_page) total_stories in
  slice story_ids start_idx end_idx.

End Pagination.

(** ** The interactive loops of cli.py

    The loops only call [get_item]; they are embedded over any
    implementation of it, so that what is proved of them does not depend on
    the cache or on the server. *)

Module Browse.
Import Pagination.

Section Loops.

Variable get_item : json -> M json.

(** The body of the page loop of [browse_stories]:
    [try: story = get_item(story_id); if story and story.get("type") ==
    "story": stories.append(story)  except Exception as e: print(...)]. *)
Definition load_story (story_id : json) (stories : list json)
  : M (list json) :=
  try_except
    (story ← get_item story_id;
     if truthy story then
       t ← lift (dict_get story "type" JNull);
       if eq_str "story" t then mret (stories ++ [story]) else mret stories
     else mret stories)
    (fun e => console_print (ErrorFetchingStory story_id e) ;; mret stories).

Fixpoint load_page (page : list json) (stories : list json)
  : M (list json) :=
  match page with
  | [] => mret stories
  | story_id :: rest =>
      stories' ← load_story story_id stories;
      load_page rest stories'
  end.

End Loops.

(** The pagination variables of [browse_stories]. *)
Record page_state : Type := mkPage {
  story_ids : list json;
  total_stories : Z;
  current_page : Z;
  total_pages : Z;
  stories_per_page : Z
}.

(** Lines 445-454: the state before the loop is entered.  [limit] is the
    optional [stories_per_page] argument, [rows] the terminal height,
    [ids] what [get_story_ids] returned. *)
Definition start (limit : option Z) (rows : Z) (ids : list json)
  : result page_state :=
  let stories_per_page :=
    match limit with
    | Some n => n
    | None => calculate_stories_per_page rows
    end in
  let total_stories := Z.of_nat (length ids) in
  match total_pages_of total_stories stories_per_page with
  | Ok total_pages =>
      Ok (mkPage ids total_stories 1 total_pages stories_per_page)
  | Raise e => Raise e
  end.

(** Lines 457-465: the terminal is measured twice, once for the test and
    once for the new value. *)
Definition resize (rows1 rows2 : Z) (st : page_state) : result page_state :=
  if stories_per_page st =? calculate_stories_per_page rows1 then Ok st
  else
    let stories_per_page := calculate_stories_per_page rows2 in
    match total_pages_of (total_stories st) stories_per_page with
    | Ok total_pages =>
        Ok (mkPage (story_ids st) (total_stories st)
                   (Z.min (current_page st) total_pages)
                   total_pages stories_per_page)
    | Raise e => Raise e
    end.

(** What one turn of the loop is given: the two terminal heights, the
    command typed at the prompt, the number of stories the page showed
    ([len(stories)]) and, for a refresh, what [get_story_ids] returns once
    [cache.clear()] has run. *)
Record turn : Type := mkTurn {
  rows1 : Z;
  rows2 : Z;
  command : string;
  shown : Z;
  refetched : result (list json)
}.

Inductive effect : Type :=
  | NoEffect
  | ViewStory (index : Z)
  | InvalidStoryNumber
  | Refreshed.

Inductive outcome : Type :=
  | Continue (st : page_state) (eff : effect)
  | Quit
  | Crash (e : exn).

(** Lines 493-514: the command dispatch.  [int(command)] is outside any
    [try]: a [ValueError] ends the session. *)
Definition dispatch (t : turn) (st : page_state) : outcome :=
  if String.eqb (lower (command t)) "n" then
    if current_page st <? total_pages st then
      Continue (mkPage (story_ids st) (total_stories st)
                       (current_page st + 1) (total_pages st)
                       (stories_per_page st)) NoEffect
    else Continue st NoEffect
  else if String.eqb (lower (command t)) "p" then
    if 1 <? current_page st then
      Continue (mkPage (story_ids st) (total_stories st)
                       (current_page st - 1) (total_pages st)
                       (stories_per_page st)) NoEffect
    else Continue st NoEffect
  else if String.eqb (lower (command t)) "r" then
    match refetched t with
    | Raise e => Crash e
    | Ok ids =>
        let total_stories := Z.of_nat (length ids) in
        match total_pages_of total_stories (stories_per_page st) with
        | Raise e => Crash e
        | Ok total_pages =>
            Continue (mkPage ids total_stories (current_page st) total_pages
                             (stories_per_page st)) Refreshed
        end
    end
  else if String.eqb (lower (command t)) "q" then Quit
  else if isdigit (command t) then
    match int_of_str (command t) with
    | Raise e => Crash e
    | Ok idx =>
        if (1 <=? idx) && (idx <=? shown t) then Continue st (ViewStory idx)
        else Continue st InvalidStoryNumber
    end
  else Continue st NoEffect.

(** One turn of [while True]. *)
Definition step (t : turn) (st : page_state) : outcome :=
  match resize (rows1 t) (rows2 t) st with
  | Raise e => Crash e
  | Ok st' => dispatch t st'
  end.

(** The state a session is in after a script of turns; [None] once the
    loop has been left. *)
Fixpoint session (script : list turn) (st : page_state) : option page_state :=
  match script with
  | [] => Some st
  | t :: rest =>
      match step t st with
      | Continue st' _ => session rest st'
      | Quit | Crash _ => None
      end
  end.

(** The invariant of the data model. *)
Definition page_in_range (st : page_state) : Prop :=
  1 <= current_page st <= total_pages st.

End Browse.

(** ** The comment navigator of cli.py ([display_comments]) *)

Module Comments.

(** [parent_ids[:max_comments]], or the limit derived from the terminal. *)
Definition limit_parents (parent_ids : list json) (max_comments : option Z)
    (rows : Z) : list json :=
  match max_comments with
  | Some n => slice parent_ids 0 n
  | None =>
      let max_parents := Z.max 5 (Z.min 10 (rows - 5)) in
      slice parent_ids 0 max_parents
  end.

(** [comment and "deleted" not in comment and "dead" not in comment]. *)
Definition kept (comment : json) : result bool :=
  if truthy comment then
    match str_in "deleted" comment with
    | Raise e => Raise e
    | Ok true => Ok false
    | Ok false =>
        match str_in "dead" comment with
        | Raise e => Raise e
        | Ok dead => Ok (negb dead)
        end
    end
  else Ok false.

(** [not cmt or "deleted" in cmt or "dead" in cmt]. *)
Definition pruned (cmt : json) : result bool :=
  if negb (truthy cmt) then Ok true
  else
    match str_in "deleted" cmt with
    | Raise e => Raise e
    | Ok true => Ok true
    | Ok false => str_in "dead" cmt
    end.

(** [for kid in cmt.get("kids", [])]. *)
Definition kids_of (cmt : json) : result (list json) :=
  match dict_get cmt "kids" (JList []) with
  | Raise e => Raise e
  | Ok kids => iter kids
  end.

Section Navigator.

Variable get_item : json -> M json.

(** The header line and the wrapped body lines of one comment at a depth.
    They format the author, the age (against the wall clock) and the text
    (against the terminal width) with library code, and raise when a field
    has the wrong type. *)
Variable header_line : json -> nat -> result string.
Variable body_lines : json -> nat -> result (list string).

(** Lines 297-305: the parent comments of the List view. *)
Definition prefetch_one (cid : json) (parent_comments : list json)
  : M (list json) :=
  try_except
    (comment ← get_item cid;
     keep ← lift (kept comment);
     if keep : bool then mret (parent_comments ++ [comment])
     else mret parent_comments)
    (fun _ => mret parent_comments).

Fixpoint prefetch (parent_ids : list json) (parent_comments : list json)
  : M (list json) :=
  match parent_ids with
  | [] => mret parent_comments
  | cid :: rest =>
      parent_comments' ← prefetch_one cid parent_comments;
      prefetch rest parent_comments'
  end.

(** Lines 352-375: [collect].  [fuel] is the number of stack frames left
    before Python raises [RecursionError]. *)
Fixpoint collect (fuel : nat) (cmt : json) (depth : nat) : M unit :=
  match fuel with
  | O => raise RecursionError
  | S fuel' =>
      stop ← lift (pruned cmt);
      if stop : bool then mret tt
      else
        header ← lift (header_line cmt depth);
        lines_append header ;;
        body ← lift (body_lines cmt depth);
        for_each body lines_append ;;
        lines_append EmptyString ;;
        kids ← lift (kids_of cmt);
        for_each kids (fun kid =>
          try_except
            (child ← get_item kid;
             collect fuel' child (S depth))
            (fun _ => mret tt))
  end.

(** The body of the loop over the kids, as the frame of [collect] that has
    [fuel] frames left below it runs it:
    [try: child = get_item(kid); collect(child, depth + 1)
     except Exception: continue]. *)
Definition collect_kid (fuel : nat) (depth : nat) (kid : json) : M unit :=
  try_except
    (child ← get_item kid;
     collect fuel child (S depth))
    (fun _ => mret tt).

End Navigator.

(** What [get_key] returns; [None] is any other key. *)
Inductive key : Type := UP | DOWN | ENTER | QUIT | BACK.

(** Lines 409-417: the selection after one keypress in the List state;
    [None] when the navigator is left.  [parent_comments[selected]] is what
    Enter expands. *)
Definition select_step (parent_comments : list json) (k : option key)
    (selected : Z) : result (option Z) :=
  let n := Z.of_nat (length parent_comments) in
  match k with
  | Some UP =>
      match pymod (selected - 1) n with
      | Ok s => Ok (Some s)
      | Raise e => Raise e
      end
  | Some DOWN =>
      match pymod (selected + 1) n with
      | Ok s => Ok (Some s)
      | Raise e => Raise e
      end
  | Some ENTER =>
      if (- n <=? selected) && (selected <? n) then Ok (Some selected)
      else Raise IndexError
  | Some QUIT | Some BACK => Ok None
  | None => Ok (Some selected)
  end.

(** The selection after a sequence of keypresses, starting from
    [selected]; [None] when the navigator has been left or has raised. *)
Fixpoint navigate (parent_comments : list json) (keys : list (option key))
    (selected : Z) : option Z :=
  match keys with
  | [] => Some selected
  | k :: rest =>
      match select_step parent_comments k selected with
      | Ok (Some s) => navigate parent_comments rest s
      | _ => None
      end
  end.

(** Lines 390-395: the viewport offset of the Expanded state. *)
Definition scroll_step (max_offset : Z) (k : option key) (offset : Z)
  : option Z :=
  match k with
  | Some UP => Some (Z.max 0 (offset - 1))
  | Some DOWN => Some (Z.min max_offset (offset + 1))
  | _ => None
  end.

End Comments.

(** ** config.py, and [config_set], [config_reset] and [get_config_value]
       of cli.py *)

Module Config.

Inductive setting : Type :=
  | SBool (b : bool)
  | SInt (n : Z)
  | SStr (s : string).

(** Lines 709-716 of cli.py: the coercion of the command-line value.
    [int(value)] stands before the [try] of [config_set]. *)
Definition coerce (value : string) : result setting :=
  if existsb (String.eqb (lower value)) ["true"; "yes"; "y"; "1"]
  then Ok (SBool true)
  else if existsb (String.eqb (lower value)) ["false"; "no"; "n"; "0"]
  then Ok (SBool false)
  else if isdigit value then
    match int_of_str value with
    | Ok n => Ok (SInt n)
    | Raise e => Raise e
    end
  else Ok (SStr value).

(** The dict [DEFAULT_CONFIG] as the module defines it. *)
Definition DEFAULT_CONFIG : gmap string setting :=
  <["stories_per_page" := SInt 10]>
  (<["max_comment_depth" := SInt 3]>
  (<["open_links_in_browser" := SBool true]>
  (<["color_theme" := SStr "default"]>
  (<["cache_timeout_minutes" := SInt 5]> ∅)))).

(** The configuration file: absent; there but not loadable (not JSON, as
    after a write that broke off); or holding a JSON object of settings. *)
Inductive config_file : Type :=
  | Missing
  | Corrupt
  | Stored (user_config : gmap string setting).

(** What config.py works on: the file; the dict [DEFAULT_CONFIG] of the
    running process, which [load_config] hands out and [update_setting]
    then writes to; and which operations on the directory and the file
    fail. *)
Record store : Type := mkStore {
  file : config_file;
  defaults : gmap string setting;
  fails : io_op -> bool
}.

Definition with_file (f : config_file) (s : store) : store :=
  mkStore f (defaults s) (fails s).

Definition with_defaults (d : gmap string setting) (s : store) : store :=
  mkStore (file s) d (fails s).

(** A process that has just imported the module. *)
Definition started (f : config_file) (faults : io_op -> bool) : store :=
  mkStore f DEFAULT_CONFIG faults.

(** The next process over the same file. *)
Definition restart (s : store) : store := with_defaults DEFAULT_CONFIG s.

Definition CONFIG : string := "config".

(** [get_config_path]: the [mkdir] is its only effect. *)
Definition get_config_path (s : store) : result unit :=
  if fails s Mkdir then Raise (OSError Mkdir) else Ok tt.

(** [save_config]: [open(config_path, "w")] empties the file, so a dump
    that breaks off leaves a file that does not load. *)
Definition save_config (config : gmap string setting) (s : store)
  : store * result unit :=
  match get_config_path s with
  | Raise e => (s, Raise e)
  | Ok _ =>
      if fails s (OpenWrite CONFIG) then (s, Raise (OSError (OpenWrite CONFIG)))
      else if fails s (WriteData CONFIG)
      then (with_file Corrupt s, Raise (OSError (WriteData CONFIG)))
      else (with_file (Stored config) s, Ok tt)
  end.

(** What [load_config] returns: a dict of its own (the copy of the
    defaults updated with the file), or the dict [DEFAULT_CONFIG]
    itself. *)
Inductive loaded : Type :=
  | Copy (config : gmap string setting)
  | TheDefaults.

Definition load_config (s : store) : store * result loaded :=
  match get_config_path s with
  | Raise e => (s, Raise e)
  | Ok _ =>
      match file s with
      | Stored user_config =>
          if fails s (OpenRead CONFIG) then (s, Ok TheDefaults)
          else (s, Ok (Copy (user_config ∪ defaults s)))
      | Corrupt => (s, Ok TheDefaults)
      | Missing =>
          match save_config (defaults s) s with
          | (s', Ok _) => (s', Ok TheDefaults)
          | (s', Raise e) => (s', Raise e)
          end
      end
  end.

(** The dict behind what [load_config] returned. *)
Definition dict_of (config : loaded) (s : store) : gmap string setting :=
  match config with
  | Copy m => m
  | TheDefaults => defaults s
  end.

(** [get_setting]: [config.get(key, DEFAULT_CONFIG.get(key))]; [None] is
    Python's [None]. *)
Definition get_setting (key : string) (s : store)
  : store * result (option setting) :=
  match load_config s with
  | (s', Raise e) => (s', Raise e)
  | (s', Ok config) =>
      (s', Ok match dict_of config s' !! key with
              | Some v => Some v
              | None => defaults s' !! key
              end)
  end.

(** [update_setting]: [config[key] = value] writes to the dict that
    [load_config] returned, which is [DEFAULT_CONFIG] when the file was
    absent or did not load. *)
Definition update_setting (key : string) (value : setting) (s : store)
  : store * result unit :=
  match load_config s with
  | (s', Raise e) => (s', Raise e)
  | (s', Ok (Copy m)) => save_config (<[key := value]> m) s'
  | (s', Ok TheDefaults) =>
      let d := <[key := value]> (defaults s') in
      save_config d (with_defaults d s')
  end.

(** [get_config_value] of cli.py. *)
Definition get_config_value (key : string) (default : option setting)
    (s : store) : store * option setting :=
  match get_setting key s with
  | (s', Ok v) => (s', v)
  | (s', Raise _) => (s', default)
  end.

(** What the two commands print. *)
Inductive report : Type :=
  | Updated (key : string) (value : setting)
  | ErrorUpdatingSetting (e : exn)
  | ConfigurationReset
  | ErrorResettingConfiguration (e : exn).

(** [config_set] of cli.py (lines 707-722) and of hncli.py. *)
Definition config_set (key value : string) (s : store)
  : store * result report :=
  match coerce value with
  | Raise e => (s, Raise e)
  | Ok v =>
      match update_setting key v s with
      | (s', Ok _) => (s', Ok (Updated key v))
      | (s', Raise e) => (s', Ok (ErrorUpdatingSetting e))
      end
  end.

(** [config_reset] of cli.py (lines 752-758). *)
Definition config_reset (s : store) : store * report :=
  match save_config (defaults s) s with
  | (s', Ok _) => (s', ConfigurationReset)
  | (s', Raise e) => (s', ErrorResettingConfiguration e)
  end.

End Config.

(** ** Concrete inputs used by the examples below *)

Module Scenario.
Import Browse.

(** [n] story ids, [first], [first+1], ... *)
Fixpoint ids_from (first : Z) (n : nat) : list json :=
  match n with
  | O => []
  | S n' => JNum first :: ids_from (first + 1) n'
  end.

(** A terminal of 18 rows: ten stories per page. *)
Definition rows : Z := 18.

Definition typed (c : string) (ids : result (list json)) : turn :=
  mkTurn rows rows c 10 ids.

(** Twenty-five stories, two "next" commands, then a refresh for which the
    server lists five stories only. *)
Definition shrinking_refresh : list turn :=
  [typed "n" (Ok []); typed "n" (Ok []); typed "r" (Ok (ids_from 1 5))].

(** A process with an empty cache, no disk fault, no network, a timeout
    of five minutes, at time 1000. *)
Definition no_faults : io_op -> bool := fun _ => false.
Definition offline : nat -> string -> response := fun _ _ => TransportFailure.

Definition quiet : world :=
  mkWorld ∅ ∅ 1000 no_faults offline [] 5 [] [].

(** The cache directory holds one file, [item_1.json], whose content is the
    JSON array ["x", 1]: two elements, the first not a number. *)
Definition odd_file : world :=
  with_disk {[ "item_1" := Parsed (JList [JStr "x"; JNum 1]) ]} quiet.

(** The cache holds, for the top stories, an empty list stored at time
    1000; the server would answer with three ids. *)
Definition top_url : string :=
  "https://hacker-news.firebaseio.com/v0/topstories.json".

Definition three_ids : nat -> string -> response :=
  fun _ url =>
    if String.eqb url top_url
    then Reply 200 (Some (JList [JNum 1; JNum 2; JNum 3]))
    else Reply 404 None.

Definition cached_empty_list : world :=
  mkWorld {[ "stories_top" := (JNum 1000, JList []) ]} ∅ 1000 no_faults
          three_ids [] 5 [] [].

(** The same cache with the list of ids [7; 8] in it. *)
Definition cached_two_ids : world :=
  mkWorld {[ "stories_top" := (JNum 1000, JList [JNum 7; JNum 8]) ]} ∅ 1000
          no_faults three_ids [] 5 [] [].

(** Items are asked for by integer id ([item_id: int]). *)
Definition by_id (item_id : json) : M json :=
  match item_id with
  | JNum n => Client.get_item n
  | _ => raise TypeError
  end.

Definition story (n : Z) : json :=
  JObj [("id", JNum n); ("type", JStr "story"); ("title", JStr "A story")].

(** A server that knows the stories 1 to 10 and fails on story 4. *)
Definition flaky_server : nat -> string -> response :=
  fun _ url =>
    match find (fun n => String.eqb url (Client.url_of (Client.Item n)))
               [1; 2; 3; 5; 6; 7; 8; 9; 10] with
    | Some n => Reply 200 (Some (story n))
    | None => Reply 500 None
    end.

Definition flaky : world :=
  mkWorld ∅ ∅ 1000 no_faults flaky_server [] 5 [] [].

(** A thread: comment 100 has the kids 101 and 102; 101 is deleted and
    lists the kid 103; 102 and 103 are plain comments. *)
Definition comment (n : Z) (by_ text : string) (kids : list Z) : json :=
  JObj [("id", JNum n); ("by", JStr by_); ("text", JStr text);
        ("kids", JList (map JNum kids)); ("type", JStr "comment")].

Definition deleted_comment : json :=
  JObj [("id", JNum 101); ("deleted", JBool true);
        ("kids", JList [JNum 103]); ("type", JStr "comment")].

Definition thread : list (Z * json) :=
  [(100, comment 100 "ann" "first" [101; 102]);
   (101, deleted_comment);
   (102, comment 102 "bob" "second" []);
   (103, comment 103 "cyd" "hidden" [])].

Definition thread_server : nat -> string -> response :=
  fun _ url =>
    match find (fun e => String.eqb url (Client.url_of (Client.Item e.1)))
               thread with
    | Some e => Reply 200 (Some e.2)
    | None => Reply 404 None
    end.

Definition threaded : world :=
  mkWorld ∅ ∅ 1000 no_faults thread_server [] 5 [] [].

(** A plain rendering: the author, indented, then the text on one line. *)
Fixpoint indent (depth : nat) : string :=
  match depth with
  | O => EmptyString
  | S d => "  " +:+ indent d
  end.

Definition field (cmt : json) (k default : string) : result string :=
  match dict_get cmt k (JStr default) with
  | Ok (JStr s) => Ok s
  | Ok _ => Raise TypeError
  | Raise e => Raise e
  end.

Definition plain_header (cmt : json) (depth : nat) : result string :=
  match field cmt "by" "unknown" with
  | Ok a => Ok (indent depth +:+ a)
  | Raise e => Raise e
  end.

Definition plain_body (cmt : json) (depth : nat) : result (list string) :=
  match field cmt "text" EmptyString with
  | Ok t => Ok [indent depth +:+ t]
  | Raise e => Raise e
  end.

End Scenario.

(** ** Predicates the statements below are written with *)

Module Spec.
Import Browse Pagination.

(** What the loop keeps true besides the range of the page: the page size
    is positive, there is a story, and the page count belongs to them. *)
Definition consistent (st : page_state) : Prop :=
  1 <= total_stories st
  /\ 1 <= stories_per_page st
  /\ total_pages_of (total_stories st) (stories_per_page st)
     = Ok (total_pages st).

(** The entry [load_cache_from_disk] takes from the file of a stem: the
    file opens, parses, and unpacks into two values. *)
Definition loadable (w : world) (stem : string) : option (json * json) :=
  if io_fails w (OpenRead stem) then None
  else match disk w !! stem with
       | Some (Parsed j) =>
           match unpack2 j with
           | Ok entry => Some entry
           | Raise _ => None
           end
       | Some Garbage | None => None
       end.

(** Every timestamp in memory is a number, as those [set] writes are. *)
Definition numeric_timestamps (m : gmap string (json * json)) : Prop :=
  forall key timestamp value,
    m !! key = Some (timestamp, value) -> is_Some (as_number timestamp).

(** The body the three client functions share, for a key and a URL. *)
Definition cached_fetch (key url : string) : M json :=
  ttl ← Client.cache_ttl;
  cached ← Cache.get key ttl;
  if truthy cached then mret cached
  else
    result ← Client.requests_get_json url;
    Cache.set key result ;;
    mret result.

(** An entry for the key that is unexpired under the configured timeout
    and whose value is truthy. *)
Definition usable_entry (w : world) (key : string) (value : json) : Prop :=
  exists timestamp t,
    mem w !! key = Some (timestamp, value)
    /\ as_number timestamp = Some t
    /\ clock w - t < cache_timeout_minutes w * 60
    /\ truthy value = true.

(** No entry, an expired entry, or an entry whose value is falsy. *)
Definition no_usable_entry (w : world) (key : string) : Prop :=
  mem w !! key = None
  \/ exists timestamp t value,
       mem w !! key = Some (timestamp, value)
       /\ as_number timestamp = Some t
       /\ (cache_timeout_minutes w * 60 <= clock w - t
           \/ truthy value = false).

(** A comment carrying the key "deleted" or the key "dead". *)
Definition marked (cmt : json) : Prop :=
  exists kvs, cmt = JObj kvs
    /\ (is_Some (assoc "deleted" kvs) \/ is_Some (assoc "dead" kvs)).

End Spec.

(** ** Text helpers of cli.py *)

Module Text.



(** [s[a:b]] on a string. *)
Definition str_slice (s : string) (a b : Z) : string :=
  string_of_list_ascii (slice (list_ascii_of_string s) a b).

(** [truncate_text]; [None] is Python's [None]. *)
Definition truncate_text (text : option string) (max_length : Z) : string :=
  match text with
  | Some t =>
      if negb (String.eqb t EmptyString)
         && (max_length <? Z.of_nat (String.length t))
      then str_slice t 0 (max_length - 3) +:+ "..."
      else t
  | None => EmptyString
  end.

End Text.

(** ** The Expanded view of cli.py (lines 378-395) *)

Module Expanded.

Definition view_height (rows : Z) : Z := Z.max (rows - 1) 1.

Definition max_offset (n_lines rows : Z) : Z :=
  Z.max (n_lines - view_height rows) 0.

(** [lines[offset: offset + view_height]], what one turn prints. *)
Definition window (buffer : list string) (rows offset : Z) : list string :=
  slice buffer offset (offset + view_height rows).

(** The offsets at which the screen is drawn while the keys are read: the
    loop draws, reads a key, and leaves on any key but the arrows. *)
Fixpoint drawn (max_offset : Z) (keys : list (option Comments.key))
    (offset : Z) : list Z :=
  offset ::
  match keys with
  | [] => []
  | k :: rest =>
      match Comments.scroll_step max_offset k offset with
      | Some offset' => drawn max_offset rest offset'
      | None => []
      end
  end.

End Expanded.

(** ** [search] of cli.py *)

Module Search.
Import Pagination.

(** [x.lower()] on a value taken from an item. *)
Definition lower_of (x : json) : result string :=
  match x with
  | JStr s => Ok (lower s)
  | _ => Raise AttributeError
  end.

(** [l[i]]. *)
Definition index {A} (l : list A) (i : Z) : result A :=
  let n := Z.of_nat (length l) in
  if (- n <=? i) && (i <? n) then
    match l !! Z.to_nat (if i <? 0 then i + n else i) with
    | Some x => Ok x
    | None => Raise IndexError
    end
  else Raise IndexError.

Section Loop.

Variable get_item : json -> M json.

(** Lines 626-636: the body of the search loop; [query] is lower-cased
    already. *)
Definition search_one (query : string) (story_id : json)
    (matching_stories : list json) : M (list json) :=
  try_except
    (story ← get_item story_id;
     if truthy story then
       t ← lift (dict_get story "type" JNull);
       if eq_str "story" t then
         title_value ← lift (dict_get story "title" (JStr EmptyString));
         title ← lift (lower_of title_value);
         text_value ← lift (dict_get story "text" (JStr EmptyString));
         text ← lift (lower_of text_value);
         if is_substring query title || is_substring query text
         then mret (matching_stories ++ [story])
         else mret matching_stories
       else mret matching_stories
     else mret matching_stories)
    (fun _ => mret matching_stories).

(** Lines 622-636: the loop, left once a hundred stories match. *)
Fixpoint search_loop (query : string) (all_story_ids : list json)
    (matching_stories : list json) : M (list json) :=
  match all_story_ids with
  | [] => mret matching_stories
  | story_id :: rest =>
      if 100 <=? Z.of_nat (length matching_stories) then mret matching_stories
      else
        matching_stories' ← search_one query story_id matching_stories;
        search_loop query rest matching_stories'
  end.

End Loop.

(** Lines 638-647: no page at all without a match; otherwise the first
    page.  The state is that of [browse_stories], over the matches. *)
Definition start (rows : Z) (matching_stories : list json)
  : option (result Browse.page_state) :=
  match matching_stories with
  | [] => None
  | _ =>
      let stories_per_page := calculate_stories_per_page rows in
      let total_stories := Z.of_nat (length matching_stories) in
      Some
        match total_pages_of total_stories stories_per_page with
        | Ok total_pages =>
            Ok (Browse.mkPage matching_stories total_stories 1 total_pages
                  stories_per_page)
        | Raise e => Raise e
        end
  end.

Inductive effect : Type :=
  | NoEffect
  | ViewStory (story : result json)
  | InvalidStoryNumber.

Inductive outcome : Type :=
  | Continue (st : Browse.page_state) (eff : effect)
  | Quit
  | Crash (e : exn).

(** The page the turn shows: [matching_stories[start_idx:end_idx]]. *)
Definition shown (st : Browse.page_state) : list json :=
  page_slice (Browse.story_ids st) (Browse.current_page st)
    (Browse.stories_per_page st).

(** Lines 675-692: the command dispatch of the search results. *)
Definition dispatch (command : string) (st : Browse.page_state) : outcome :=
  if String.eqb (lower command) "n" then
    if Browse.current_page st <? Browse.total_pages st then
      Continue (Browse.mkPage (Browse.story_ids st) (Browse.total_stories st)
                  (Browse.current_page st + 1) (Browse.total_pages st)
                  (Browse.stories_per_page st)) NoEffect
    else Continue st NoEffect
  else if String.eqb (lower command) "p" then
    if 1 <? Browse.current_page st then
      Continue (Browse.mkPage (Browse.story_ids st) (Browse.total_stories st)
                  (Browse.current_page st - 1) (Browse.total_pages st)
                  (Browse.stories_per_page st)) NoEffect
    else Continue st NoEffect
  else if String.eqb (lower command) "r" then Continue st NoEffect
  else if String.eqb (lower command) "q" then Quit
  else if isdigit command then
    match int_of_str command with
    | Raise e => Crash e
    | Ok idx =>
        let start_idx :=
          (Browse.current_page st - 1) * Browse.stories_per_page st in
        if (1 <=? idx) && (idx <=? Z.of_nat (length (shown st))) then
          Continue st (ViewStory (index (Browse.story_ids st)
                                    (start_idx + idx - 1)))
        else Continue st InvalidStoryNumber
    end
  else Continue st NoEffect.

(** One turn of the loop (lines 649-692); the resize test is the one of
    [browse_stories]. *)
Definition step (rows1 rows2 : Z) (command : string)
    (st : Browse.page_state) : outcome :=
  match Browse.resize rows1 rows2 st with
  | Raise e => Crash e
  | Ok st' => dispatch command st'
  end.

Fixpoint session (script : list (Z * Z * string)) (st : Browse.page_state)
  : option Browse.page_state :=
  match script with
  | [] => Some st
  | (rows1, rows2, command) :: rest =>
      match step rows1 rows2 command st with
      | Continue st' _ => session rest st'
      | Quit | Crash _ => None
      end
  end.

End Search.

(** ** The story lists of hncli.py ([top], [new], [best]) *)

Module Legacy.

(** Lines 212-219: [for story_id in story_ids[:limit]] with the loop body
    that [browse_stories] of cli.py kept. *)
Definition listing (get_item : json -> M json) (story_ids : list json)
    (limit : Z) : M (list json) :=
  Browse.load_page get_item (slice story_ids 0 limit) [].

End Legacy.

(** ** The keyboard of the comment navigator (cli.py, lines 307-336) *)

Module Keyboard.
Import Comments.

Definition ESC : ascii := ascii_of_nat 27.
Definition CR : ascii := ascii_of_nat 13.
Definition LF : ascii := ascii_of_nat 10.

(** [sys.stdin.read(1)]: the next character and the rest of the input; the
    empty string at the end of the input. *)
Definition read_single_keypress (stdin : string) : string * string :=
  match stdin with
  | EmptyString => (EmptyString, EmptyString)
  | String c rest => (String c EmptyString, rest)
  end.

Definition get_key (stdin : string) : option key * string :=
  let (k, s1) := read_single_keypress stdin in
  if String.eqb k (String ESC EmptyString) then
    let (next1, s2) := read_single_keypress s1 in
    if String.eqb next1 "[" then
      let (next2, s3) := read_single_keypress s2 in
      if String.eqb next2 "A" then (Some UP, s3)
      else if String.eqb next2 "B" then (Some DOWN, s3)
      else (None, s3)
    else (None, s2)
  else if String.eqb k (String CR EmptyString)
          || String.eqb k (String LF EmptyString) then (Some ENTER, s1)
  else if String.eqb (lower k) "q" then (Some QUIT, s1)
  else if String.eqb (lower k) "b" then (Some BACK, s1)
  else (None, s1).

End Keyboard.

(** ** The comment tree of hncli.py ([display_comments], lines 174-201) *)

Module LegacyTree.

(** What the traversal prints: a comment shown at a depth, with the lines
    [display_comment] wrote for it, or an error line for a comment id. *)
Inductive event : Type :=
  | Displayed (comment : json) (depth : Z) (printed : list string)
  | ErrorFetchingComment (comment_id : json) (e : exn).

(** [comment["kids"]] under [if "kids" in comment]: the kids when there
    are any; a value that is no object but contains "kids" cannot be
    indexed by a string. *)
Definition kids_if_any (comment : json) : result (option json) :=
  match comment with
  | JObj kvs => Ok (assoc "kids" kvs)
  | _ =>
      match str_in "kids" comment with
      | Raise e => Raise e
      | Ok true => Raise TypeError
      | Ok false => Ok None
      end
  end.

Section Tree.

Variable get_item : json -> M json.

(** What subscripting a dict with a slice raises: [TypeError] (a slice
    is unhashable) before Python 3.12, the key error of a missing key
    from 3.12 on. *)
Variable dict_slice_error : exn.

(** [comment_ids[:10]], as the list the loop runs over. *)
Definition first_ten (comment_ids : json) : result (list json) :=
  match comment_ids with
  | JList l => Ok (slice l 0 10)
  | JStr s => Ok (slice (chars s) 0 10)
  | JObj _ => Raise dict_slice_error
  | JNull | JBool _ | JNum _ => Raise TypeError
  end.

(** [display_comment]: the lines it prints and the exception it ends
    with, if any (it formats the age and unescapes the text with library
    code). *)
Variable display_comment : json -> Z -> list string * option exn.

(** The body of the loop, with [descend] for the recursive call. *)
Definition visit
    (descend : json -> Z -> list event -> world ->
               world * (list event * option exn))
    (comment_id : json) (depth : Z) (trace : list event) (w : world)
  : world * list event :=
  let failed e w' t := (w', t ++ [ErrorFetchingComment comment_id e]) in
  match get_item comment_id w with
  | (w1, Raise e) => failed e w1 trace
  | (w1, Ok comment) =>
      match str_in "deleted" comment with
      | Raise e => failed e w1 trace
      | Ok true => (w1, trace)
      | Ok false =>
          match str_in "dead" comment with
          | Raise e => failed e w1 trace
          | Ok true => (w1, trace)
          | Ok false =>
              let (printed, failure) := display_comment comment depth in
              let trace1 := trace ++ [Displayed comment depth printed] in
              match failure with
              | Some e => failed e w1 trace1
              | None =>
                  match kids_if_any comment with
                  | Raise e => failed e w1 trace1
                  | Ok None => (w1, trace1)
                  | Ok (Some kids) =>
                      match descend kids (depth + 1) trace1 w1 with
                      | (w2, (trace2, Some e)) => failed e w2 trace2
                      | (w2, (trace2, None)) => (w2, trace2)
                      end
                  end
              end
          end
      end
  end.

Fixpoint visit_all (f : json -> list event -> world -> world * list event)
    (ids : list json) (trace : list event) (w : world)
  : world * list event :=
  match ids with
  | [] => (w, trace)
  | comment_id :: rest =>
      let (w1, trace1) := f comment_id trace w in
      visit_all f rest trace1 w1
  end.

(** [fetch_and_display_comments] with [levels] for the levels left,
    [max_depth - depth]. *)
Fixpoint descend (levels : nat) (comment_ids : json) (depth : Z)
    (trace : list event) (w : world) : world * (list event * option exn) :=
  match levels with
  | O => (w, (trace, None))
  | S levels' =>
      if negb (truthy comment_ids) then (w, (trace, None))
      else
        match first_ten comment_ids with
        | Raise e => (w, (trace, Some e))
        | Ok ids =>
            let (w', trace') :=
              visit_all (fun comment_id => visit (descend levels') comment_id
                                             depth) ids trace w in
            (w', (trace', None))
        end
  end.

Definition fetch_and_display_comments (max_depth : Z) (comment_ids : json)
    (depth : Z) (trace : list event) (w : world)
  : world * (list event * option exn) :=
  descend (Z.to_nat (max_depth - depth)) comment_ids depth trace w.

End Tree.

(** The most comments [levels] levels can show: ten per list of kids. *)
Fixpoint most_shown (levels : nat) : nat :=
  match levels with
  | O => 0
  | S levels' => 10 * (1 + most_shown levels')
  end.

Definition is_displayed (e : event) : bool :=
  match e with
  | Displayed _ _ _ => true
  | ErrorFetchingComment _ _ => false
  end.

End LegacyTree.

(** ** Further predicates and enumerations *)

Module Props.

(** The page numbers [1 .. total_pages]. *)
Definition page_numbers (total_pages : Z) : list Z :=
  map Z.of_nat (seq 1 (Z.to_nat total_pages)).


(** A story that the search keeps for a query: its type is "story" and
    the query occurs in its lower-cased title or text. *)
Definition matches (query : string) (story : json) : Prop :=
  exists kvs title_value text_value title text,
    story = JObj kvs
    /\ assoc "type" kvs = Some (JStr "story")
    /\ dict_get story "title" (JStr EmptyString) = Ok title_value
    /\ Search.lower_of title_value = Ok title
    /\ dict_get story "text" (JStr EmptyString) = Ok text_value
    /\ Search.lower_of text_value = Ok text
    /\ (is_substring query title = true \/ is_substring query text = true).


(** A shown comment lies on one of the [levels] levels from [depth] on
    and carries neither a "deleted" nor a "dead" mark. *)
Definition shown_within (depth : Z) (levels : nat) (e : LegacyTree.event)
  : Prop :=
  match e with
  | LegacyTree.Displayed c d _ =>
      depth <= d < depth + Z.of_nat levels
      /\ str_in "deleted" c = Ok false
      /\ str_in "dead" c = Ok false
  | LegacyTree.ErrorFetchingComment _ _ => True
  end.

(** How many comments a trace shows. *)
Definition shown (t : list LegacyTree.event) : nat :=
  length (List.filter LegacyTree.is_displayed t).

End Props.

(** ** Further concrete inputs *)

Module Sample.

(** At time 1000 the cache holds [old], stored at 100, and [new], stored
    at 900. *)
Definition two_entries : world :=
  with_mem (<["old" := (JNum 100, JNum 1)]>
            (<["new" := (JNum 900, JNum 2)]> ∅)) Scenario.quiet.

(** A server that has story 1 and nothing else. *)
Definition one_story : nat -> string -> response :=
  fun _ url =>
    if String.eqb url (Client.url_of (Client.Item 1))
    then Reply 200 (Some (Scenario.story 1))
    else Reply 404 None.

(** The one-character string of the superscript two, code point 178. *)
Definition superscript_two : string := String (ascii_of_nat 178) EmptyString.

(** A numeral of 4301 digits, one more than [int] converts. *)
Definition long_numeral : string :=
  string_of_list_ascii (repeat "7"%char 4301).

Definition online : world :=
  mkWorld ∅ ∅ 1000 Scenario.no_faults one_story [] 5 [] [].


(** A [display_comment] that prints the author, the text and an empty
    line. *)
Definition plain_display (cmt : json) (depth : Z)
  : list string * option exn :=
  match Scenario.plain_header cmt (Z.to_nat depth) with
  | Raise e => ([], Some e)
  | Ok header =>
      match Scenario.plain_body cmt (Z.to_nat depth) with
      | Raise e => ([header], Some e)
      | Ok body => (header :: body ++ [EmptyString], None)
      end
  end.

End Sample.

(** * Properties *)

(** ** Pagination *)

Lemma calculate_stories_per_page_range rows :
  10 <= Pagination.calculate_stories_per_page rows <= 20.
Proof.
  unfold Pagination.calculate_stories_per_page, Pagination.MIN_STORIES,
    Pagination.MAX_STORIES, Pagination.RESERVED_ROWS. lia.
Qed.

Lemma total_pages_of_zero spp :
  1 <= spp -> Pagination.total_pages_of 0 spp = Ok 0.
Proof.
  intros Hspp. unfold Pagination.total_pages_of, floordiv.
  destruct (Z.eqb_spec spp 0) as [->|_]; [lia|].
  f_equal. apply Z.div_small. lia.
Qed.

Lemma slice_nil {A} (a b : Z) : slice (@nil A) a b = [].
Proof. unfold slice. by rewrite take_nil, drop_nil. Qed.

(** With no story and a page size of at least one, the page count is 0
    and the slice of the first page is empty. *)
Lemma no_stories_zero_pages_empty_slice (spp rows : Z) :
  1 <= spp ->
  Pagination.total_pages_of 0 spp = Ok 0
  /\ exists st, Browse.start (Some spp) rows [] = Ok st
       /\ Browse.total_pages st = 0
       /\ Browse.current_page st = 1
       /\ Pagination.page_slice (Browse.story_ids st) (Browse.current_page st)
            (Browse.stories_per_page st) = [].
Proof.
  intros Hspp. split; [by apply total_pages_of_zero|].
  unfold Browse.start. simpl. rewrite total_pages_of_zero by done.
  eexists. split; [reflexivity|]. simpl.
  repeat split. unfold Pagination.page_slice. apply slice_nil.
Qed.

(** C1 at the failing input: [get_story_ids] returns the empty list, on a
    terminal of 18 rows.  The session starts on page 1 of 0 pages: the page
    count is 0, not 1, and the current page is outside 1 .. total_pages.
    On the first turn after the terminal has grown to 40 rows the
    recomputation sets the current page to min(1, 0) = 0, and the page
    shown is the slice [story_ids[-20:0]]; "n" and "p" leave the page at
    0.  [search], which has the same loop, returns before it when nothing
    matched. *)
Theorem no_stories_page_one_of_zero :
  exists st0 st1,
    Browse.start None 18 [] = Ok st0
    /\ Browse.total_pages st0 = 0
    /\ Browse.current_page st0 = 1
    /\ ~ Browse.page_in_range st0
    /\ Browse.resize 40 40 st0 = Ok st1
    /\ Browse.total_pages st1 = 0
    /\ Browse.current_page st1 = 0
    /\ (Browse.current_page st1 - 1) * Browse.stories_per_page st1 = -20
    /\ Pagination.page_slice (Browse.story_ids st1) (Browse.current_page st1)
         (Browse.stories_per_page st1) = []
    /\ Browse.session [Browse.mkTurn 40 40 "n" 0 (Ok []);
                       Browse.mkTurn 40 40 "p" 0 (Ok [])] st1 = Some st1
    /\ Search.start 18 [] = None.
Proof.
  eexists _, _. split; [vm_compute; reflexivity|].
  split; [reflexivity|]. split; [reflexivity|].
  split; [unfold Browse.page_in_range; simpl; lia|].
  split; [vm_compute; reflexivity|].
  repeat split.
Qed.

(** The page count of the spec's examples. *)
Example total_pages_25_10 : Pagination.total_pages_of 25 10 = Ok 3.
Proof. reflexivity. Qed.

Example third_page_of_25 :
  Pagination.page_slice (Scenario.ids_from 1 25) 3 10
  = [JNum 21; JNum 22; JNum 23; JNum 24; JNum 25].
Proof. reflexivity. Qed.

(** ** The page state of a browse session *)

Section PageInvariant.
Import Browse Pagination Spec.

Lemma total_pages_of_pos total spp :
  1 <= total -> 1 <= spp ->
  exists tp, total_pages_of total spp = Ok tp /\ 1 <= tp.
Proof.
  intros Ht Hs. unfold total_pages_of, floordiv.
  destruct (Z.eqb_spec spp 0) as [->|_]; [lia|].
  eexists; split; [reflexivity|].
  apply Z.div_le_lower_bound; lia.
Qed.

Lemma start_in_range limit rows ids st :
  ids <> [] -> (forall n, limit = Some n -> 1 <= n) ->
  start limit rows ids = Ok st -> page_in_range st /\ consistent st.
Proof.
  intros Hids Hlim. unfold start.
  set (spp := match limit with Some n => n | None => _ end).
  assert (1 <= spp) as Hspp.
  { subst spp. destruct limit as [n|]; [by apply Hlim|].
    pose proof (calculate_stories_per_page_range rows). lia. }
  assert (1 <= Z.of_nat (length ids)) as Hlen.
  { destruct ids; [done|]. simpl length. lia. }
  destruct (total_pages_of_pos _ _ Hlen Hspp) as (tp & Htp & Hpos).
  rewrite Htp. intros [= <-]. unfold page_in_range, consistent. simpl.
  repeat split; try lia. done.
Qed.

Lemma resize_in_range r1 r2 st st' :
  page_in_range st -> consistent st ->
  resize r1 r2 st = Ok st' -> page_in_range st' /\ consistent st'.
Proof.
  intros Hr (Ht & Hs & Hp). unfold resize.
  destruct (Z.eqb_spec (stories_per_page st) (calculate_stories_per_page r1)).
  { intros [= <-]. done. }
  pose proof (calculate_stories_per_page_range r2) as Hc.
  destruct (total_pages_of_pos (total_stories st)
              (calculate_stories_per_page r2)) as (tp & Htp & Hpos);
    [lia|lia|].
  rewrite Htp. intros [= <-].
  unfold page_in_range, consistent in *. simpl. repeat split; try lia. done.
Qed.

(** Advance, retreat, a story number and any unknown command keep the page
    in range; so does the recomputation after a resize. *)
Lemma step_in_range_without_refresh t st st' eff :
  page_in_range st -> consistent st ->
  step t st = Continue st' eff -> eff <> Refreshed ->
  page_in_range st' /\ consistent st'.
Proof.
  intros Hr Hc. unfold step.
  destruct (resize (rows1 t) (rows2 t) st) as [st1|e] eqn:Hres; [|done].
  destruct (resize_in_range _ _ _ _ Hr Hc Hres) as [Hr1 Hc1].
  unfold dispatch, page_in_range, consistent in *.
  repeat case_match; intros [= <- <-] Heff; simpl in *;
    try done; repeat split; try lia; try tauto.
Qed.

(** A refresh keeps the page in range when the new list is not shorter. *)
Lemma refresh_in_range_when_not_shorter t st st' :
  page_in_range st -> consistent st ->
  (forall ids, refetched t = Ok ids ->
     total_stories st <= Z.of_nat (length ids)) ->
  step t st = Continue st' Refreshed ->
  page_in_range st' /\ consistent st'.
Proof.
  intros Hr Hc Hlen. unfold step.
  destruct (resize (rows1 t) (rows2 t) st) as [st1|e] eqn:Hres; [|done].
  destruct (resize_in_range _ _ _ _ Hr Hc Hres) as [Hr1 (Ht1 & Hs1 & Hp1)].
  assert (total_stories st1 = total_stories st) as Htot.
  { revert Hres. unfold resize. repeat case_match; by intros [= <-]. }
  unfold dispatch.
  destruct (refetched t) as [ids|] eqn:Hre; repeat case_match;
    intros [= <-]; simplify_eq/=.
  specialize (Hlen _ eq_refl).
  unfold page_in_range, consistent in *. simpl.
  match goal with H : total_pages_of (Z.of_nat _) _ = Ok _ |- _ =>
    rename H into Hnew end.
  revert Hp1 Hnew. unfold total_pages_of, floordiv.
  destruct (Z.eqb_spec (stories_per_page st1) 0); [lia|].
  intros [= Hold] [= Hnew]. repeat split; try lia.
  - destruct Hr1 as [_ Hle]. etrans; [exact Hle|].
    rewrite <- Hold, <- Hnew. apply Z.div_le_mono; lia.
  - by rewrite <- Hnew.
Qed.

End PageInvariant.

(** C2 at the failing input: from twenty-five stories the session goes to
    page 3; the refresh then fetches a list of five, recomputes the page
    count to 1 and leaves the current page at 3, out of range. *)
Theorem refresh_leaves_page_out_of_range :
  exists st0 st,
    Browse.start None Scenario.rows (Scenario.ids_from 1 25) = Ok st0
    /\ Browse.page_in_range st0
    /\ Browse.session Scenario.shrinking_refresh st0 = Some st
    /\ Browse.current_page st = 3
    /\ Browse.total_pages st = 1
    /\ ~ Browse.page_in_range st.
Proof.
  eexists _, _. split; [vm_compute; reflexivity|].
  split; [unfold Browse.page_in_range; simpl; lia|].
  split; [vm_compute; reflexivity|].
  split; [reflexivity|]. split; [reflexivity|].
  unfold Browse.page_in_range. simpl. lia.
Qed.

(** ** The selection of the List state *)

Section Selection.
Import Comments.

Variable parent_comments : list json.
Hypothesis non_empty : parent_comments <> [].

Let n : Z := Z.of_nat (length parent_comments).

Lemma n_pos : 1 <= n.
Proof. subst n. destruct parent_comments; [done|]. simpl length. lia. Qed.

Lemma select_down selected :
  0 <= selected < n ->
  select_step parent_comments (Some DOWN) selected
  = Ok (Some (if selected =? n - 1 then 0 else selected + 1)).
Proof.
  intros Hs. pose proof n_pos. unfold select_step, pymod. fold n.
  destruct (Z.eqb_spec n 0); [lia|]. do 2 f_equal.
  destruct (Z.eqb_spec selected (n - 1)) as [->|].
  - replace (n - 1 + 1) with n by lia. apply Z_mod_same_full.
  - apply Z.mod_small. lia.
Qed.

Lemma select_up selected :
  0 <= selected < n ->
  select_step parent_comments (Some UP) selected
  = Ok (Some (if selected =? 0 then n - 1 else selected - 1)).
Proof.
  intros Hs. pose proof n_pos. unfold select_step, pymod. fold n.
  destruct (Z.eqb_spec n 0); [lia|]. do 2 f_equal.
  destruct (Z.eqb_spec selected 0) as [->|].
  - symmetry. apply Z.mod_unique_pos with (q := -1); lia.
  - apply Z.mod_small. lia.
Qed.

Lemma select_step_in_range k selected s :
  0 <= selected < n ->
  select_step parent_comments k selected = Ok (Some s) -> 0 <= s < n.
Proof.
  intros Hs. pose proof n_pos.
  destruct k as [[]|].
  - rewrite select_up by done. intros [= <-]. case_match; lia.
  - rewrite select_down by done. intros [= <-]. case_match; lia.
  - simpl. case_match; by intros [= <-].
  - done.
  - done.
  - simpl. by intros [= <-].
Qed.

Lemma navigate_in_range keys : forall selected s,
  0 <= selected < n ->
  navigate parent_comments keys selected = Some s -> 0 <= s < n.
Proof.
  induction keys as [|k keys IH]; intros selected s Hs; simpl.
  - by intros [= <-].
  - destruct (select_step parent_comments k selected) as [[s1|]|] eqn:Hk;
      try done.
    apply IH. by eapply select_step_in_range.
Qed.

End Selection.

(** C8: over a non-empty list of [n] parent comments, "down" at index
    [n-1] selects 0, "up" at index 0 selects [n-1], elsewhere they move the
    selection by one; and whatever keys are pressed from the initial
    selection 0, the index stays within [0, n-1]. *)
Theorem selection_is_circular (parent_comments : list json) (selected : Z) :
  parent_comments <> [] ->
  let n := Z.of_nat (length parent_comments) in
  0 <= selected < n ->
  Comments.select_step parent_comments (Some Comments.DOWN) selected
    = Ok (Some (if selected =? n - 1 then 0 else selected + 1))
  /\ Comments.select_step parent_comments (Some Comments.UP) selected
    = Ok (Some (if selected =? 0 then n - 1 else selected - 1))
  /\ (forall k s,
        Comments.select_step parent_comments k selected = Ok (Some s) ->
        0 <= s < n)
  /\ (forall keys s,
        Comments.navigate parent_comments keys 0 = Some s -> 0 <= s < n).
Proof.
  intros Hne n Hs. split; [by apply select_down|].
  split; [by apply select_up|].
  split; [intros k s; by apply select_step_in_range|].
  intros keys s. apply navigate_in_range; [done|].
  pose proof (n_pos parent_comments Hne). lia.
Qed.

Lemma selection_is_circular_witness :
  let cs := [JObj [("id", JNum 1)]; JObj [("id", JNum 2)];
             JObj [("id", JNum 3)]] in
  cs <> [] /\ 0 <= 2 < Z.of_nat (length cs)
  /\ Comments.select_step cs (Some Comments.DOWN) 2 = Ok (Some 0)
  /\ Comments.select_step cs (Some Comments.UP) 2 = Ok (Some 1).
Proof.
  intros cs.
  assert (cs <> []) as Hne by done.
  assert (0 <= 2 < Z.of_nat (length cs)) as Hsel by (simpl; lia).
  split; [exact Hne|]. split; [exact Hsel|].
  destruct (selection_is_circular cs 2 Hne Hsel) as (Hdown & Hup & _).
  split; [exact Hdown|exact Hup].
Defined.

(** ** The coercion of [config_set] *)

Section Coercion.
Import Config.

Local Abbreviation truthy_words := ["true"; "yes"; "y"; "1"]%string (only parsing).
Local Abbreviation falsy_words := ["false"; "no"; "n"; "0"]%string (only parsing).

Lemma existsb_eqb_In (s : string) (l : list string) :
  existsb (String.eqb s) l = true <-> In s l.
Proof.
  rewrite existsb_exists. split.
  - intros (x & Hx & Heq). apply String.eqb_eq in Heq. by subst.
  - intros Hin. exists s. split; [done|]. apply String.eqb_refl.
Qed.

Lemma coerce_true value :
  In (lower value) truthy_words -> coerce value = Ok (SBool true).
Proof.
  intros Hin. unfold coerce.
  by rewrite (proj2 (existsb_eqb_In _ _) Hin).
Qed.

Lemma words_disjoint s : In s truthy_words -> ~ In s falsy_words.
Proof.
  simpl.
  intros [<-|[<-|[<-|[<-|[]]]]] [H|[H|[H|[H|[]]]]]; discriminate.
Qed.

Lemma not_In_existsb s l : ~ In s l -> existsb (String.eqb s) l = false.
Proof.
  intros Hn. destruct (existsb _ l) eqn:E; [|done].
  by apply existsb_eqb_In in E.
Qed.

Lemma coerce_false value :
  In (lower value) falsy_words -> coerce value = Ok (SBool false).
Proof.
  intros Hin. unfold coerce.
  rewrite not_In_existsb.
  - by rewrite (proj2 (existsb_eqb_In _ _) Hin).
  - intros Ht. by apply (words_disjoint _ Ht).
Qed.

Lemma coerce_other value :
  ~ In (lower value) truthy_words -> ~ In (lower value) falsy_words ->
  coerce value
  = if isdigit value then
      match int_of_str value with
      | Ok n => Ok (SInt n)
      | Raise e => Raise e
      end
    else Ok (SStr value).
Proof.
  intros Ht Hf. unfold coerce.
  rewrite (not_In_existsb _ _ Ht).
  by rewrite (not_In_existsb _ _ Hf).
Qed.

(** Away from the digit strings that [int] rejects, the coercion is the
    one of the claim: the two lists of words give the booleans, a string
    of at most [int_max_str_digits] decimal digits the integer it denotes,
    and a string that does not pass [isdigit] itself. *)
Lemma coerce_cases value :
  (In (lower value) truthy_words -> coerce value = Ok (SBool true))
  /\ (In (lower value) falsy_words -> coerce value = Ok (SBool false))
  /\ (~ In (lower value) truthy_words -> ~ In (lower value) falsy_words ->
      (isdigit value = false -> coerce value = Ok (SStr value))
      /\ (isdigit value = true -> all_decimal value = true ->
          Z.of_nat (String.length value) <= int_max_str_digits ->
          coerce value = Ok (SInt (int_of_digits 0 value)))
      /\ (isdigit value = true ->
          all_decimal value = false
          \/ int_max_str_digits < Z.of_nat (String.length value) ->
          coerce value = Raise ValueError)).
Proof.
  split; [apply coerce_true|]. split; [apply coerce_false|].
  intros Ht Hf. rewrite (coerce_other _ Ht Hf). unfold int_of_str.
  split; [by intros ->|]. split.
  - intros -> -> Hlen.
    by destruct (Z.leb_spec (Z.of_nat (String.length value))
                   int_max_str_digits); [|lia].
  - intros -> [->|Hlong]; [done|].
    destruct (Z.leb_spec (Z.of_nat (String.length value))
                int_max_str_digits); [lia|].
    by rewrite andb_false_r.
Qed.

Example coerce_examples :
  coerce "YES" = Ok (SBool true)
  /\ coerce "No" = Ok (SBool false)
  /\ coerce "1" = Ok (SBool true)
  /\ coerce "0" = Ok (SBool false)
  /\ coerce "15" = Ok (SInt 15)
  /\ coerce "007" = Ok (SInt 7)
  /\ coerce "dark" = Ok (SStr "dark")
  /\ coerce "-3" = Ok (SStr "-3").
Proof. vm_compute. repeat split. Qed.

(** A numeral of 4301 digits passes [isdigit] and makes the coercion
    raise. *)
Example long_numeral_raises :
  isdigit Sample.long_numeral = true
  /\ all_decimal Sample.long_numeral = true
  /\ coerce Sample.long_numeral = Raise ValueError.
Proof. vm_compute. repeat split. Qed.

End Coercion.

(** C10 at the failing input: the value is the one-character string of
    the superscript two.  It is none of the eight words and passes
    [isdigit], so [int] is called on it and raises [ValueError]; that is
    before the [try] of [config_set], so the command ends with the
    exception and the configuration is left as it was: the value is stored
    neither as an integer nor as the string. *)
Theorem superscript_digit_is_not_stored (key : string) (s : Config.store) :
  isdigit Sample.superscript_two = true
  /\ all_decimal Sample.superscript_two = false
  /\ Config.coerce Sample.superscript_two = Raise ValueError
  /\ Config.config_set key Sample.superscript_two s = (s, Raise ValueError).
Proof. repeat split. Qed.

(** ** Cache keys *)

Section Keys.
Import Cache Client.

Lemma cache_key_single prefix a :
  cache_key prefix [a] = prefix +:+ "_" +:+ str a.
Proof. reflexivity. Qed.

Lemma key_of_stories t : key_of (Stories t) = "stories_" +:+ t.
Proof. reflexivity. Qed.

Lemma key_of_item i : key_of (Item i) = "item_" +:+ str_int i.
Proof. reflexivity. Qed.

Lemma key_of_user u : key_of (User u) = "user_" +:+ u.
Proof. reflexivity. Qed.

Lemma key_of_inj r1 r2 : key_of r1 = key_of r2 -> r1 = r2.
Proof.
  destruct r1 as [t1|i1|u1], r2 as [t2|i2|u2];
    rewrite ?key_of_stories, ?key_of_item, ?key_of_user; simpl;
    intros H; try discriminate; injection H as H; f_equal; try done.
  unfold str_int in H. by apply (inj pretty).
Qed.

End Keys.

(** C7: the key is the prefix, an underscore, and the arguments' [str]
    joined by dashes, a function of the prefix and the ordered arguments
    alone; and for the client's three kinds of request, each with its
    single argument, two requests have the same key exactly when they are
    the same request. *)
Theorem cache_key_deterministic_and_injective :
  (forall prefix args,
     Cache.cache_key prefix args
     = prefix +:+ "_" +:+ Cache.join "-" (map Cache.str args))
  /\ (forall prefix prefix' args args',
        prefix = prefix' -> args = args' ->
        Cache.cache_key prefix args = Cache.cache_key prefix' args')
  /\ (forall r1 r2 : Client.request,
        Client.key_of r1 = Client.key_of r2 <-> r1 = r2).
Proof.
  split; [reflexivity|]. split; [by intros ???? -> ->|].
  intros r1 r2. split; [apply key_of_inj|by intros ->].
Qed.

Lemma cache_key_deterministic_and_injective_witness :
  Cache.cache_key "item" [Cache.AInt 8863] = "item_8863"
  /\ Client.key_of (Client.Item 8863) <> Client.key_of (Client.Item 8864)
  /\ Client.key_of (Client.User "pg") <> Client.key_of (Client.Stories "pg").
Proof.
  destruct cache_key_deterministic_and_injective as (Hshape & _ & Hinj).
  split; [rewrite Hshape; reflexivity|].
  split; intros Heq; apply Hinj in Heq; discriminate Heq.
Defined.

Example cache_key_join_collides :
  Cache.cache_key "item" [Cache.AStr "1"; Cache.AStr "2"]
  = Cache.cache_key "item" [Cache.AStr "1-2"].
Proof. reflexivity. Qed.

(** ** The TTL cache *)

(** Unfolding of the monad's plumbing. *)
Ltac munfold :=
  repeat progress
    (unfold time_time, console_print, lines_append, mbind, M_bind, mret,
       M_ret, raise, lift, try_except, read_world, modify in * );
  cbv beta iota.

Lemma bind_ok {A B} (m : M A) (f : A -> M B) w w1 a :
  m w = (w1, Ok a) -> (m ≫= f) w = f a w1.
Proof. intros H. unfold mbind, M_bind. by rewrite H. Qed.

Lemma bind_raise {A B} (m : M A) (f : A -> M B) w w1 e :
  m w = (w1, Raise e) -> (m ≫= f) w = (w1, Raise e).
Proof. intros H. unfold mbind, M_bind. by rewrite H. Qed.

Lemma try_ok {A} (m : M A) (h : exn -> M A) w w1 a :
  m w = (w1, Ok a) -> try_except m h w = (w1, Ok a).
Proof. intros H. unfold try_except. by rewrite H. Qed.

Lemma try_raise {A} (m : M A) (h : exn -> M A) w w1 e :
  m w = (w1, Raise e) -> try_except m h w = h e w1.
Proof. intros H. unfold try_except. by rewrite H. Qed.

Section CacheFacts.
Import Cache.

(** [save_cache_to_disk] touches the disk only. *)
Lemma save_cache_to_disk_mem key w :
  mem (save_cache_to_disk key w).1 = mem w
  /\ clock (save_cache_to_disk key w).1 = clock w
  /\ requests (save_cache_to_disk key w).1 = requests w.
Proof.
  unfold save_cache_to_disk, get_cache_file, get_cache_dir, open_write_dump.
  munfold. destruct (mem w !! key); [|done].
  destruct (io_fails w Mkdir); [done|].
  destruct (io_fails w (OpenWrite key)); [done|].
  destruct (io_fails w (WriteData key)); done.
Qed.

(** It raises only when the cache directory cannot be made. *)
Lemma save_cache_to_disk_ok key w :
  io_fails w Mkdir = false -> (save_cache_to_disk key w).2 = Ok tt.
Proof.
  intros Hdir.
  unfold save_cache_to_disk, get_cache_file, get_cache_dir, open_write_dump.
  munfold. destruct (mem w !! key); [|done]. rewrite Hdir.
  destruct (io_fails w (OpenWrite key)); [done|].
  destruct (io_fails w (WriteData key)); done.
Qed.

Lemma set_mem key value w :
  mem (set key value w).1 = <[key := (JNum (clock w), value)]> (mem w).
Proof.
  unfold set. munfold.
  set (w1 := with_mem (<[key := (JNum (clock w), value)]> (mem w)) w).
  destruct (save_cache_to_disk key w1) as [w2 r] eqn:Hs.
  pose proof (save_cache_to_disk_mem key w1) as (Hm & _).
  rewrite Hs in Hm. simpl in Hm. by destruct r.
Qed.

Lemma set_clock key value w : clock (set key value w).1 = clock w.
Proof.
  unfold set. munfold.
  set (w1 := with_mem (<[key := (JNum (clock w), value)]> (mem w)) w).
  destruct (save_cache_to_disk key w1) as [w2 r] eqn:Hs.
  pose proof (save_cache_to_disk_mem key w1) as (_ & Hc & _).
  rewrite Hs in Hc. simpl in Hc. by destruct r.
Qed.

Lemma set_requests key value w : requests (set key value w).1 = requests w.
Proof.
  unfold set. munfold.
  set (w1 := with_mem (<[key := (JNum (clock w), value)]> (mem w)) w).
  destruct (save_cache_to_disk key w1) as [w2 r] eqn:Hs.
  pose proof (save_cache_to_disk_mem key w1) as (_ & _ & Hc).
  rewrite Hs in Hc. simpl in Hc. by destruct r.
Qed.

Lemma set_ok key value w :
  io_fails w Mkdir = false -> (set key value w).2 = Ok tt.
Proof.
  intros Hdir. unfold set. munfold.
  set (w1 := with_mem (<[key := (JNum (clock w), value)]> (mem w)) w).
  pose proof (save_cache_to_disk_ok key w1 Hdir) as Hok.
  destruct (save_cache_to_disk key w1) as [w2 r]. simpl in Hok. by subst r.
Qed.

(** [get] reads the entry and the clock, and changes nothing. *)
Lemma get_entry key ttl w timestamp value t :
  mem w !! key = Some (timestamp, value) ->
  as_number timestamp = Some t ->
  get key ttl w = (w, Ok (if clock w - t <? ttl then value else JNull)).
Proof.
  intros Hm Ht. unfold get, fresh. munfold. rewrite Hm, Ht.
  by destruct (clock w - t <? ttl).
Qed.

Lemma get_absent key ttl w :
  mem w !! key = None -> get key ttl w = (w, Ok JNull).
Proof. intros Hm. unfold get. munfold. by rewrite Hm. Qed.

Lemma get_state key ttl w : (get key ttl w).1 = w.
Proof.
  unfold get, fresh. munfold. destruct (mem w !! key) as [[ts v]|]; [|done].
  destruct (as_number ts); [|done]. by destruct (_ <? _).
Qed.

End CacheFacts.

(** C4: a [get] that runs in the state [set] leaves, after [d] ticks,
    returns the value while [d < ttl] (at once, [d = 0], in particular) and
    [None] from [d = ttl] on. *)
Theorem cache_set_then_get (key : string) (value : json) (ttl d : Z)
    (w : world) :
  0 < ttl ->
  (Cache.get key ttl (Cache.set key value w).1).2 = Ok value
  /\ (d < ttl ->
      (Cache.get key ttl (advance d (Cache.set key value w).1)).2 = Ok value)
  /\ (ttl <= d ->
      (Cache.get key ttl (advance d (Cache.set key value w).1)).2 = Ok JNull).
Proof.
  intros Httl.
  assert (forall e,
    (Cache.get key ttl (advance e (Cache.set key value w).1)).2
    = Ok (if e <? ttl then value else JNull)) as Hget.
  { intros e.
    rewrite (get_entry key ttl _ (JNum (clock w)) value (clock w)).
    - simpl. rewrite set_clock.
      by replace (clock w + e - clock w) with e by lia.
    - simpl. rewrite set_mem. apply lookup_insert_eq.
    - reflexivity. }
  split; [|split].
  - rewrite (get_entry key ttl _ (JNum (clock w)) value (clock w)).
    + simpl. rewrite set_clock.
      replace (clock w - clock w) with 0 by lia.
      by destruct (Z.ltb_spec 0 ttl); [|lia].
    + rewrite set_mem. apply lookup_insert_eq.
    + reflexivity.
  - intros Hd. rewrite Hget. by destruct (Z.ltb_spec d ttl); [|lia].
  - intros Hd. rewrite Hget. by destruct (Z.ltb_spec d ttl); [lia|].
Qed.

Lemma cache_set_then_get_witness :
  0 < 300
  /\ (Cache.get "item_1" 300
        (Cache.set "item_1" (JNum 7) Scenario.quiet).1).2 = Ok (JNum 7)
  /\ (Cache.get "item_1" 300
        (advance 300 (Cache.set "item_1" (JNum 7) Scenario.quiet).1)).2
     = Ok JNull.
Proof.
  assert (0 < 300) as Httl by lia.
  destruct (cache_set_then_get "item_1" (JNum 7) 300 300 Scenario.quiet Httl)
    as (Hnow & _ & Hlate).
  split; [exact Httl|]. split; [exact Hnow|]. apply Hlate. lia.
Defined.

(** ** Disk failures of the cache *)

Section DiskFaults.
Import Cache Spec.

(** The operations leave the fault oracle alone. *)
Lemma unlink_guarded f w :
  (try_except (unlink f) (fun _ => mret tt) w).2 = Ok tt
  /\ io_fails (try_except (unlink f) (fun _ => mret tt) w).1 = io_fails w
  /\ mem (try_except (unlink f) (fun _ => mret tt) w).1 = mem w.
Proof.
  unfold unlink. munfold. destruct (io_fails w (Unlink f)); [done|].
  destruct (disk w !! f); done.
Qed.

Lemma unlink_all_ok files : forall w,
  (for_each files (fun f => try_except (unlink f) (fun _ => mret tt)) w).2
  = Ok tt
  /\ mem (for_each files
            (fun f => try_except (unlink f) (fun _ => mret tt)) w).1
     = mem w.
Proof.
  induction files as [|f files IH]; intros w; [done|].
  simpl.
  pose proof (unlink_guarded f w) as (Hok & _ & Hm).
  destruct (try_except (unlink f) _ w) as [w1 r] eqn:Hu. simpl in Hok, Hm.
  subst r. rewrite (bind_ok _ _ _ _ _ Hu).
  destruct (IH w1) as (Hok1 & Hm1). by rewrite Hm1.
Qed.

(** [clear]: with the directory at hand, no failing delete escapes, and
    memory is empty afterwards. *)
Lemma clear_ok w :
  io_fails w Mkdir = false ->
  (clear w).2 = Ok tt /\ mem (clear w).1 = ∅.
Proof.
  intros Hdir. unfold clear, get_cache_dir, glob. munfold. simpl.
  rewrite Hdir. apply unlink_all_ok.
Qed.

Lemma clear_mem w : mem (clear w).1 = ∅.
Proof.
  unfold clear, get_cache_dir, glob. munfold. simpl.
  destruct (io_fails w Mkdir); [done|]. apply unlink_all_ok.
Qed.

(** [load_one] never raises; it stores the entry when there is a loadable
    one and skips the file otherwise. *)
Lemma load_one_spec stem w :
  load_one stem w
  = (match loadable w stem with
     | Some entry => with_mem (<[stem := entry]> (mem w)) w
     | None => w
     end, Ok tt).
Proof.
  unfold load_one, open_read, json_load, loadable. munfold.
  destruct (io_fails w (OpenRead stem)); [done|].
  destruct (disk w !! stem) as [[|j]|]; try done.
  by destruct (unpack2 j).
Qed.

Lemma loadable_with_mem m w stem :
  loadable (with_mem m w) stem = loadable w stem.
Proof. reflexivity. Qed.

Lemma load_all stems : forall w,
  (for_each stems load_one w).2 = Ok tt
  /\ forall stem,
       mem (for_each stems load_one w).1 !! stem
       = match loadable w stem with
         | Some entry => if decide (stem ∈ stems) then Some entry
                         else mem w !! stem
         | None => mem w !! stem
         end.
Proof.
  induction stems as [|s stems IH]; intros w.
  { split; [done|]. intros stem. simpl. by destruct (loadable w stem). }
  simpl. rewrite (bind_ok _ _ _ _ _ (load_one_spec s w)).
  set (w1 := match loadable w s with Some _ => _ | None => w end).
  destruct (IH w1) as (Hok & Hm). split; [done|].
  intros stem. rewrite Hm.
  assert (loadable w1 stem = loadable w stem) as ->.
  { subst w1. by destruct (loadable w s). }
  destruct (loadable w stem) as [entry|] eqn:Hl.
  - destruct (decide (stem ∈ stems)) as [Hin|Hnin].
    + rewrite decide_True; [done|]. rewrite elem_of_cons. by right.
    + destruct (decide (stem = s)) as [->|Hne].
      * rewrite decide_True by (rewrite elem_of_cons; by left).
        subst w1. rewrite Hl. simpl. apply lookup_insert_eq.
      * rewrite decide_False.
        2:{ rewrite elem_of_cons. tauto. }
        subst w1. destruct (loadable w s); [|done].
        simpl. by rewrite lookup_insert_ne.
  - destruct (decide (stem = s)) as [->|Hne].
    + subst w1. by rewrite Hl.
    + subst w1. destruct (loadable w s); [|done].
      simpl. by rewrite lookup_insert_ne.
Qed.

(** [load_cache_from_disk]: with the directory at hand it returns, having
    taken every loadable file and skipped every other one. *)
Lemma load_cache_from_disk_ok w :
  io_fails w Mkdir = false ->
  (load_cache_from_disk w).2 = Ok tt
  /\ forall stem,
       mem (load_cache_from_disk w).1 !! stem
       = match loadable w stem with
         | Some entry => Some entry
         | None => mem w !! stem
         end.
Proof.
  intros Hdir. unfold load_cache_from_disk, get_cache_dir, glob. munfold.
  simpl. rewrite Hdir.
  destruct (load_all ((map_to_list (disk w)).*1) w) as (Hok & Hm).
  split; [done|]. intros stem. rewrite Hm.
  destruct (loadable w stem) as [entry|] eqn:Hl; [|done].
  rewrite decide_True; [done|].
  unfold loadable in Hl. destruct (io_fails w (OpenRead stem)); [done|].
  destruct (disk w !! stem) as [c|] eqn:Hd; [|done].
  apply list_elem_of_fmap. exists (stem, c). split; [done|].
  by apply elem_of_map_to_list.
Qed.

End DiskFaults.

Section Expiry.
Import Cache Spec.

Lemma expired_keys_ok now ttl items :
  (forall key timestamp value,
     (key, (timestamp, value)) ∈ items -> is_Some (as_number timestamp)) ->
  exists keys, expired_keys now ttl items = Ok keys.
Proof.
  induction items as [|[key [timestamp value]] items IH]; intros Hnum.
  { by eexists. }
  simpl. destruct (Hnum key timestamp value) as [t Ht].
  { rewrite elem_of_cons. by left. }
  unfold fresh. rewrite Ht.
  destruct IH as [keys ->].
  { intros k ts v Hin. apply (Hnum k ts v). rewrite elem_of_cons. by right. }
  by eexists.
Qed.

Lemma expire_all_ok keys : forall w,
  io_fails w Mkdir = false ->
  (for_each keys (fun key =>
     modify (fun w => with_mem (delete key (mem w)) w) ;;
     cache_file ← get_cache_file key;
     try_except (unlink cache_file) (fun _ => mret tt)) w).2 = Ok tt.
Proof.
  induction keys as [|key keys IH]; intros w Hdir; [done|].
  simpl.
  set (body := modify _ ;; _).
  assert (exists w1, body w = (w1, Ok tt) /\ io_fails w1 Mkdir = false)
    as (w1 & Hbody & Hdir1).
  { subst body. unfold get_cache_file, get_cache_dir. munfold. simpl.
    rewrite Hdir.
    set (w0 := with_mem (delete key (mem w)) w).
    pose proof (unlink_guarded key w0) as (Hok & Hio & _).
    unfold try_except, mret, M_ret in Hok, Hio.
    destruct (unlink key w0) as [w1 [[]|e]]; simpl in *.
    - exists w1. split; [done|]. by rewrite Hio.
    - exists w1. split; [done|]. by rewrite Hio. }
  rewrite (bind_ok _ _ _ _ _ Hbody). by apply IH.
Qed.

(** [clear_expired]: with the directory at hand and numeric timestamps in
    memory, no failing delete escapes. *)
Lemma clear_expired_ok ttl w :
  io_fails w Mkdir = false -> numeric_timestamps (mem w) ->
  (clear_expired ttl w).2 = Ok tt.
Proof.
  intros Hdir Hnum. unfold clear_expired.
  destruct (expired_keys_ok (clock w) ttl (map_to_list (mem w)))
    as [keys Hkeys].
  { intros key ts v Hin. apply elem_of_map_to_list in Hin.
    by apply (Hnum key ts v). }
  munfold. rewrite Hkeys. by apply expire_all_ok.
Qed.

End Expiry.

(** Every timestamp that [set] writes is a number, and [set] keeps the ones
    there numeric. *)
Lemma set_numeric_timestamps key value w :
  Spec.numeric_timestamps (mem w) ->
  Spec.numeric_timestamps (mem (Cache.set key value w).1).
Proof.
  intros Hnum k ts v. rewrite set_mem.
  destruct (decide (key = k)) as [->|Hne].
  - rewrite lookup_insert_eq. intros [= <- <-]. by eexists.
  - rewrite lookup_insert_ne by done. apply Hnum.
Qed.

(** What holds of C5 on the code: with the cache directory at hand, no
    failing open, read, write or delete makes [set], [clear],
    [clear_expired] (over numeric timestamps) or the start-up load raise;
    [set] stores its entry in memory whatever the disk does; and the load
    skips every file that does not open, parse and unpack into two
    values. *)
Lemma disk_faults_are_absorbed (w : world) :
  io_fails w Mkdir = false ->
  (forall key value,
     (Cache.set key value w).2 = Ok tt
     /\ mem (Cache.set key value w).1 !! key = Some (JNum (clock w), value))
  /\ ((Cache.clear w).2 = Ok tt /\ mem (Cache.clear w).1 = ∅)
  /\ (forall ttl, Spec.numeric_timestamps (mem w) ->
        (Cache.clear_expired ttl w).2 = Ok tt)
  /\ ((Cache.load_cache_from_disk w).2 = Ok tt
      /\ forall stem, Spec.loadable w stem = None ->
           mem (Cache.load_cache_from_disk w).1 !! stem = mem w !! stem).
Proof.
  intros Hdir. split; [|split; [|split]].
  - intros key value. split; [by apply set_ok|].
    rewrite set_mem. apply lookup_insert_eq.
  - by apply clear_ok.
  - intros ttl Hnum. by apply clear_expired_ok.
  - destruct (load_cache_from_disk_ok w Hdir) as (Hok & Hm).
    split; [done|]. intros stem Hl. by rewrite Hm, Hl.
Qed.

(** The directory itself is made outside every [try]: when that fails, the
    error leaves [set] (after the entry went to memory) and the load. *)
Lemma mkdir_failure_escapes (w : world) key value :
  io_fails w Mkdir = true ->
  (Cache.set key value w).2 = Raise (OSError Mkdir)
  /\ (Cache.load_cache_from_disk w).2 = Raise (OSError Mkdir).
Proof.
  intros Hdir. split.
  - unfold Cache.set, Cache.save_cache_to_disk, Cache.get_cache_file,
      Cache.get_cache_dir. munfold. simpl.
    rewrite lookup_insert_eq. simpl. by rewrite Hdir.
  - unfold Cache.load_cache_from_disk, Cache.get_cache_dir. munfold.
    by rewrite Hdir.
Qed.

(** C5 at the failing input: the cache directory holds [item_1.json] with
    content ["x", 1].  The load does not skip it: the entry ("x", 1) is in
    memory afterwards; [get] on that key then raises [TypeError] instead of
    reporting a miss, and so do [get_item 1] (before any request is sent)
    and [clear_expired]. *)
Theorem odd_cache_file_is_loaded_and_fatal :
  let w := (Cache.load_cache_from_disk Scenario.odd_file).1 in
  (Cache.load_cache_from_disk Scenario.odd_file).2 = Ok tt
  /\ mem w !! "item_1" = Some (JStr "x", JNum 1)
  /\ (Cache.get "item_1" 300 w).2 = Raise TypeError
  /\ (Client.get_item 1 w).2 = Raise TypeError
  /\ requests (Client.get_item 1 w).1 = []
  /\ (Cache.clear_expired 300 w).2 = Raise TypeError.
Proof. vm_compute. repeat split. Qed.

(** ** The remote client *)

Section ClientFacts.
Import Client Spec.

Lemma perform_unfold r : perform r = cached_fetch (key_of r) (url_of r).
Proof. by destruct r. Qed.

Lemma requests_get_json_requests url w :
  requests (requests_get_json url w).1 = requests w ++ [url]
  /\ mem (requests_get_json url w).1 = mem w
  /\ clock (requests_get_json url w).1 = clock w
  /\ io_fails (requests_get_json url w).1 = io_fails w.
Proof.
  unfold requests_get_json. munfold. simpl.
  destruct (server w (length (requests w)) url) as [|status [j|]];
    [done|..]; by destruct (_ && _).
Qed.

Lemma requests_get_json_success url w status body :
  server w (length (requests w)) url = Reply status (Some body) ->
  ~ (400 <= status < 600) ->
  (requests_get_json url w).2 = Ok body.
Proof.
  intros Hs Hst. unfold requests_get_json. munfold. simpl. rewrite Hs.
  destruct (Z.leb_spec 400 status), (Z.ltb_spec status 600); simpl;
    try done; lia.
Qed.

(** A usable entry: the value comes back, the state is untouched. *)
Lemma cached_fetch_hit key url w value :
  usable_entry w key value -> cached_fetch key url w = (w, Ok value).
Proof.
  intros (ts & t & Hm & Ht & Hfresh & Htruthy).
  unfold cached_fetch, cache_ttl.
  rewrite (bind_ok _ _ w w (cache_timeout_minutes w * 60)) by done.
  rewrite (bind_ok _ _ w w value).
  - by rewrite Htruthy.
  - rewrite (get_entry _ _ _ _ _ _ Hm Ht).
    by destruct (Z.ltb_spec (clock w - t) (cache_timeout_minutes w * 60));
      [|lia].
Qed.

(** With no usable entry, [get] reports something falsy. *)
Lemma no_usable_entry_get key w :
  no_usable_entry w key ->
  exists c, Cache.get key (cache_timeout_minutes w * 60) w = (w, Ok c)
            /\ truthy c = false.
Proof.
  intros [Hnone|(ts & t & v & Hm & Ht & Hwhy)].
  - exists JNull. by rewrite get_absent.
  - rewrite (get_entry _ _ _ _ _ _ Hm Ht).
    destruct (Z.ltb_spec (clock w - t) (cache_timeout_minutes w * 60)).
    + exists v. split; [done|]. destruct Hwhy; [lia|done].
    + by exists JNull.
Qed.

(** With no usable entry: one request, and on success the body is stored
    in memory under the key and returned. *)
Lemma cached_fetch_miss key url w :
  no_usable_entry w key ->
  requests (cached_fetch key url w).1 = requests w ++ [url]
  /\ forall status body,
       server w (length (requests w)) url = Reply status (Some body) ->
       ~ (400 <= status < 600) ->
       mem (cached_fetch key url w).1 !! key = Some (JNum (clock w), body)
       /\ (io_fails w Mkdir = false ->
           (cached_fetch key url w).2 = Ok body).
Proof.
  intros Hno. destruct (no_usable_entry_get key w Hno) as (c & Hget & Hc).
  unfold cached_fetch, cache_ttl.
  rewrite (bind_ok _ _ w w (cache_timeout_minutes w * 60)) by done.
  rewrite (bind_ok _ _ _ _ _ Hget). rewrite Hc.
  pose proof (requests_get_json_requests url w) as (Hreq & Hmem & Hclk & Hio).
  destruct (requests_get_json url w) as [w1 [j|e]] eqn:Hhttp; simpl in *.
  - rewrite (bind_ok _ _ _ _ _ Hhttp).
    pose proof (set_requests key j w1) as Hreq2.
    pose proof (set_mem key j w1) as Hmem2.
    pose proof (set_ok key j w1) as Hok2.
    destruct (Cache.set key j w1) as [w2 [[]|e]] eqn:Hset; simpl in *.
    + rewrite (bind_ok _ _ _ _ _ Hset). simpl. split; [congruence|].
      intros status body Hs Hst.
      pose proof (requests_get_json_success url w status body Hs Hst) as Hb.
      rewrite Hhttp in Hb. simpl in Hb. injection Hb as ->.
      split; [|done]. rewrite Hmem2, Hclk. apply lookup_insert_eq.
    + rewrite (bind_raise _ _ _ _ _ Hset). simpl. split; [congruence|].
      intros status body Hs Hst.
      pose proof (requests_get_json_success url w status body Hs Hst) as Hb.
      rewrite Hhttp in Hb. simpl in Hb. injection Hb as ->.
      split; [rewrite Hmem2, Hclk; apply lookup_insert_eq|].
      intros Hdir. rewrite Hio in Hok2. by specialize (Hok2 Hdir).
  - rewrite (bind_raise _ _ _ _ _ Hhttp). simpl. split; [done|].
    intros status body Hs Hst.
    pose proof (requests_get_json_success url w status body Hs Hst) as Hb.
    rewrite Hhttp in Hb. done.
Qed.

End ClientFacts.

(** C3, as stated, fails: the cache holds an unexpired entry for the top
    stories whose value is the empty list, and [get_story_ids] still sends
    a request (and returns the server's list, not the cached one). *)
Lemma unexpired_empty_list_is_refetched :
  let w := Scenario.cached_empty_list in
  mem w !! Client.key_of (Client.Stories "top") = Some (JNum 1000, JList [])
  /\ clock w - 1000 < cache_timeout_minutes w * 60
  /\ requests w = []
  /\ requests (Client.get_story_ids "top" w).1 = [Scenario.top_url]
  /\ (Client.get_story_ids "top" w).2
     = Ok (JList [JNum 1; JNum 2; JNum 3]).
Proof. vm_compute. repeat split. Qed.

(** C3, amended: for each of the three operations, when the cache holds an
    unexpired entry for the key whose value is truthy, the operation
    returns that value and leaves the state as it is (no request); when it
    holds none, an expired one, or one whose value is falsy (null, an empty
    list or object, 0, the empty string, false), the operation sends
    exactly one GET for the operation's URL, and on a successful reply
    stores the parsed body in memory under the key and, the cache
    directory being at hand, returns it. *)
Theorem client_is_cache_first (r : Client.request) (w : world) :
  (forall value,
     Spec.usable_entry w (Client.key_of r) value ->
     Client.perform r w = (w, Ok value))
  /\ (Spec.no_usable_entry w (Client.key_of r) ->
      requests (Client.perform r w).1 = requests w ++ [Client.url_of r]
      /\ forall status body,
           server w (length (requests w)) (Client.url_of r)
             = Reply status (Some body) ->
           ~ (400 <= status < 600) ->
           mem (Client.perform r w).1 !! Client.key_of r
             = Some (JNum (clock w), body)
           /\ (io_fails w Mkdir = false ->
               (Client.perform r w).2 = Ok body)).
Proof.
  rewrite perform_unfold. split.
  - intros value. apply cached_fetch_hit.
  - apply cached_fetch_miss.
Qed.

Lemma client_is_cache_first_witness :
  let r := Client.Stories "top" in
  Spec.usable_entry Scenario.cached_two_ids (Client.key_of r)
    (JList [JNum 7; JNum 8])
  /\ Client.perform r Scenario.cached_two_ids
     = (Scenario.cached_two_ids, Ok (JList [JNum 7; JNum 8]))
  /\ Spec.no_usable_entry Scenario.quiet (Client.key_of r)
  /\ requests (Client.perform r Scenario.quiet).1 = [Scenario.top_url].
Proof.
  intros r.
  assert (Spec.usable_entry Scenario.cached_two_ids (Client.key_of r)
            (JList [JNum 7; JNum 8])) as Hhit.
  { exists (JNum 1000), 1000.
    split; [reflexivity|]. split; [reflexivity|].
    split; [simpl; lia|reflexivity]. }
  assert (Spec.no_usable_entry Scenario.quiet (Client.key_of r)) as Hmiss.
  { left. reflexivity. }
  split; [exact Hhit|].
  split; [exact (proj1 (client_is_cache_first r _) _ Hhit)|].
  split; [exact Hmiss|].
  exact (proj1 (proj2 (client_is_cache_first r _) Hmiss)).
Defined.

(** ** The page loop *)

Section PageLoop.
Import Browse.

Variable get_item : json -> M json.

Lemma load_story_ok story_id stories w :
  exists w' out, load_story get_item story_id stories w = (w', Ok out).
Proof.
  unfold load_story. munfold.
  destruct (get_item story_id w) as [w1 [story|e]]; [|by eexists _, _].
  destruct (truthy story); [|by eexists _, _].
  destruct (dict_get story "type" JNull) as [t|e]; [|by eexists _, _].
  destruct (eq_str "story" t); by eexists _, _.
Qed.

(** The loop runs to its end whatever the fetches do. *)
Lemma load_page_ok page : forall stories w,
  exists w' out, load_page get_item page stories w = (w', Ok out).
Proof.
  induction page as [|story_id page IH]; intros stories w.
  { by eexists _, _. }
  simpl. destruct (load_story_ok story_id stories w) as (w1 & s1 & H1).
  rewrite (bind_ok _ _ _ _ _ H1). apply IH.
Qed.

(** The loop over a page in two parts is the loop over the first part
    followed by the loop over the second. *)
Lemma load_page_app before after : forall stories w w1 s1,
  load_page get_item before stories w = (w1, Ok s1) ->
  load_page get_item (before ++ after) stories w
  = load_page get_item after s1 w1.
Proof.
  induction before as [|story_id before IH]; intros stories w w1 s1.
  { simpl. unfold mret, M_ret. by intros [= <- <-]. }
  simpl. destruct (load_story_ok story_id stories w) as (w2 & s2 & H2).
  rewrite !(bind_ok _ _ _ _ _ H2). apply IH.
Qed.

(** An item whose fetch raises costs one line on the console and nothing
    else. *)
Lemma load_story_raise story_id stories w w1 e :
  get_item story_id w = (w1, Raise e) ->
  load_story get_item story_id stories w
  = (with_console (console w1 ++ [ErrorFetchingStory story_id e]) w1,
     Ok stories).
Proof. intros H. unfold load_story. munfold. by rewrite H. Qed.

(** An item that is fetched and is a story is appended. *)
Lemma load_story_story story_id stories w w1 kvs :
  get_item story_id w = (w1, Ok (JObj kvs)) ->
  assoc "type" kvs = Some (JStr "story") ->
  load_story get_item story_id stories w = (w1, Ok (stories ++ [JObj kvs])).
Proof.
  intros H Ht.
  assert (truthy (JObj kvs) = true) as Htruthy by (by destruct kvs).
  unfold load_story. munfold. rewrite H. cbv beta iota.
  rewrite Htruthy. unfold dict_get. by rewrite Ht.
Qed.

(** Whatever the item is, the stories gathered so far stay, in order, at
    the head of the list. *)
Lemma load_story_extends story_id stories w :
  exists w' rows,
    load_story get_item story_id stories w = (w', Ok (stories ++ rows)).
Proof.
  unfold load_story. munfold.
  destruct (get_item story_id w) as [w1 [story|e]];
    [|eexists _, []; by rewrite app_nil_r].
  destruct (truthy story); [|eexists _, []; by rewrite app_nil_r].
  destruct (dict_get story "type" JNull) as [t|e];
    [|eexists _, []; by rewrite app_nil_r].
  destruct (eq_str "story" t); [by eexists _, [story]|].
  eexists _, []. by rewrite app_nil_r.
Qed.

Lemma load_page_extends page : forall stories w,
  exists w' rows,
    load_page get_item page stories w = (w', Ok (stories ++ rows)).
Proof.
  induction page as [|story_id page IH]; intros stories w.
  { eexists _, []. by rewrite app_nil_r. }
  simpl. destruct (load_story_extends story_id stories w) as (w1 & r1 & H1).
  rewrite (bind_ok _ _ _ _ _ H1).
  destruct (IH (stories ++ r1) w1) as (w2 & r2 & H2).
  exists w2, (r1 ++ r2). by rewrite app_assoc.
Qed.

End PageLoop.

(** C6: the page loop over no id returns the stories it was given; over
    any ids it runs to its end, whatever the fetches do, and keeps the
    stories gathered so far at the head of its list.  Where the loop has
    come to an id after the ids before it: if the fetch of that id raises,
    the item costs one line on the console and no story, and the ids after
    it are then gathered from that state on; if the fetch returns a story,
    the story is appended, and it is in the list the whole page returns,
    whatever the items before and after it do. *)
Theorem failing_item_does_not_abort_page
    (get_item : json -> M json) (before after : list json) (story_id : json)
    (stories : list json) (w : world) :
  Browse.load_page get_item [] stories w = (w, Ok stories)
  /\ exists w1 rows1,
       Browse.load_page get_item before stories w
       = (w1, Ok (stories ++ rows1))
       /\ (forall w2 e,
             get_item story_id w1 = (w2, Raise e) ->
             let reported :=
               with_console (console w2 ++ [ErrorFetchingStory story_id e])
                 w2 in
             Browse.load_page get_item (before ++ [story_id]) stories w
             = (reported, Ok (stories ++ rows1))
             /\ exists w' rows2,
                  Browse.load_page get_item (before ++ story_id :: after)
                    stories w
                  = (w', Ok (stories ++ rows1 ++ rows2))
                  /\ Browse.load_page get_item after (stories ++ rows1)
                       reported
                     = (w', Ok (stories ++ rows1 ++ rows2)))
       /\ (forall w2 kvs,
             get_item story_id w1 = (w2, Ok (JObj kvs)) ->
             assoc "type" kvs = Some (JStr "story") ->
             Browse.load_page get_item (before ++ [story_id]) stories w
             = (w2, Ok (stories ++ rows1 ++ [JObj kvs]))
             /\ exists w' rows2,
                  Browse.load_page get_item (before ++ story_id :: after)
                    stories w
                  = (w', Ok (stories ++ rows1 ++ JObj kvs :: rows2))).
Proof.
  split; [reflexivity|].
  destruct (load_page_extends get_item before stories w)
    as (w1 & rows1 & Hbefore).
  exists w1, rows1. split; [exact Hbefore|]. split.
  - intros w2 e Hbad reported.
    pose proof (load_story_raise get_item story_id (stories ++ rows1)
                  _ _ _ Hbad) as Hstep.
    fold reported in Hstep. split.
    + rewrite (load_page_app _ _ _ _ _ _ _ Hbefore). simpl.
      by rewrite (bind_ok _ _ _ _ _ Hstep).
    + destruct (load_page_extends get_item after (stories ++ rows1) reported)
        as (w' & rows2 & Hafter).
      exists w', rows2. rewrite <- app_assoc in Hafter.
      split; [|exact Hafter].
      rewrite (load_page_app _ _ _ _ _ _ _ Hbefore). simpl.
      by rewrite (bind_ok _ _ _ _ _ Hstep).
  - intros w2 kvs Hgood Htype.
    pose proof (load_story_story get_item story_id (stories ++ rows1)
                  _ _ _ Hgood Htype) as Hstep.
    rewrite <- app_assoc in Hstep. split.
    + rewrite (load_page_app _ _ _ _ _ _ _ Hbefore). simpl.
      by rewrite (bind_ok _ _ _ _ _ Hstep).
    + destruct (load_page_extends get_item after
                  (stories ++ rows1 ++ [JObj kvs]) w2)
        as (w' & rows2 & Hafter).
      exists w', rows2.
      rewrite (load_page_app _ _ _ _ _ _ _ Hbefore). simpl.
      rewrite (bind_ok _ _ _ _ _ Hstep), Hafter.
      by rewrite <- !app_assoc.
Qed.

(** The scenario of the spec: a page of ten ids, the fetch of the fourth
    fails; nine stories are gathered, in order, and one error line is
    printed. *)
Example page_of_ten_with_one_failure :
  let run :=
    Browse.load_page Scenario.by_id (Scenario.ids_from 1 10) [] Scenario.flaky
  in
  run.2 = Ok (map Scenario.story [1; 2; 3; 5; 6; 7; 8; 9; 10])
  /\ console run.1 = [ErrorFetchingStory (JNum 4) (HTTPError 500)]
  /\ length (requests run.1) = 10%nat.
Proof. vm_compute. repeat split. Qed.

Lemma failing_item_does_not_abort_page_witness :
  exists w1 w',
    Browse.load_page Scenario.by_id (Scenario.ids_from 1 3) [] Scenario.flaky
    = (w1, Ok (map Scenario.story [1; 2; 3]))
    /\ (Scenario.by_id (JNum 4) w1).2 = Raise (HTTPError 500)
    /\ Browse.load_page Scenario.by_id (Scenario.ids_from 1 10) []
         Scenario.flaky
       = (w', Ok (map Scenario.story [1; 2; 3; 5; 6; 7; 8; 9; 10]))
    /\ console w' = [ErrorFetchingStory (JNum 4) (HTTPError 500)].
Proof.
  destruct (failing_item_does_not_abort_page Scenario.by_id
              (Scenario.ids_from 1 3) (Scenario.ids_from 5 6) (JNum 4) []
              Scenario.flaky) as (_ & w1 & rows1 & Hbefore & Hbad & _).
  assert (w1 = (Browse.load_page Scenario.by_id (Scenario.ids_from 1 3) []
                  Scenario.flaky).1) as Hw1 by (by rewrite Hbefore).
  assert (rows1 = map Scenario.story [1; 2; 3]) as ->.
  { assert (Ok ([] ++ rows1)
            = (Browse.load_page Scenario.by_id (Scenario.ids_from 1 3) []
                 Scenario.flaky).2) as Hrows by (by rewrite Hbefore).
    vm_compute in Hrows. by injection Hrows. }
  assert (Scenario.by_id (JNum 4) w1
          = ((Scenario.by_id (JNum 4) w1).1, Raise (HTTPError 500))) as Hfail.
  { rewrite Hw1. vm_compute. reflexivity. }
  destruct (Hbad _ _ Hfail) as (_ & w' & rows2 & Hall & _).
  exists w1, w'. split; [exact Hbefore|].
  split; [by rewrite Hfail|].
  assert (Browse.load_page Scenario.by_id (Scenario.ids_from 1 10) []
            Scenario.flaky = (w', Ok ([] ++ map Scenario.story [1; 2; 3]
                                          ++ rows2))) as Hrun by exact Hall.
  assert (w' = (Browse.load_page Scenario.by_id (Scenario.ids_from 1 10) []
                  Scenario.flaky).1) as Hw' by (by rewrite Hrun).
  split.
  - rewrite Hrun. f_equal.
    assert (Ok ([] ++ map Scenario.story [1; 2; 3] ++ rows2)
            = (Browse.load_page Scenario.by_id (Scenario.ids_from 1 10) []
                 Scenario.flaky).2) as Hrows by (by rewrite Hrun).
    rewrite Hrows. vm_compute. reflexivity.
  - rewrite Hw'. vm_compute. reflexivity.
Defined.

(** ** Deleted and dead comments *)

Section Pruning.
Import Comments Spec.

Lemma marked_truthy cmt : marked cmt -> truthy cmt = true.
Proof.
  intros (kvs & -> & H). destruct kvs as [|kv kvs]; [|done].
  simpl in H. destruct H as [[? H]|[? H]]; discriminate.
Qed.

Lemma marked_kept cmt : marked cmt -> kept cmt = Ok false.
Proof.
  intros Hm. unfold kept. rewrite (marked_truthy _ Hm).
  destruct Hm as (kvs & -> & H). simpl.
  destruct (assoc "deleted" kvs) as [d|] eqn:Hd; [done|].
  destruct H as [[? H]|[? H]]; [discriminate|]. by rewrite H.
Qed.

Lemma marked_pruned cmt : marked cmt -> pruned cmt = Ok true.
Proof.
  intros Hm. unfold pruned. rewrite (marked_truthy _ Hm).
  destruct Hm as (kvs & -> & H). simpl.
  destruct (assoc "deleted" kvs) as [d|] eqn:Hd; [done|].
  destruct H as [[? H]|[? H]]; [discriminate|]. by rewrite H.
Qed.

Variable get_item : json -> M json.
Variable header_line : json -> nat -> result string.
Variable body_lines : json -> nat -> result (list string).

Lemma prefetch_one_spec cid parent_comments w :
  exists w' out,
    prefetch_one get_item cid parent_comments w = (w', Ok out)
    /\ (out = parent_comments
        \/ exists comment, out = parent_comments ++ [comment]
             /\ kept comment = Ok true).
Proof.
  unfold prefetch_one. munfold.
  destruct (get_item cid w) as [w1 [comment|e]]; [|eexists _, _; eauto].
  destruct (kept comment) as [[]|e] eqn:Hk; eexists _, _; eauto.
Qed.

(** The parent list of the List view holds kept comments only. *)
Lemma prefetch_spec parent_ids : forall parent_comments w,
  exists w' out,
    prefetch get_item parent_ids parent_comments w = (w', Ok out)
    /\ forall comment, comment ∈ out ->
         comment ∈ parent_comments \/ kept comment = Ok true.
Proof.
  induction parent_ids as [|cid ids IH]; intros parent_comments w.
  { eexists _, _. split; [reflexivity|]. auto. }
  simpl.
  destruct (prefetch_one_spec cid parent_comments w)
    as (w1 & out1 & H1 & Hout1).
  rewrite (bind_ok _ _ _ _ _ H1).
  destruct (IH out1 w1) as (w2 & out2 & H2 & Hout2).
  exists w2, out2. split; [done|].
  intros comment Hin. destruct (Hout2 comment Hin) as [Hin1|Hk]; [|by right].
  destruct Hout1 as [->|(c & -> & Hc)]; [by left|].
  apply elem_of_app in Hin1 as [Hin1|Hin1]; [by left|].
  apply list_elem_of_singleton in Hin1 as ->. by right.
Qed.

(** [collect] on a marked comment appends nothing and fetches nothing. *)
Lemma collect_marked fuel cmt depth w :
  marked cmt ->
  collect get_item header_line body_lines (S fuel) cmt depth w = (w, Ok tt).
Proof.
  intros Hm. simpl. munfold. by rewrite (marked_pruned _ Hm).
Qed.

Lemma collect_falsy fuel cmt depth w :
  truthy cmt = false ->
  collect get_item header_line body_lines (S fuel) cmt depth w = (w, Ok tt).
Proof.
  intros Hf. simpl. munfold. unfold pruned. by rewrite Hf.
Qed.

Lemma append_lines body : forall w,
  for_each body lines_append w = (with_lines (lines w ++ body) w, Ok tt).
Proof.
  induction body as [|l body IH]; intros w.
  { simpl. unfold mret, M_ret. rewrite app_nil_r. by destruct w. }
  simpl. munfold. rewrite IH. simpl.
  by rewrite <- app_assoc.
Qed.

(** [collect] on a comment that is expanded: the header, the body and an
    empty line are appended, and then the kids are gone through. *)
Lemma collect_expands fuel cmt depth w header body kids :
  pruned cmt = Ok false ->
  header_line cmt depth = Ok header ->
  body_lines cmt depth = Ok body ->
  kids_of cmt = Ok kids ->
  collect get_item header_line body_lines (S fuel) cmt depth w
  = for_each kids (collect_kid get_item header_line body_lines fuel depth)
      (with_lines (lines w ++ header :: body ++ [EmptyString]) w).
Proof.
  intros Hpruned Hheader Hbody Hkids. cbn [collect].
  rewrite Hpruned, Hheader, Hbody, Hkids. munfold.
  rewrite append_lines. simpl.
  rewrite <- !app_assoc. reflexivity.
Qed.

Lemma for_each_app {A} (body : A -> M unit) before after w wb :
  for_each before body w = (wb, Ok tt) ->
  for_each (before ++ after) body w = for_each after body wb.
Proof.
  revert w. induction before as [|x before IH]; intros w.
  { simpl. unfold mret, M_ret. by intros [= <-]. }
  simpl. munfold. destruct (body x w) as [w1 [[]|e]]; [apply IH|done].
Qed.

(** A kid whose fetch returns a marked comment costs its own fetch and
    nothing else, however many frames are left. *)
Lemma collect_kid_marked fuel depth kid w w1 child :
  get_item kid w = (w1, Ok child) ->
  marked child ->
  collect_kid get_item header_line body_lines fuel depth kid w = (w1, Ok tt).
Proof.
  intros Hget Hm. unfold collect_kid.
  destruct fuel as [|fuel].
  - rewrite (try_raise _ _ w w1 RecursionError); [done|].
    by rewrite (bind_ok _ _ _ _ _ Hget).
  - apply try_ok. rewrite (bind_ok _ _ _ _ _ Hget). by apply collect_marked.
Qed.

End Pruning.

(** C9: the parent list of the List view holds no comment marked deleted
    or dead; [collect] on a marked comment returns at once, leaving the
    line buffer and everything else as it was, whatever [get_item] is (so
    it fetches no kid of it); and when [collect] expands a comment and its
    loop over the kids has come to a kid whose fetch returns a marked
    comment, what [collect] does from there is the loop over the kids
    after it, from the very state the fetch of that kid left: nothing was
    appended for the marked comment and nothing fetched below it. *)
Theorem deleted_and_dead_comments_are_pruned
    (get_item : json -> M json)
    (header_line : json -> nat -> result string)
    (body_lines : json -> nat -> result (list string)) :
  (forall parent_ids w,
     exists w' out,
       Comments.prefetch get_item parent_ids [] w = (w', Ok out)
       /\ forall comment, comment ∈ out -> ~ Spec.marked comment)
  /\ (forall fuel cmt depth w,
        Spec.marked cmt ->
        (Comments.collect get_item header_line body_lines fuel cmt depth w).1
          = w
        /\ Comments.collect get_item header_line body_lines (S fuel) cmt
             depth w = (w, Ok tt))
  /\ (forall fuel cmt depth w header body before kid after wb w1 child,
        Comments.pruned cmt = Ok false ->
        header_line cmt depth = Ok header ->
        body_lines cmt depth = Ok body ->
        Comments.kids_of cmt = Ok (before ++ kid :: after) ->
        for_each before
          (Comments.collect_kid get_item header_line body_lines fuel depth)
          (with_lines (lines w ++ header :: body ++ [EmptyString]) w)
        = (wb, Ok tt) ->
        get_item kid wb = (w1, Ok child) ->
        Spec.marked child ->
        Comments.collect get_item header_line body_lines (S fuel) cmt depth w
        = for_each after
            (Comments.collect_kid get_item header_line body_lines fuel depth)
            w1).
Proof.
  split; [|split].
  - intros parent_ids w.
    destruct (prefetch_spec get_item parent_ids [] w) as (w' & out & H & Hk).
    exists w', out. split; [done|].
    intros comment Hin Hm. destruct (Hk comment Hin) as [Hnil|Hkept].
    + by apply elem_of_nil in Hnil.
    + by rewrite (marked_kept _ Hm) in Hkept.
  - intros fuel cmt depth w Hm. split; [|by apply collect_marked].
    destruct fuel as [|fuel]; [done|]. by rewrite collect_marked.
  - intros fuel cmt depth w header body before kid after wb w1 child
      Hpruned Hheader Hbody Hkids Hbefore Hget Hm.
    rewrite (collect_expands get_item header_line body_lines fuel cmt depth w
               header body _ Hpruned Hheader Hbody Hkids).
    rewrite (for_each_app _ _ _ _ _ Hbefore).
    change (for_each (kid :: after) ?f wb)
      with ((f kid ;; for_each after f) wb).
    rewrite (bind_ok _ _ wb w1 tt); [done|].
    by apply collect_kid_marked with (child := child).
Qed.

Lemma deleted_and_dead_comments_are_pruned_witness :
  let parent := Scenario.comment 100 "ann" "first" [101; 102] in
  let w0 :=
    with_lines ["ann"; "first"; EmptyString] Scenario.threaded in
  Spec.marked Scenario.deleted_comment
  /\ Scenario.by_id (JNum 101) w0
     = ((Scenario.by_id (JNum 101) w0).1, Ok Scenario.deleted_comment)
  /\ Comments.collect Scenario.by_id Scenario.plain_header
       Scenario.plain_body 50 parent 0 Scenario.threaded
     = for_each [JNum 102]
         (Comments.collect_kid Scenario.by_id Scenario.plain_header
            Scenario.plain_body 49 0)
         (Scenario.by_id (JNum 101) w0).1.
Proof.
  intros parent w0.
  assert (Spec.marked Scenario.deleted_comment) as Hm.
  { eexists. split; [reflexivity|]. left. by eexists. }
  assert (Scenario.by_id (JNum 101) w0
          = ((Scenario.by_id (JNum 101) w0).1, Ok Scenario.deleted_comment))
    as Hget by (vm_compute; reflexivity).
  split; [exact Hm|]. split; [exact Hget|].
  exact (proj2 (proj2 (deleted_and_dead_comments_are_pruned
                  Scenario.by_id Scenario.plain_header Scenario.plain_body))
           49%nat parent 0%nat Scenario.threaded "ann" ["first"]
           [] (JNum 101) [JNum 102] w0 _ Scenario.deleted_comment
           eq_refl eq_refl eq_refl eq_refl eq_refl Hget Hm).
Defined.

(** The thread of the scenario, expanded from comment 100: the deleted
    comment 101 is fetched, gives no line, and its kid 103 is never asked
    for; and the List view over the ids 101 and 102 keeps 102 only. *)
Example expanded_thread_skips_deleted :
  let run :=
    Comments.collect Scenario.by_id Scenario.plain_header
      Scenario.plain_body 50
      (Scenario.comment 100 "ann" "first" [101; 102]) 0 Scenario.threaded in
  run.2 = Ok tt
  /\ lines run.1 = ["ann"; "first"; EmptyString; "  bob"; "  second"; EmptyString]
  /\ requests run.1
     = [Client.url_of (Client.Item 101); Client.url_of (Client.Item 102)]
  /\ (Comments.prefetch Scenario.by_id [JNum 101; JNum 102] []
        Scenario.threaded).2
     = Ok [Scenario.comment 102 "bob" "second" []].
Proof. vm_compute. repeat split. Qed.

(** * Further properties *)

(** ** Pages of a list *)

Section Pages.
Import Pagination Props.

Lemma take_min_length {A} (l : list A) (k : nat) :
  take (k `min` length l) l = take k l.
Proof.
  destruct (Nat.le_ge_cases k (length l)).
  - by rewrite Nat.min_l.
  - rewrite Nat.min_r by done. by rewrite !take_ge.
Qed.

(** Inside the list's pages the Python slice is the plain chunk. *)
Lemma page_slice_chunk {A} (l : list A) (p spp : Z) :
  1 <= p -> 0 <= spp ->
  page_slice l p spp
  = take (Z.to_nat spp) (drop (Z.to_nat (p - 1) * Z.to_nat spp) l).
Proof.
  intros Hp Hs. unfold page_slice, slice, slice_bound.
  set (n := Z.of_nat (length l)).
  assert (0 <= (p - 1) * spp) as Hstart by nia.
  destruct (Z.ltb_spec ((p - 1) * spp) 0); [lia|].
  destruct (Z.ltb_spec (Z.min ((p - 1) * spp + spp) n) 0); [lia|].
  rewrite take_drop_commute.
  replace (Z.to_nat (Z.min (Z.min ((p - 1) * spp + spp) n) n))
    with ((Z.to_nat (p - 1) * Z.to_nat spp + Z.to_nat spp) `min` length l)%nat
    by (subst n; nia).
  rewrite take_min_length.
  set (t := take _ l).
  destruct (Z.le_gt_cases ((p - 1) * spp) n).
  - f_equal. subst n. nia.
  - rewrite !drop_ge; [done| |].
    + subst t. rewrite length_take. subst n. nia.
    + subst t. rewrite length_take. subst n. nia.
Qed.

Lemma chunks_concat {A} (l : list A) (spp : Z) (k : nat) :
  0 <= spp ->
  concat (map (fun p => page_slice l p spp) (map Z.of_nat (seq 1 k)))
  = take (k * Z.to_nat spp) l.
Proof.
  intros Hs. induction k as [|k IH]; [done|].
  rewrite seq_S, !map_app, concat_app, IH. simpl.
  rewrite app_nil_r, page_slice_chunk by lia.
  replace (Z.to_nat (Z.of_nat (S k) - 1)) with k by lia.
  rewrite take_take_drop. f_equal. lia.
Qed.

Lemma total_pages_of_bounds n spp tp :
  1 <= spp -> total_pages_of n spp = Ok tp ->
  (tp - 1) * spp < n <= tp * spp.
Proof.
  intros Hs. unfold total_pages_of, floordiv.
  destruct (Z.eqb_spec spp 0); [lia|]. intros [= <-].
  pose proof (Z.mul_div_le (n + spp - 1) spp ltac:(lia)).
  pose proof (Z.mul_succ_div_gt (n + spp - 1) spp ltac:(lia)).
  nia.
Qed.

End Pages.

(** X1: the pages 1 .. total_pages, one after the other, are the list of
    story ids: every id is on exactly one page, in order. *)
Theorem pages_cover_the_list (ids : list json) (spp tp : Z) :
  1 <= spp ->
  Pagination.total_pages_of (Z.of_nat (length ids)) spp = Ok tp ->
  concat (map (fun p => Pagination.page_slice ids p spp)
              (Props.page_numbers tp)) = ids.
Proof.
  intros Hs Htp. unfold Props.page_numbers.
  rewrite chunks_concat by lia. apply take_ge.
  pose proof (total_pages_of_bounds _ _ _ Hs Htp). nia.
Qed.

Lemma pages_cover_the_list_witness :
  1 <= 10
  /\ Pagination.total_pages_of
       (Z.of_nat (length (Scenario.ids_from 1 25))) 10 = Ok 3
  /\ concat (map (fun p => Pagination.page_slice (Scenario.ids_from 1 25) p 10)
                 (Props.page_numbers 3)) = Scenario.ids_from 1 25.
Proof.
  assert (1 <= 10) as Hs by lia.
  assert (Pagination.total_pages_of
            (Z.of_nat (length (Scenario.ids_from 1 25))) 10 = Ok 3) as Htp
    by reflexivity.
  split; [exact Hs|]. split; [exact Htp|].
  exact (pages_cover_the_list (Scenario.ids_from 1 25) 10 3 Hs Htp).
Defined.

(** X2: a page within 1 .. total_pages shows at least one id and at most
    stories_per_page; every page before the last is full, the last holds
    what is left, and a page beyond the last is empty. *)
Theorem page_sizes (ids : list json) (spp tp p : Z) :
  1 <= spp ->
  Pagination.total_pages_of (Z.of_nat (length ids)) spp = Ok tp ->
  1 <= p ->
  let shown := Z.of_nat (length (Pagination.page_slice ids p spp)) in
  (p <= tp -> 1 <= shown <= spp)
  /\ (p < tp -> shown = spp)
  /\ (p = tp -> shown = Z.of_nat (length ids) - (tp - 1) * spp)
  /\ (tp < p -> shown = 0).
Proof.
  intros Hs Htp Hp shown.
  pose proof (total_pages_of_bounds _ _ _ Hs Htp) as Hb.
  subst shown. rewrite page_slice_chunk by lia.
  rewrite length_take, length_drop.
  repeat split; intros; nia.
Qed.

Lemma page_sizes_witness :
  let ids := Scenario.ids_from 1 25 in
  Z.of_nat (length (Pagination.page_slice ids 3 10)) = 25 - (3 - 1) * 10.
Proof.
  intros ids.
  exact (proj1 (proj2 (proj2 (page_sizes ids 10 3 3 ltac:(lia) eq_refl
                                 ltac:(lia)))) eq_refl).
Defined.

(** ** The page size of a browse session *)

(** X3: once [get_story_ids] has returned a list of ids, the computation
    of the starting page state (lines 453-454) raises exactly for the
    page-size argument 0, by a division by zero; any other argument,
    negative ones included, and no argument give a starting state. *)
Theorem only_zero_page_size_raises (limit : option Z) (rows : Z)
    (ids : list json) :
  (limit = Some 0 -> Browse.start limit rows ids = Raise ZeroDivisionError)
  /\ (limit <> Some 0 -> exists st, Browse.start limit rows ids = Ok st).
Proof.
  split.
  - intros ->. reflexivity.
  - intros Hne. unfold Browse.start, Pagination.total_pages_of, floordiv.
    set (spp := match limit with Some n => n | None => _ end).
    assert (spp <> 0) as Hspp.
    { subst spp. destruct limit as [n|]; [congruence|].
      pose proof (calculate_stories_per_page_range rows). lia. }
    destruct (Z.eqb_spec spp 0); [done|]. by eexists.
Qed.

Lemma only_zero_page_size_raises_witness :
  Browse.start (Some 0) 24 (Scenario.ids_from 1 25) = Raise ZeroDivisionError
  /\ exists st, Browse.start (Some (-3)) 24 (Scenario.ids_from 1 25) = Ok st.
Proof.
  split.
  - exact (proj1 (only_zero_page_size_raises (Some 0) 24 _) eq_refl).
  - apply (proj2 (only_zero_page_size_raises (Some (-3)) 24 _)).
    discriminate.
Defined.

(** X4: the resize test at the head of every turn never raises, keeps the
    list of ids, and leaves a page size that the terminal gives, between
    10 and 20: a page size passed as argument survives the first turn only
    when it is the one the terminal gives anyway. *)
Theorem page_size_comes_from_terminal (rows1 rows2 : Z)
    (st : Browse.page_state) :
  exists st',
    Browse.resize rows1 rows2 st = Ok st'
    /\ Browse.story_ids st' = Browse.story_ids st
    /\ Browse.total_stories st' = Browse.total_stories st
    /\ 10 <= Browse.stories_per_page st' <= 20
    /\ (Browse.stories_per_page st'
          = Pagination.calculate_stories_per_page rows1
        \/ Browse.stories_per_page st'
          = Pagination.calculate_stories_per_page rows2).
Proof.
  unfold Browse.resize.
  pose proof (calculate_stories_per_page_range rows1) as H1.
  pose proof (calculate_stories_per_page_range rows2) as H2.
  destruct (Z.eqb_spec (Browse.stories_per_page st)
              (Pagination.calculate_stories_per_page rows1)) as [Heq|Hne].
  - exists st. rewrite Heq.
    split; [done|]. split; [done|]. split; [done|]. split; [lia|by left].
  - unfold Pagination.total_pages_of, floordiv.
    destruct (Z.eqb_spec (Pagination.calculate_stories_per_page rows2) 0);
      [lia|].
    eexists. split; [reflexivity|]. simpl.
    split; [done|]. split; [done|]. split; [lia|by right].
Qed.

(** ** The pages of the search results *)

Section SearchPages.
Import Browse Pagination Spec.

Lemma search_dispatch_in_range command st st' eff :
  page_in_range st -> consistent st ->
  Search.dispatch command st = Search.Continue st' eff ->
  page_in_range st' /\ consistent st'.
Proof.
  intros Hr Hc. unfold Search.dispatch, page_in_range, consistent in *.
  repeat case_match; intros [= <- <-]; simpl in *;
    repeat split; try lia; try tauto.
Qed.

Lemma search_session_in_range script : forall st st',
  page_in_range st -> consistent st ->
  Search.session script st = Some st' ->
  page_in_range st' /\ consistent st'.
Proof.
  induction script as [|[[r1 r2] command] script IH]; intros st st' Hr Hc.
  { by intros [= <-]. }
  simpl. unfold Search.step.
  destruct (resize r1 r2 st) as [st1|e] eqn:Hres; [|done].
  destruct (resize_in_range _ _ _ _ Hr Hc Hres) as [Hr1 Hc1].
  destruct (Search.dispatch command st1) as [st2 eff| |] eqn:Hd; try done.
  destruct (search_dispatch_in_range _ _ _ _ Hr1 Hc1 Hd) as [Hr2 Hc2].
  by apply IH.
Qed.

End SearchPages.

(** X5: with at least one match, the search results start on page 1 and,
    whatever is typed and however the terminal is resized, the current
    page stays within 1 .. total_pages for the whole session (refresh does
    nothing there). *)
Theorem search_page_stays_in_range (rows : Z) (matching_stories : list json)
    (script : list (Z * Z * string)) :
  matching_stories <> [] ->
  exists st0,
    Search.start rows matching_stories = Some (Ok st0)
    /\ Browse.page_in_range st0
    /\ forall st, Search.session script st0 = Some st ->
         Browse.page_in_range st.
Proof.
  intros Hne.
  pose proof (calculate_stories_per_page_range rows) as Hc.
  assert (1 <= Z.of_nat (length matching_stories)) as Hlen.
  { destruct matching_stories; [done|]. simpl length. lia. }
  destruct (total_pages_of_pos _ (Pagination.calculate_stories_per_page rows)
              Hlen ltac:(lia)) as (tp & Htp & Hpos).
  eexists. split.
  { unfold Search.start. destruct matching_stories; [done|].
    by rewrite Htp. }
  assert (Browse.page_in_range
            (Browse.mkPage matching_stories
               (Z.of_nat (length matching_stories)) 1 tp
               (Pagination.calculate_stories_per_page rows))) as Hr.
  { unfold Browse.page_in_range. simpl. lia. }
  split; [exact Hr|]. intros st Hs.
  eapply search_session_in_range; [exact Hr| |exact Hs].
  unfold Spec.consistent. simpl. repeat split; try lia. done.
Qed.

Lemma search_page_stays_in_range_witness :
  let matches := map Scenario.story [1; 2; 3] in
  matches <> []
  /\ forall st,
       Search.session [(18, 18, "n"); (40, 40, "r"); (18, 18, "p")]
         (Browse.mkPage matches 3 1 1 10) = Some st ->
       Browse.page_in_range st.
Proof.
  intros matches.
  assert (matches <> []) as Hne by done.
  split; [exact Hne|].
  destruct (search_page_stays_in_range 18 matches
              [(18, 18, "n"); (40, 40, "r"); (18, 18, "p")] Hne)
    as (st0 & Hstart & _ & Hall).
  injection Hstart as <-. exact Hall.
Defined.

Section SearchNumber.
Import Browse Pagination.

Lemma digit_is_no_letter (c : ascii) (letter : ascii) :
  is_digit_char c = true ->
  In letter ["n"; "p"; "r"; "q"]%char ->
  Ascii.eqb (lower_char c) letter = false.
Proof.
  intros Hd Hin.
  destruct c as [[] [] [] [] [] [] [] []]; try discriminate Hd;
    simpl in Hin; destruct Hin as [<-|[<-|[<-|[<-|[]]]]]; reflexivity.
Qed.

Lemma number_is_no_command (command : string) (letter : ascii) :
  isdigit command = true ->
  In letter ["n"; "p"; "r"; "q"]%char ->
  String.eqb (lower command) (String letter EmptyString) = false.
Proof.
  intros Hd Hin. destruct command as [|c rest]; [done|].
  unfold isdigit in Hd. simpl in Hd.
  apply andb_prop in Hd as [Hc _].
  simpl. by rewrite (digit_is_no_letter c letter Hc Hin).
Qed.

Lemma index_in_range {A} (l : list A) (i : Z) x :
  0 <= i -> l !! Z.to_nat i = Some x -> Search.index l i = Ok x.
Proof.
  intros Hi Hx. pose proof (lookup_lt_Some _ _ _ Hx) as Hlt.
  unfold Search.index.
  destruct (Z.leb_spec (- Z.of_nat (length l)) i); [|lia].
  destruct (Z.ltb_spec i (Z.of_nat (length l))); [|lia]. simpl.
  destruct (Z.ltb_spec i 0); [lia|]. by rewrite Hx.
Qed.

End SearchNumber.

(** X6: in the search results, a command that passes [isdigit] is read
    by [int]: when all its digits are decimal and there are at most
    [int_max_str_digits] of them, the number of a row of the page on screen
    opens the story of that row and leaves the page state as it is, and a
    number that is no row of the page opens nothing; a command with a
    superscript digit, or with more digits than the limit, makes [int]
    raise [ValueError], which ends the session. *)
Theorem search_number_opens_that_row (command : string)
    (st : Browse.page_state) :
  1 <= Browse.current_page st -> 0 <= Browse.stories_per_page st ->
  isdigit command = true ->
  (all_decimal command = true ->
   Z.of_nat (String.length command) <= int_max_str_digits ->
   let idx := int_of_digits 0 command in
   (1 <= idx <= Z.of_nat (length (Search.shown st)) ->
    exists story,
      Search.shown st !! Z.to_nat (idx - 1) = Some story
      /\ Search.dispatch command st
         = Search.Continue st (Search.ViewStory (Ok story)))
   /\ (~ 1 <= idx <= Z.of_nat (length (Search.shown st)) ->
       Search.dispatch command st
       = Search.Continue st Search.InvalidStoryNumber))
  /\ (all_decimal command = false
      \/ int_max_str_digits < Z.of_nat (String.length command) ->
      Search.dispatch command st = Search.Crash ValueError).
Proof.
  intros Hp Hs Hd.
  assert (forall letter, In letter ["n"; "p"; "r"; "q"]%char ->
            String.eqb (lower command) (String letter EmptyString) = false)
    as Hno by (intros; by apply number_is_no_command).
  unfold Search.dispatch.
  rewrite (Hno "n"%char), (Hno "p"%char), (Hno "r"%char), (Hno "q"%char), Hd
    by (simpl; tauto).
  unfold int_of_str. split.
  - intros Hdec Hlen. rewrite Hdec.
    destruct (Z.leb_spec (Z.of_nat (String.length command))
                int_max_str_digits); [|lia].
    cbn [andb]. set (idx := int_of_digits 0 command). split.
    + intros [Hlo Hhi].
      destruct (Z.leb_spec 1 idx); [|lia].
      destruct (Z.leb_spec idx (Z.of_nat (length (Search.shown st)))); [|lia].
      cbn [andb].
      destruct (lookup_lt_is_Some_2 (Search.shown st) (Z.to_nat (idx - 1)))
        as [story Hstory]; [lia|].
      exists story. split; [done|]. do 2 f_equal.
      apply index_in_range; [nia|].
      revert Hstory. unfold Search.shown.
      rewrite page_slice_chunk by lia. intros Hstory.
      assert (Z.to_nat (idx - 1) < Z.to_nat (Browse.stories_per_page st))%nat
        as Hlt.
      { apply lookup_lt_Some in Hstory. rewrite length_take in Hstory. lia. }
      rewrite lookup_take_lt, lookup_drop in Hstory by done.
      rewrite <- Hstory. f_equal. nia.
    + intros Hout.
      destruct (Z.leb_spec 1 idx),
        (Z.leb_spec idx (Z.of_nat (length (Search.shown st)))); cbn [andb];
        try done; lia.
  - intros [->|Hlong]; [done|].
    destruct (Z.leb_spec (Z.of_nat (String.length command))
                int_max_str_digits); [lia|].
    by rewrite andb_false_r.
Qed.

Lemma search_number_opens_that_row_witness :
  let st := Browse.mkPage (map Scenario.story [1; 2; 3; 4; 5; 6; 7; 8; 9; 10;
                                               11; 12]) 12 2 2 10 in
  Search.dispatch "2" st
  = Search.Continue st (Search.ViewStory (Ok (Scenario.story 12)))
  /\ Search.dispatch Sample.superscript_two st = Search.Crash ValueError.
Proof.
  intros st. split.
  - destruct (proj1 (proj1 (search_number_opens_that_row "2" st
                              ltac:(simpl; lia) ltac:(simpl; lia) eq_refl)
                       eq_refl ltac:(vm_compute; discriminate))
                ltac:(vm_compute; split; discriminate))
      as (story & Hrow & Hgo).
    injection Hrow as <-. exact Hgo.
  - apply (proj2 (search_number_opens_that_row Sample.superscript_two st
                    ltac:(simpl; lia) ltac:(simpl; lia) eq_refl)).
    by left.
Defined.

(** ** The viewport of the Expanded view *)

Section Viewport.
Import Expanded.

Lemma drawn_in_range (mo : Z) keys : forall offset o,
  0 <= offset <= mo -> In o (drawn mo keys offset) -> 0 <= o <= mo.
Proof.
  induction keys as [|k keys IH]; intros offset o Hoff; simpl.
  { intros [<-|[]]. done. }
  intros [<-|Hin]; [done|].
  destruct k as [[]|]; simpl in Hin; try done.
  - apply (IH (Z.max 0 (offset - 1))); [lia|done].
  - apply (IH (Z.min mo (offset + 1))); [lia|done].
Qed.

Lemma window_length (buffer : list string) (rows offset : Z) :
  0 <= offset <= max_offset (Z.of_nat (length buffer)) rows ->
  Z.of_nat (length (window buffer rows offset))
  = Z.min (view_height rows) (Z.of_nat (length buffer)).
Proof.
  unfold window, max_offset, view_height, slice, slice_bound. intros Hoff.
  destruct (Z.ltb_spec offset 0); [lia|].
  destruct (Z.ltb_spec (offset + Z.max (rows - 1) 1) 0); [lia|].
  rewrite length_drop, length_take. lia.
Qed.

End Viewport.

(** X7: while the Expanded view scrolls, starting at the top, every offset
    at which the screen is drawn lies between 0 and
    max(len(lines) - view_height, 0), and the screen then shows exactly
    min(view_height, len(lines)) lines: the view never runs past the end
    of the buffer. *)
Theorem viewport_stays_on_the_buffer (buffer : list string) (rows : Z)
    (keys : list (option Comments.key)) (o : Z) :
  let n := Z.of_nat (length buffer) in
  In o (Expanded.drawn (Expanded.max_offset n rows) keys 0) ->
  0 <= o <= Expanded.max_offset n rows
  /\ Z.of_nat (length (Expanded.window buffer rows o))
     = Z.min (Expanded.view_height rows) n.
Proof.
  intros n Hin.
  assert (0 <= o <= Expanded.max_offset n rows) as Ho.
  { apply (drawn_in_range _ keys 0 o); [|done].
    unfold Expanded.max_offset. lia. }
  split; [done|]. by apply window_length.
Qed.

Lemma viewport_stays_on_the_buffer_witness :
  let buffer := ["a"; "b"; "c"; "d"; "e"]%string in
  let keys := [Some Comments.DOWN; Some Comments.DOWN; Some Comments.DOWN;
               Some Comments.DOWN; Some Comments.UP] in
  In 2 (Expanded.drawn (Expanded.max_offset 5 4) keys 0)
  /\ Expanded.window buffer 4 2 = ["c"; "d"; "e"]%string
  /\ Z.of_nat (length (Expanded.window buffer 4 2)) = 3.
Proof.
  intros buffer keys.
  assert (In 2 (Expanded.drawn (Expanded.max_offset 5 4) keys 0)) as Hin
    by (vm_compute; tauto).
  split; [exact Hin|]. split; [reflexivity|].
  exact (proj2 (viewport_stays_on_the_buffer buffer 4 keys 2 Hin)).
Defined.

(** ** Ages and summaries *)

Section Ages.
Import Text.



End Ages.



Section Summaries.
Import Text.

Lemma length_string_of_list_ascii (l : list ascii) :
  String.length (string_of_list_ascii l) = length l.
Proof. induction l as [|c l IH]; simpl; [done|by f_equal]. Qed.

Lemma length_list_ascii_of_string (s : string) :
  length (list_ascii_of_string s) = String.length s.
Proof. induction s as [|c s IH]; simpl; [done|by f_equal]. Qed.

Lemma length_string_app (a b : string) :
  String.length (a +:+ b) = (String.length a + String.length b)%nat.
Proof. induction a as [|c a IH]; simpl; [done|by f_equal]. Qed.

Lemma str_slice_prefix_length (s : string) (k : Z) :
  Z.of_nat (String.length (str_slice s 0 k))
  = if k <? 0 then Z.max (k + Z.of_nat (String.length s)) 0
    else Z.min k (Z.of_nat (String.length s)).
Proof.
  unfold str_slice, slice, slice_bound.
  rewrite length_string_of_list_ascii, length_drop, length_take,
    length_list_ascii_of_string.
  destruct (Z.ltb_spec k 0); simpl; lia.
Qed.

End Summaries.

(** X9: [truncate_text] returns a text of at most max_length characters
    as it is; for max_length of at least 3 it cuts a longer text to
    exactly max_length characters, the last three being dots; for
    max_length below 3 the result for a longer text is longer than
    max_length.  [None] becomes the empty string. *)
Theorem truncate_text_length (t : string) (max_length : Z) :
  let n := Z.of_nat (String.length t) in
  let out := Text.truncate_text (Some t) max_length in
  (n <= max_length -> out = t)
  /\ (3 <= max_length < n ->
      out = Text.str_slice t 0 (max_length - 3) +:+ "..."
      /\ Z.of_nat (String.length out) = max_length)
  /\ (max_length < 3 -> max_length < n ->
      max_length < Z.of_nat (String.length out))
  /\ Text.truncate_text None max_length = EmptyString.
Proof.
  intros n out. subst out. unfold Text.truncate_text. fold n.
  assert (t <> EmptyString -> String.eqb t EmptyString = false) as Hne.
  { intros H. by apply String.eqb_neq. }
  split; [|split; [|split]].
  - intros Hle. destruct (Z.ltb_spec max_length n); [lia|].
    by rewrite andb_false_r.
  - intros [H3 Hlt]. destruct (Z.ltb_spec max_length n); [|lia].
    rewrite Hne by (intros ->; simpl in n; lia). simpl.
    split; [done|].
    rewrite length_string_app, Nat2Z.inj_add, str_slice_prefix_length.
    fold n. destruct (Z.ltb_spec (max_length - 3) 0); simpl; lia.
  - intros H3 Hlt. destruct (Z.ltb_spec max_length n); [|lia].
    destruct (String.eqb_spec t EmptyString) as [->|_]; simpl.
    + simpl in n. lia.
    + rewrite length_string_app, Nat2Z.inj_add, str_slice_prefix_length.
      fold n. destruct (Z.ltb_spec (max_length - 3) 0); simpl; lia.
  - reflexivity.
Qed.

Lemma truncate_text_length_witness :
  Text.truncate_text (Some "Hacker News") 8 = "Hacke..."
  /\ 2 < Z.of_nat (String.length (Text.truncate_text (Some "Hacker") 2)).
Proof.
  destruct (truncate_text_length "Hacker News" 8) as (_ & Hcut & _).
  destruct (truncate_text_length "Hacker" 2) as (_ & _ & Hlong & _).
  split.
  - exact (proj1 (Hcut ltac:(simpl; lia))).
  - exact (Hlong ltac:(lia) ltac:(simpl; lia)).
Defined.

(** ** The search loop *)

Section SearchLoop.
Import Search Props.

Variable get_item : json -> M json.

Lemma eq_str_true s x : eq_str s x = true -> x = JStr s.
Proof.
  destruct x; simpl; try done. intros H. apply String.eqb_eq in H.
  by subst.
Qed.

Lemma search_one_spec query story_id matching w :
  exists w' out,
    search_one get_item query story_id matching w = (w', Ok out)
    /\ (out = matching
        \/ exists story, out = matching ++ [story] /\ matches query story).
Proof.
  unfold search_one. munfold.
  destruct (get_item story_id w) as [w1 [story|e]]; [|eexists _, _; eauto].
  destruct (truthy story) eqn:Htruthy; [|eexists _, _; eauto].
  destruct (dict_get story "type" JNull) as [t|e] eqn:Htype;
    [|eexists _, _; eauto].
  destruct (eq_str "story" t) eqn:Ht; [|eexists _, _; eauto].
  apply eq_str_true in Ht as ->.
  destruct (dict_get story "title" (JStr EmptyString)) as [tv|e] eqn:Htv;
    [|eexists _, _; eauto].
  destruct (lower_of tv) as [title|e] eqn:Htitle; [|eexists _, _; eauto].
  destruct (dict_get story "text" (JStr EmptyString)) as [xv|e] eqn:Hxv;
    [|eexists _, _; eauto].
  destruct (lower_of xv) as [text|e] eqn:Htext; [|eexists _, _; eauto].
  destruct (is_substring query title || is_substring query text) eqn:Hin;
    [|eexists _, _; eauto].
  eexists _, _. split; [reflexivity|]. right. exists story. split; [done|].
  destruct story as [| | | | |kvs]; try done.
  exists kvs, tv, xv, title, text. repeat split; try done.
  - simpl in Htype. destruct (assoc "type" kvs); by simplify_eq.
  - by apply orb_prop.
Qed.

Lemma search_loop_spec query ids : forall matching w,
  exists w' extra,
    search_loop get_item query ids matching w = (w', Ok (matching ++ extra))
    /\ Forall (matches query) extra
    /\ (length extra <= length ids)%nat
    /\ (length (matching ++ extra) <= Nat.max 100 (length matching))%nat.
Proof.
  induction ids as [|story_id ids IH]; intros matching w.
  { exists w, []. rewrite app_nil_r. repeat split; [constructor|done|lia]. }
  simpl.
  destruct (Z.leb_spec 100 (Z.of_nat (length matching))).
  { exists w, []. rewrite app_nil_r.
    repeat split; [constructor|simpl; lia|lia]. }
  destruct (search_one_spec query story_id matching w)
    as (w1 & out & H1 & Hout).
  rewrite (bind_ok _ _ _ _ _ H1).
  destruct (IH out w1) as (w2 & extra & H2 & Hall & Hlen & Hcap).
  destruct Hout as [->|(story & -> & Hm)].
  - exists w2, extra. repeat split; try done; simpl; lia.
  - exists w2, (story :: extra). rewrite H2, <- app_assoc. simpl.
    repeat split; [by constructor|lia|].
    rewrite <- app_assoc, !length_app in Hcap. simpl in Hcap.
    rewrite length_app. simpl. lia.
Qed.

End SearchLoop.

(** X10: the search loop never raises, whatever the fetches do; it returns
    at most 100 stories, each of them a story whose lower-cased title or
    text contains the query, in the order of the ids, and it keeps at most
    one story per id. *)
Theorem search_keeps_matching_stories (get_item : json -> M json)
    (query : string) (all_story_ids : list json) (w : world) :
  exists w' found,
    Search.search_loop get_item query all_story_ids [] w = (w', Ok found)
    /\ Forall (Props.matches query) found
    /\ (length found <= 100)%nat
    /\ (length found <= length all_story_ids)%nat.
Proof.
  destruct (search_loop_spec get_item query all_story_ids [] w)
    as (w' & extra & H & Hall & Hlen & Hcap).
  exists w', extra. simpl in *. repeat split; try done; lia.
Qed.

(** ** The cache across calls and restarts *)

Section CacheFrames.
Import Cache.

(** [set] changes memory and the disk, nothing else. *)
Lemma set_shape key value w :
  exists d,
    (set key value w).1
    = with_disk d (with_mem (<[key := (JNum (clock w), value)]> (mem w)) w)
    /\ d = if io_fails w Mkdir then disk w
           else if io_fails w (OpenWrite key) then disk w
           else if io_fails w (WriteData key)
                then <[key := Garbage]> (disk w)
                else <[key := Parsed (JList [JNum (clock w); value])]>
                       (disk w).
Proof.
  unfold set, save_cache_to_disk, get_cache_file, get_cache_dir,
    open_write_dump. munfold. simpl. rewrite lookup_insert_eq. simpl.
  destruct w as [m d c io sv rq tm co ln]. simpl.
  unfold with_disk, with_mem. simpl.
  destruct (io Mkdir); simpl; [eexists; split; reflexivity|].
  destruct (io (OpenWrite key)); simpl; [eexists; split; reflexivity|].
  destruct (io (WriteData key)); simpl; eexists; split; reflexivity.
Qed.

(** The result of [get] depends on the key's entry and on the clock. *)
Lemma get_depends key ttl w1 w2 :
  mem w1 !! key = mem w2 !! key -> clock w1 = clock w2 ->
  (get key ttl w1).2 = (get key ttl w2).2.
Proof.
  intros Hm Hc. unfold get, fresh. munfold. simpl. rewrite Hm.
  destruct (mem w2 !! key) as [[ts v]|]; simpl; [|done]. rewrite Hc.
  destruct (as_number ts); simpl; [|done]. by destruct (_ <? _).
Qed.

Lemma unlink_guarded_disk f w :
  disk (try_except (unlink f) (fun _ => mret tt) w).1
  = if io_fails w (Unlink f) then disk w else delete f (disk w).
Proof.
  unfold unlink. munfold. destruct (io_fails w (Unlink f)); [done|].
  destruct (disk w !! f) eqn:Hf; [done|]. simpl. by rewrite delete_id.
Qed.

Lemma unlink_all_disk files : forall w stem,
  disk (for_each files
          (fun f => try_except (unlink f) (fun _ => mret tt)) w).1 !! stem
  = if decide (stem ∈ files)
    then if io_fails w (Unlink stem) then disk w !! stem else None
    else disk w !! stem.
Proof.
  induction files as [|f files IH]; intros w stem; [done|].
  simpl.
  pose proof (unlink_guarded f w) as (Hok & Hio & _).
  pose proof (unlink_guarded_disk f w) as Hd.
  destruct (try_except (unlink f) _ w) as [w1 r] eqn:Hu. simpl in *.
  subst r. rewrite (bind_ok _ _ _ _ _ Hu), IH, Hio, Hd.
  destruct (decide (stem = f)) as [->|Hne].
  - rewrite (decide_True (P := f ∈ f :: files))
      by (rewrite elem_of_cons; by left).
    destruct (io_fails w (Unlink f)) eqn:Hf.
    + by destruct (decide (f ∈ files)).
    + rewrite lookup_delete_eq. by destruct (decide (f ∈ files)).
  - assert ((if io_fails w (Unlink f) then disk w else delete f (disk w))
              !! stem = disk w !! stem) as ->.
    { destruct (io_fails w (Unlink f)); [done|].
      by rewrite lookup_delete_ne. }
    destruct (decide (stem ∈ files)) as [Hin|Hnin].
    + rewrite decide_True; [done|]. rewrite elem_of_cons. by right.
    + rewrite decide_False; [done|]. rewrite elem_of_cons. tauto.
Qed.

End CacheFrames.

(** X11: after [clear], [get] reports absent for every key, whatever the
    disk did; and, the cache directory being at hand, the files left on
    disk are exactly those whose deletion failed. *)
Theorem clear_forgets (w : world) :
  (forall key ttl, (Cache.get key ttl (Cache.clear w).1).2 = Ok JNull)
  /\ (io_fails w Mkdir = false ->
      forall stem,
        disk (Cache.clear w).1 !! stem
        = if io_fails w (Unlink stem) then disk w !! stem else None).
Proof.
  split.
  - intros key ttl. rewrite get_absent; [done|].
    by rewrite clear_mem, lookup_empty.
  - intros Hdir stem.
    unfold Cache.clear, Cache.get_cache_dir, Cache.glob. munfold. simpl.
    rewrite Hdir, unlink_all_disk. simpl.
    destruct (decide (stem ∈ (map_to_list (disk w)).*1)) as [Hin|Hnin];
      [done|].
    destruct (disk w !! stem) as [c|] eqn:Hd;
      [|by destruct (io_fails w (Unlink stem))].
    exfalso. apply Hnin. apply list_elem_of_fmap. exists (stem, c).
    split; [done|]. by apply elem_of_map_to_list.
Qed.

Lemma clear_forgets_witness :
  io_fails Scenario.odd_file Mkdir = false
  /\ disk (Cache.clear Scenario.odd_file).1 !! "item_1" = None
  /\ (Cache.get "item_1" 300 (Cache.clear Scenario.odd_file).1).2 = Ok JNull.
Proof.
  assert (io_fails Scenario.odd_file Mkdir = false) as Hdir by reflexivity.
  destruct (clear_forgets Scenario.odd_file) as (Hget & Hdisk).
  split; [exact Hdir|]. split; [exact (Hdisk Hdir "item_1")|].
  exact (Hget "item_1" 300).
Defined.

(** X12: [set] for one key does not change what [get] returns for any
    other key, and of two [set]s for the same key the later one is the one
    [get] sees. *)
Theorem set_is_per_key (key other : string) (v1 v2 : json) (ttl : Z)
    (w : world) :
  (key <> other ->
   (Cache.get other ttl (Cache.set key v1 w).1).2 = (Cache.get other ttl w).2)
  /\ (0 < ttl ->
      (Cache.get key ttl (Cache.set key v2 (Cache.set key v1 w).1).1).2
      = Ok v2).
Proof.
  split.
  - intros Hne. apply get_depends; [|apply set_clock].
    by rewrite set_mem, lookup_insert_ne.
  - intros Httl.
    rewrite (get_entry key ttl _ (JNum (clock w)) v2 (clock w)).
    + simpl. rewrite !set_clock.
      replace (clock w - clock w) with 0 by lia.
      by destruct (Z.ltb_spec 0 ttl); [|lia].
    + rewrite set_mem, set_clock. apply lookup_insert_eq.
    + reflexivity.
Qed.

Lemma set_is_per_key_witness :
  "item_1" <> "item_2" /\ 0 < 300
  /\ (Cache.get "item_2" 300 (Cache.set "item_1" (JNum 7) Scenario.quiet).1).2
     = Ok JNull
  /\ (Cache.get "item_1" 300
        (Cache.set "item_1" (JNum 8)
           (Cache.set "item_1" (JNum 7) Scenario.quiet).1).1).2
     = Ok (JNum 8).
Proof.
  assert ("item_1" <> "item_2") as Hne by discriminate.
  assert (0 < 300) as Httl by lia.
  destruct (set_is_per_key "item_1" "item_2" (JNum 7) (JNum 8) 300
              Scenario.quiet) as (Hother & Hlast).
  split; [exact Hne|]. split; [exact Httl|].
  split; [exact (Hother Hne)|exact (Hlast Httl)].
Defined.

Section Restart.
Import Cache Spec.

Lemma set_io_fails key value w : io_fails (set key value w).1 = io_fails w.
Proof. destruct (set_shape key value w) as (d & -> & _). done. Qed.

Lemma set_disk key value w :
  disk (set key value w).1
  = if io_fails w Mkdir then disk w
    else if io_fails w (OpenWrite key) then disk w
    else if io_fails w (WriteData key) then <[key := Garbage]> (disk w)
    else <[key := Parsed (JList [JNum (clock w); value])]> (disk w).
Proof. destruct (set_shape key value w) as (d & -> & ->). done. Qed.

Lemma load_loop_clock stems : forall w,
  clock (for_each stems load_one w).1 = clock w.
Proof.
  induction stems as [|s stems IH]; intros w; [done|]. simpl.
  rewrite (bind_ok _ _ _ _ _ (load_one_spec s w)), IH.
  by destruct (loadable w s).
Qed.

Lemma load_cache_from_disk_clock w :
  clock (load_cache_from_disk w).1 = clock w.
Proof.
  unfold load_cache_from_disk, get_cache_dir, glob. munfold. simpl.
  destruct (io_fails w Mkdir); [done|]. apply load_loop_clock.
Qed.

End Restart.

(** X13: for a key that names its own file (not empty, no path separator
    in it), what [set] stored is there again after a restart (memory
    empty, the files loaded), when the directory, the write and the later
    read all work: the load restores the entry with its timestamp and
    [get] returns the value until the ttl has passed.  When the write
    breaks off half-way, the restarted process has no entry for the key. *)
Theorem set_survives_restart (key : string) (value : json) (ttl d : Z)
    (w : world) :
  Cache.names_its_file key = true ->
  io_fails w Mkdir = false ->
  io_fails w (OpenWrite key) = false ->
  io_fails w (OpenRead key) = false ->
  let restarted :=
    (Cache.load_cache_from_disk (with_mem ∅ (Cache.set key value w).1)).1 in
  (io_fails w (WriteData key) = false ->
   mem restarted !! key = Some (JNum (clock w), value)
   /\ (d < ttl ->
       (Cache.get key ttl (advance d restarted)).2 = Ok value))
  /\ (io_fails w (WriteData key) = true ->
      mem restarted !! key = None).
Proof.
  intros _ Hdir Hopen Hread restarted.
  set (w1 := with_mem ∅ (Cache.set key value w).1).
  assert (io_fails w1 = io_fails w) as Hio by apply set_io_fails.
  assert (io_fails w1 Mkdir = false) as Hdir1 by (by rewrite Hio).
  destruct (load_cache_from_disk_ok w1 Hdir1) as (_ & Hm).
  assert (disk w1 = disk (Cache.set key value w).1) as Hdisk by done.
  assert (clock restarted = clock w) as Hclock.
  { subst restarted. rewrite load_cache_from_disk_clock. subst w1. simpl.
    apply set_clock. }
  split.
  - intros Hwrite.
    assert (mem restarted !! key = Some (JNum (clock w), value)) as Hkey.
    { subst restarted. rewrite Hm. unfold Spec.loadable.
      rewrite Hio, Hread, Hdisk, set_disk, Hdir, Hopen, Hwrite.
      by rewrite lookup_insert_eq. }
    split; [done|]. intros Hd.
    rewrite (get_entry key ttl _ (JNum (clock w)) value (clock w));
      [|done|done].
    simpl. rewrite Hclock.
    by destruct (Z.ltb_spec (clock w + d - clock w) ttl); [|lia].
  - intros Hwrite. subst restarted. rewrite Hm. unfold Spec.loadable.
    rewrite Hio, Hread, Hdisk, set_disk, Hdir, Hopen, Hwrite.
    by rewrite lookup_insert_eq.
Qed.

Lemma set_survives_restart_witness :
  let restarted :=
    (Cache.load_cache_from_disk
       (with_mem ∅ (Cache.set "item_1" (JNum 7) Scenario.quiet).1)).1 in
  mem restarted !! "item_1" = Some (JNum 1000, JNum 7)
  /\ (Cache.get "item_1" 300 (advance 299 restarted)).2 = Ok (JNum 7).
Proof.
  intros restarted.
  destruct (set_survives_restart "item_1" (JNum 7) 300 299 Scenario.quiet
              eq_refl eq_refl eq_refl eq_refl) as (Hgood & _).
  destruct (Hgood eq_refl) as (Hmem & Hget).
  split; [exact Hmem|]. exact (Hget ltac:(lia)).
Defined.

Section Sweep.
Import Cache Spec.

Lemma expired_keys_spec now ttl items : forall keys,
  expired_keys now ttl items = Ok keys ->
  forall k, k ∈ keys <->
    exists ts v, (k, (ts, v)) ∈ items /\ fresh now ts ttl = Ok false.
Proof.
  induction items as [|[key [ts0 v0]] items IH]; intros keys; simpl.
  { intros [= <-] k. split; [by intros ?%elem_of_nil|].
    by intros (? & ? & ?%elem_of_nil & _). }
  destruct (fresh now ts0 ttl) as [is_fresh|e] eqn:Hf; [|done].
  destruct (expired_keys now ttl items) as [keys0|e]; [|done].
  intros [= <-] k. specialize (IH keys0 eq_refl k).
  assert (k ∈ (if is_fresh then keys0 else key :: keys0)
          <-> (k = key /\ is_fresh = false) \/ k ∈ keys0) as ->.
  { destruct is_fresh; [|rewrite elem_of_cons]; split.
    - by right.
    - by intros [[_ ?]|?].
    - intros [->|?]; [by left|by right].
    - intros [[-> _]|?]; [by left|by right]. }
  rewrite IH. split.
  - intros [[-> ->]|(ts & v & Hin & Hexp)].
    + exists ts0, v0. split; [|done]. rewrite elem_of_cons. by left.
    + exists ts, v. split; [|done]. rewrite elem_of_cons. by right.
  - intros (ts & v & Hin & Hexp). apply elem_of_cons in Hin as [Heq|Hin].
    + left. simplify_eq. split; [done|]. congruence.
    + right. by exists ts, v.
Qed.

Lemma expire_body key w :
  io_fails w Mkdir = false ->
  exists w1,
    (modify (fun w => with_mem (delete key (mem w)) w) ;;
     cache_file ← get_cache_file key;
     try_except (unlink cache_file) (fun _ => mret tt)) w = (w1, Ok tt)
    /\ mem w1 = delete key (mem w)
    /\ clock w1 = clock w
    /\ io_fails w1 = io_fails w.
Proof.
  intros Hdir. unfold get_cache_file, get_cache_dir, unlink. munfold. simpl.
  rewrite Hdir. simpl.
  destruct (io_fails w (Unlink key)); [by eexists|].
  destruct (disk w !! key); by eexists.
Qed.

Lemma expire_loop keys : forall w,
  io_fails w Mkdir = false ->
  let w' :=
    (for_each keys (fun key =>
       modify (fun w => with_mem (delete key (mem w)) w) ;;
       cache_file ← get_cache_file key;
       try_except (unlink cache_file) (fun _ => mret tt)) w).1 in
  clock w' = clock w
  /\ forall k, mem w' !! k = if decide (k ∈ keys) then None else mem w !! k.
Proof.
  induction keys as [|key keys IH]; intros w Hdir; [done|].
  destruct (expire_body key w Hdir) as (w1 & Hbody & Hm & Hc & Hio).
  simpl. rewrite (bind_ok _ _ _ _ _ Hbody).
  destruct (IH w1) as (Hc1 & Hm1); [by rewrite Hio|].
  split; [congruence|]. intros k. rewrite Hm1, Hm.
  destruct (decide (k = key)) as [->|Hne].
  - rewrite lookup_delete_eq.
    rewrite (decide_True (P := key ∈ key :: keys))
      by (rewrite elem_of_cons; by left).
    by destruct (decide (key ∈ keys)).
  - rewrite lookup_delete_ne by done.
    destruct (decide (k ∈ keys)) as [Hin|Hnin].
    + rewrite decide_True; [done|]. rewrite elem_of_cons. by right.
    + rewrite decide_False; [done|]. rewrite elem_of_cons. tauto.
Qed.

End Sweep.

(** X14: with the cache directory at hand and numeric timestamps in
    memory, [clear_expired(ttl)] returns, removes from memory exactly the
    entries that are not fresh for that ttl and keeps every fresh entry as
    it is; so it never changes what [get] with the same ttl returns. *)
Theorem clear_expired_keeps_fresh (ttl : Z) (w : world) :
  io_fails w Mkdir = false ->
  Spec.numeric_timestamps (mem w) ->
  let w' := (Cache.clear_expired ttl w).1 in
  (Cache.clear_expired ttl w).2 = Ok tt
  /\ (forall key ts v,
        mem w !! key = Some (ts, v) ->
        mem w' !! key
        = match Cache.fresh (clock w) ts ttl with
          | Ok false => None
          | _ => Some (ts, v)
          end)
  /\ (forall key, mem w !! key = None -> mem w' !! key = None)
  /\ (forall key, (Cache.get key ttl w').2 = (Cache.get key ttl w).2).
Proof.
  intros Hdir Hnum w'.
  destruct (expired_keys_ok (clock w) ttl (map_to_list (mem w)))
    as [keys Hkeys].
  { intros key ts v Hin. apply elem_of_map_to_list in Hin.
    by apply (Hnum key ts v). }
  pose proof (expired_keys_spec _ _ _ _ Hkeys) as Hspec.
  destruct (expire_loop keys w Hdir) as (Hclock & Hmem).
  assert (w' = (for_each keys (fun key =>
       modify (fun w => with_mem (delete key (mem w)) w) ;;
       cache_file ← Cache.get_cache_file key;
       try_except (Cache.unlink cache_file) (fun _ => mret tt)) w).1) as Hw'.
  { subst w'. unfold Cache.clear_expired. munfold. by rewrite Hkeys. }
  rewrite <- Hw' in Hclock, Hmem.
  assert (forall key ts v, mem w !! key = Some (ts, v) ->
            mem w' !! key
            = match Cache.fresh (clock w) ts ttl with
              | Ok false => None
              | _ => Some (ts, v)
              end) as Hsome.
  { intros key ts v Hkey. rewrite Hmem, Hkey.
    destruct (decide (key ∈ keys)) as [Hin|Hnin].
    - apply Hspec in Hin as (ts' & v' & Hin & Hexp).
      apply elem_of_map_to_list in Hin. simplify_eq.
      by rewrite Hexp.
    - destruct (Cache.fresh (clock w) ts ttl) as [[]|e] eqn:Hexp; try done.
      exfalso. apply Hnin, Hspec.
      exists ts, v. split; [|done]. by apply elem_of_map_to_list. }
  assert (forall key, mem w !! key = None -> mem w' !! key = None) as Hnone.
  { intros key Hkey. rewrite Hmem, Hkey. by destruct (decide _). }
  split; [by apply clear_expired_ok|]. split; [exact Hsome|].
  split; [exact Hnone|].
  intros key. destruct (mem w !! key) as [[ts v]|] eqn:Hkey.
  - destruct (Hnum key ts v Hkey) as [t Ht].
    rewrite (get_entry key ttl w ts v t Hkey Ht).
    specialize (Hsome key ts v Hkey). unfold Cache.fresh in Hsome.
    rewrite Ht in Hsome.
    destruct (Z.ltb_spec (clock w - t) ttl).
    + rewrite (get_entry key ttl w' ts v t Hsome Ht), Hclock.
      by destruct (Z.ltb_spec (clock w - t) ttl); [|lia].
    + by rewrite get_absent.
  - rewrite !get_absent; [done|done|by apply Hnone].
Qed.

Lemma clear_expired_keeps_fresh_witness :
  let w' := (Cache.clear_expired 300 Sample.two_entries).1 in
  mem w' !! "old" = None /\ mem w' !! "new" = Some (JNum 900, JNum 2).
Proof.
  intros w'.
  assert (Spec.numeric_timestamps (mem Sample.two_entries)) as Hnum.
  { intros key ts v. simpl. rewrite !lookup_insert.
    repeat case_decide; intros [= <- <-] || intros [=]; by eexists. }
  destruct (clear_expired_keeps_fresh 300 Sample.two_entries eq_refl Hnum)
    as (_ & Hsome & _).
  split.
  - exact (Hsome "old" (JNum 100) (JNum 1) eq_refl).
  - exact (Hsome "new" (JNum 900) (JNum 2) eq_refl).
Defined.

(** ** The remote client across calls *)

Section ClientFrames.
Import Client Spec.

Lemma requests_get_json_shape url w :
  (requests_get_json url w).1 = with_requests (requests w ++ [url]) w.
Proof.
  unfold requests_get_json. munfold. simpl.
  destruct (server w (length (requests w)) url) as [|status [j|]];
    [done|..]; by destruct (_ && _).
Qed.

Lemma requests_get_json_failure url w :
  match server w (length (requests w)) url with
  | TransportFailure =>
      (requests_get_json url w).2 = Raise RequestException
  | Reply status body =>
      if (400 <=? status) && (status <? 600)
      then (requests_get_json url w).2 = Raise (HTTPError status)
      else match body with
           | None => (requests_get_json url w).2 = Raise JSONDecodeError
           | Some j => (requests_get_json url w).2 = Ok j
           end
  end.
Proof.
  unfold requests_get_json. munfold. simpl.
  destruct (server w (length (requests w)) url) as [|status [j|]];
    [done|..]; by destruct (_ && _).
Qed.

(** A fetch that fails stores nothing. *)
Lemma cached_fetch_failure key url w e :
  no_usable_entry w key ->
  (requests_get_json url w).2 = Raise e ->
  cached_fetch key url w = (with_requests (requests w ++ [url]) w, Raise e).
Proof.
  intros Hno Hfail.
  destruct (no_usable_entry_get key w Hno) as (c & Hget & Hc).
  unfold cached_fetch, cache_ttl.
  rewrite (bind_ok _ _ w w (cache_timeout_minutes w * 60)) by done.
  rewrite (bind_ok _ _ _ _ _ Hget), Hc.
  pose proof (requests_get_json_shape url w) as Hshape.
  destruct (requests_get_json url w) as [w1 r] eqn:Hhttp. simpl in *.
  subst. by rewrite (bind_raise _ _ _ _ _ Hhttp).
Qed.

(** After a fetch that succeeded, the state differs from the one before
    in memory, disk and request log only. *)
Lemma cached_fetch_success_state key url w body :
  no_usable_entry w key ->
  (requests_get_json url w).2 = Ok body ->
  exists d,
    (cached_fetch key url w).1
    = with_disk d
        (with_mem (<[key := (JNum (clock w), body)]> (mem w))
           (with_requests (requests w ++ [url]) w)).
Proof.
  intros Hno Hok.
  destruct (no_usable_entry_get key w Hno) as (c & Hget & Hc).
  unfold cached_fetch, cache_ttl.
  rewrite (bind_ok _ _ w w (cache_timeout_minutes w * 60)) by done.
  rewrite (bind_ok _ _ _ _ _ Hget), Hc.
  pose proof (requests_get_json_shape url w) as Hshape.
  destruct (requests_get_json url w) as [w1 r] eqn:Hhttp. simpl in *.
  subst. rewrite (bind_ok _ _ _ _ _ Hhttp).
  destruct (set_shape key body (with_requests (requests w ++ [url]) w))
    as (d & Hset & _).
  exists d.
  destruct (Cache.set key body _) as [w2 [[]|e]] eqn:Hs; simpl in Hset.
  - by rewrite (bind_ok _ _ _ _ _ Hs).
  - by rewrite (bind_raise _ _ _ _ _ Hs).
Qed.

End ClientFrames.

(** X15: a fetch that fails is not cached: with no usable entry, when the
    transport fails, the status is an error or the body is not JSON, the
    operation raises (RequestException, HTTPError, JSONDecodeError), has
    sent its one request, and leaves memory and disk as they were, so the
    next call asks the server again. *)
Theorem failed_fetch_is_not_cached (r : Client.request) (w : world) :
  Spec.no_usable_entry w (Client.key_of r) ->
  let reply := server w (length (requests w)) (Client.url_of r) in
  let after := (Client.perform r w).1 in
  (reply = TransportFailure ->
   (Client.perform r w).2 = Raise RequestException)
  /\ (forall status body, reply = Reply status body ->
        400 <= status < 600 ->
        (Client.perform r w).2 = Raise (HTTPError status))
  /\ (forall status, reply = Reply status None ->
        ~ 400 <= status < 600 ->
        (Client.perform r w).2 = Raise JSONDecodeError)
  /\ (forall e, (Client.perform r w).2 = Raise e ->
        io_fails w Mkdir = false ->
        after = with_requests (requests w ++ [Client.url_of r]) w
        /\ Spec.no_usable_entry after (Client.key_of r)).
Proof.
  intros Hno reply after. subst after reply. rewrite perform_unfold.
  pose proof (requests_get_json_failure (Client.url_of r) w) as Hcase.
  split; [|split; [|split]].
  - intros Hr. rewrite Hr in Hcase.
    by rewrite (cached_fetch_failure _ _ _ _ Hno Hcase).
  - intros status body Hr Hst. rewrite Hr in Hcase.
    destruct (Z.leb_spec 400 status), (Z.ltb_spec status 600);
      simpl in Hcase; try lia.
    by rewrite (cached_fetch_failure _ _ _ _ Hno Hcase).
  - intros status Hr Hst. rewrite Hr in Hcase.
    destruct (Z.leb_spec 400 status), (Z.ltb_spec status 600);
      simpl in Hcase; try lia;
      by rewrite (cached_fetch_failure _ _ _ _ Hno Hcase).
  - intros e He Hdir.
    destruct (Client.requests_get_json (Client.url_of r) w).2
      as [body|e'] eqn:Hres.
    + exfalso.
      pose proof (cached_fetch_miss (Client.key_of r) (Client.url_of r)
                    w Hno) as (_ & Hsucc).
      destruct (server w (length (requests w)) (Client.url_of r))
        as [|status [j|]] eqn:Hs.
      * congruence.
      * assert (~ 400 <= status < 600) as Hst.
        { intros Hst.
          destruct (Z.leb_spec 400 status), (Z.ltb_spec status 600);
            simpl in Hcase; try lia. congruence. }
        destruct (Hsucc status j eq_refl Hst) as (_ & Hok).
        rewrite (Hok Hdir) in He. discriminate.
      * destruct (_ && _); congruence.
    + rewrite (cached_fetch_failure _ _ _ _ Hno Hres). split; [done|].
      destruct Hno as [Hnone|(ts & t & v & Hm & Ht & Hwhy)].
      * by left.
      * right. by exists ts, t, v.
Qed.

Lemma failed_fetch_is_not_cached_witness :
  let r := Client.Item 2 in
  Spec.no_usable_entry Sample.online (Client.key_of r)
  /\ (Client.perform r Sample.online).2 = Raise (HTTPError 404)
  /\ mem (Client.perform r Sample.online).1 = ∅.
Proof.
  intros r.
  assert (Spec.no_usable_entry Sample.online (Client.key_of r)) as Hno
    by (left; reflexivity).
  destruct (failed_fetch_is_not_cached r Sample.online Hno)
    as (_ & Hstatus & _ & Hstate).
  assert ((Client.perform r Sample.online).2 = Raise (HTTPError 404)) as He.
  { apply (Hstatus 404 None); [reflexivity|lia]. }
  split; [exact Hno|]. split; [exact He|].
  by rewrite (proj1 (Hstate _ He eq_refl)).
Defined.

(** X16: once a fetch has succeeded with a truthy body, the same operation
    is served from the cache for as long as less than the configured
    timeout has passed: it returns the same body and sends no request. *)
Theorem second_call_is_served_from_cache (r : Client.request) (w : world)
    (status : Z) (body : json) (d : Z) :
  Spec.no_usable_entry w (Client.key_of r) ->
  server w (length (requests w)) (Client.url_of r)
    = Reply status (Some body) ->
  ~ 400 <= status < 600 ->
  truthy body = true ->
  d < cache_timeout_minutes w * 60 ->
  let after := advance d (Client.perform r w).1 in
  requests after = requests w ++ [Client.url_of r]
  /\ Client.perform r after = (after, Ok body).
Proof.
  intros Hno Hs Hst Htruthy Hd after.
  pose proof (requests_get_json_success _ _ _ _ Hs Hst) as Hok.
  assert (exists dk, (Client.perform r w).1
            = with_disk dk
                (with_mem (<[Client.key_of r := (JNum (clock w), body)]>
                             (mem w))
                   (with_requests (requests w ++ [Client.url_of r]) w)))
    as (dk & Hstate).
  { rewrite perform_unfold. by apply cached_fetch_success_state. }
  subst after. rewrite Hstate. split; [done|].
  rewrite perform_unfold. apply cached_fetch_hit.
  exists (JNum (clock w)), (clock w). simpl.
  split; [apply lookup_insert_eq|]. split; [done|]. split; [lia|done].
Qed.

Lemma second_call_is_served_from_cache_witness :
  let r := Client.Item 1 in
  let after := advance 299 (Client.perform r Sample.online).1 in
  length (requests after) = 1%nat
  /\ Client.perform r after = (after, Ok (Scenario.story 1)).
Proof.
  intros r after.
  assert (Spec.no_usable_entry Sample.online (Client.key_of r)) as Hno
    by (left; reflexivity).
  destruct (second_call_is_served_from_cache r Sample.online 200
              (Scenario.story 1) 299 Hno eq_refl ltac:(lia) eq_refl
              ltac:(simpl; lia)) as (Hreq & Hhit).
  split; [|exact Hhit].
  fold after in Hreq. by rewrite Hreq.
Defined.

(** ** What a page lists *)

Section Listing.
Import Browse.

Variable get_item : json -> M json.

Lemma load_story_listed story_id stories w :
  exists w' out,
    load_story get_item story_id stories w = (w', Ok out)
    /\ (out = stories
        \/ exists kvs, out = stories ++ [JObj kvs]
             /\ assoc "type" kvs = Some (JStr "story")).
Proof.
  unfold load_story. munfold.
  destruct (get_item story_id w) as [w1 [story|e]]; [|eexists _, _; eauto].
  destruct (truthy story); [|eexists _, _; eauto].
  destruct (dict_get story "type" JNull) as [t|e] eqn:Htype;
    [|eexists _, _; eauto].
  destruct (eq_str "story" t) eqn:Ht; [|eexists _, _; eauto].
  apply eq_str_true in Ht as ->.
  eexists _, _. split; [reflexivity|]. right.
  destruct story as [| | | | |kvs]; try done. exists kvs. split; [done|].
  simpl in Htype. destruct (assoc "type" kvs); by simplify_eq.
Qed.

Lemma load_page_listed page : forall stories w,
  exists w' extra,
    load_page get_item page stories w = (w', Ok (stories ++ extra))
    /\ (length extra <= length page)%nat
    /\ Forall (fun s => exists kvs, s = JObj kvs
                 /\ assoc "type" kvs = Some (JStr "story")) extra.
Proof.
  induction page as [|story_id page IH]; intros stories w.
  { exists w, []. rewrite app_nil_r. repeat split; [done|constructor]. }
  simpl.
  destruct (load_story_listed story_id stories w) as (w1 & out & H1 & Hout).
  rewrite (bind_ok _ _ _ _ _ H1).
  destruct (IH out w1) as (w2 & extra & H2 & Hlen & Hall).
  destruct Hout as [->|(kvs & -> & Hkvs)].
  - exists w2, extra. split; [done|]. split; [simpl; lia|done].
  - exists w2, (JObj kvs :: extra). rewrite H2, <- app_assoc.
    split; [done|]. split; [simpl; lia|].
    constructor; [by exists kvs|done].
Qed.

End Listing.

(** X17: what a page lists are stories only: every item the page loop
    gathers is an object whose type is "story" (jobs, polls and comments
    among the ids are fetched and left out without a message), and there
    is at most one row per id of the page. *)
Theorem page_lists_stories_only (get_item : json -> M json)
    (page : list json) (w : world) :
  exists w' listed,
    Browse.load_page get_item page [] w = (w', Ok listed)
    /\ (length listed <= length page)%nat
    /\ Forall (fun s => exists kvs, s = JObj kvs
                 /\ assoc "type" kvs = Some (JStr "story")) listed.
Proof. apply (load_page_listed get_item page [] w). Qed.

(** ** The List view *)

Section ListView.
Import Comments.

Lemma slice_prefix {A} (l : list A) (k : Z) :
  slice l 0 k
  = take (Z.to_nat (if k <? 0 then k + Z.of_nat (length l) else k)) l.
Proof.
  unfold slice.
  replace (Z.to_nat (slice_bound (Z.of_nat (length l)) 0)) with 0%nat
    by (unfold slice_bound; simpl; lia).
  rewrite drop_0. unfold slice_bound.
  destruct (Z.ltb_spec k 0).
  - destruct (Z.le_gt_cases 0 (k + Z.of_nat (length l))).
    + by rewrite Z.max_l.
    + rewrite Z.max_r by lia. by replace (Z.to_nat (k + _)) with 0%nat by lia.
  - destruct (Z.le_gt_cases k (Z.of_nat (length l))).
    + by rewrite Z.min_l.
    + rewrite Z.min_r by lia. rewrite !take_ge; [done|lia|lia].
Qed.

Variable get_item : json -> M json.

Lemma prefetch_length parent_ids : forall parent_comments w,
  exists w' extra,
    prefetch get_item parent_ids parent_comments w
    = (w', Ok (parent_comments ++ extra))
    /\ (length extra <= length parent_ids)%nat.
Proof.
  induction parent_ids as [|cid ids IH]; intros parent_comments w.
  { exists w, []. by rewrite app_nil_r. }
  simpl.
  destruct (prefetch_one_spec get_item cid parent_comments w)
    as (w1 & out1 & H1 & Hout1).
  rewrite (bind_ok _ _ _ _ _ H1).
  destruct (IH out1 w1) as (w2 & extra & H2 & Hlen).
  destruct Hout1 as [->|(c & -> & _)].
  - exists w2, extra. split; [done|]. lia.
  - exists w2, (c :: extra). rewrite H2, <- app_assoc.
    split; [done|]. simpl. lia.
Qed.

(** When no fetched comment is kept, the parent list stays empty. *)
Lemma prefetch_none_kept parent_ids : forall w,
  (forall cid w0 w1 c,
     get_item cid w0 = (w1, Ok c) -> kept c <> Ok true) ->
  exists w', prefetch get_item parent_ids [] w = (w', Ok []).
Proof.
  intros w Hnone. revert w.
  induction parent_ids as [|cid ids IH]; intros w; [by eexists|].
  simpl.
  assert (exists w1, prefetch_one get_item cid [] w = (w1, Ok []))
    as (w1 & H1).
  { unfold prefetch_one. munfold.
    destruct (get_item cid w) as [w1 [c|e]] eqn:Hget; [|by eexists].
    specialize (Hnone cid w w1 c Hget).
    destruct (kept c) as [[]|e]; [done|by exists w1|by exists w1]. }
  rewrite (bind_ok _ _ _ _ _ H1). apply IH.
Qed.

End ListView.

(** X18: the parent ids of the List view are the first ids of the story's
    kids: by default as many as the terminal allows, a number between 5
    and 10; with an explicit limit [n >= 0] the first [n]; with a negative
    limit all but the last [-n].  The view then lists at most that many
    comments (at most 10 by default). *)
Theorem list_view_limit (get_item : json -> M json) (parent_ids : list json)
    (rows : Z) (w : world) :
  let by_default := Z.max 5 (Z.min 10 (rows - 5)) in
  5 <= by_default <= 10
  /\ Comments.limit_parents parent_ids None rows
     = take (Z.to_nat by_default) parent_ids
  /\ (forall n, 0 <= n ->
        Comments.limit_parents parent_ids (Some n) rows
        = take (Z.to_nat n) parent_ids)
  /\ (forall n, n < 0 ->
        Comments.limit_parents parent_ids (Some n) rows
        = take (length parent_ids - Z.to_nat (- n)) parent_ids)
  /\ exists w' listed,
       Comments.prefetch get_item
         (Comments.limit_parents parent_ids None rows) [] w = (w', Ok listed)
       /\ (length listed <= 10)%nat
       /\ (length listed <= length parent_ids)%nat.
Proof.
  intros by_default.
  assert (5 <= by_default <= 10) as Hrange by (subst by_default; lia).
  assert (Comments.limit_parents parent_ids None rows
          = take (Z.to_nat by_default) parent_ids) as Hdefault.
  { unfold Comments.limit_parents. fold by_default. rewrite slice_prefix.
    by destruct (Z.ltb_spec by_default 0); [lia|]. }
  split; [done|]. split; [done|]. split; [|split].
  - intros n Hn. unfold Comments.limit_parents. rewrite slice_prefix.
    by destruct (Z.ltb_spec n 0); [lia|].
  - intros n Hn. unfold Comments.limit_parents. rewrite slice_prefix.
    destruct (Z.ltb_spec n 0); [|lia]. f_equal. lia.
  - destruct (prefetch_length get_item
                (Comments.limit_parents parent_ids None rows) [] w)
      as (w' & listed & H & Hlen).
    exists w', listed. split; [done|].
    rewrite Hdefault, length_take in Hlen. lia.
Qed.

Lemma list_view_limit_witness :
  Comments.limit_parents (Scenario.ids_from 1 12) None 24
  = Scenario.ids_from 1 10
  /\ Comments.limit_parents (Scenario.ids_from 1 12) (Some (-2)) 24
     = Scenario.ids_from 1 10.
Proof.
  destruct (list_view_limit Scenario.by_id (Scenario.ids_from 1 12) 24
              Scenario.quiet) as (_ & Hdefault & _ & Hneg & _).
  split; [rewrite Hdefault; reflexivity|].
  rewrite (Hneg (-2)) by lia. reflexivity.
Defined.

(** X19: when none of the parent ids yields a comment that is kept (each
    is deleted, dead, null, or fails to load), the List view is entered
    with an empty list, and there the arrow keys raise
    [ZeroDivisionError] and Enter raises [IndexError]; only q and b leave
    it normally. *)
Theorem empty_list_view_raises_on_keys (get_item : json -> M json)
    (parent_ids : list json) (w : world) (selected : Z) :
  (forall cid w0 w1 c,
     get_item cid w0 = (w1, Ok c) -> Comments.kept c <> Ok true) ->
  exists w',
    Comments.prefetch get_item parent_ids [] w = (w', Ok [])
    /\ Comments.select_step [] (Some Comments.UP) selected
       = Raise ZeroDivisionError
    /\ Comments.select_step [] (Some Comments.DOWN) selected
       = Raise ZeroDivisionError
    /\ Comments.select_step [] (Some Comments.ENTER) selected
       = Raise IndexError
    /\ Comments.select_step [] (Some Comments.QUIT) selected = Ok None
    /\ Comments.select_step [] (Some Comments.BACK) selected = Ok None.
Proof.
  intros Hnone.
  destruct (prefetch_none_kept get_item parent_ids w Hnone) as (w' & H).
  exists w'. split; [done|]. repeat split.
  unfold Comments.select_step. cbn [length].
  change (Z.of_nat 0) with 0. change (- 0) with 0.
  destruct (Z.leb_spec 0 selected), (Z.ltb_spec selected 0); simpl;
    try done; lia.
Qed.

Lemma empty_list_view_raises_on_keys_witness :
  let always_deleted : json -> M json :=
    fun _ => mret Scenario.deleted_comment in
  (Comments.prefetch always_deleted [JNum 101; JNum 102] []
     Scenario.quiet).2 = Ok []
  /\ Comments.select_step [] (Some Comments.DOWN) 0 = Raise ZeroDivisionError.
Proof.
  intros always_deleted.
  assert (forall cid w0 w1 c,
            always_deleted cid w0 = (w1, Ok c) ->
            Comments.kept c <> Ok true) as Hnone.
  { intros cid w0 w1 c [= _ <-]. discriminate. }
  destruct (empty_list_view_raises_on_keys always_deleted
              [JNum 101; JNum 102] Scenario.quiet 0 Hnone)
    as (w' & Hpre & _ & Hdown & _).
  split; [by rewrite Hpre|exact Hdown].
Defined.

(** ** Settings *)

Section SettingsFacts.
Import Config.

Lemma lookup_union_or {A} (m d : gmap string A) k :
  (m ∪ d) !! k = match m !! k with Some v => Some v | None => d !! k end.
Proof.
  destruct (m !! k) as [v|] eqn:Hk.
  - by erewrite lookup_union_Some_l.
  - by rewrite lookup_union_r.
Qed.

Lemma lookup_or_self {A} (d : gmap string A) k :
  match d !! k with Some v => Some v | None => d !! k end = d !! k.
Proof. by destruct (d !! k). Qed.

Variable faults : io_op -> bool.
Hypothesis mkdir_ok : faults Mkdir = false.

Lemma save_config_ok config f d :
  faults (OpenWrite CONFIG) = false -> faults (WriteData CONFIG) = false ->
  save_config config (mkStore f d faults)
  = (mkStore (Stored config) d faults, Ok tt).
Proof.
  intros Ho Hw. unfold save_config, get_config_path. simpl.
  by rewrite mkdir_ok, Ho, Hw.
Qed.

Lemma save_config_unopened config f d :
  faults (OpenWrite CONFIG) = true ->
  save_config config (mkStore f d faults)
  = (mkStore f d faults, Raise (OSError (OpenWrite CONFIG))).
Proof.
  intros Ho. unfold save_config, get_config_path. simpl.
  by rewrite mkdir_ok, Ho.
Qed.

Lemma save_config_broken config f d :
  faults (OpenWrite CONFIG) = false -> faults (WriteData CONFIG) = true ->
  save_config config (mkStore f d faults)
  = (mkStore Corrupt d faults, Raise (OSError (WriteData CONFIG))).
Proof.
  intros Ho Hw. unfold save_config, get_config_path. simpl.
  by rewrite mkdir_ok, Ho, Hw.
Qed.

(** What a readable file gives, key by key. *)
Lemma get_setting_stored key user_config d :
  faults (OpenRead CONFIG) = false ->
  get_setting key (mkStore (Stored user_config) d faults)
  = (mkStore (Stored user_config) d faults,
     Ok match user_config !! key with
        | Some v => Some v
        | None => d !! key
        end).
Proof.
  intros Hr. unfold get_setting, load_config, get_config_path. simpl.
  rewrite mkdir_ok, Hr. simpl. rewrite lookup_union_or.
  destruct (user_config !! key); [done|]. by rewrite lookup_or_self.
Qed.

Lemma get_setting_unloadable key f d :
  f = Corrupt
  \/ (exists user_config, f = Stored user_config)
     /\ faults (OpenRead CONFIG) = true ->
  get_setting key (mkStore f d faults) = (mkStore f d faults, Ok (d !! key)).
Proof.
  unfold get_setting, load_config, get_config_path. simpl. rewrite mkdir_ok.
  intros [->|[[user_config ->] Hr]]; simpl.
  - by rewrite lookup_or_self.
  - rewrite Hr. simpl. by rewrite lookup_or_self.
Qed.

End SettingsFacts.

(** X20: [config_set] in a process of its own, the directory at hand and
    the value one that the coercion accepts.  When the file can be
    written, the command reports the update, the file holds the coerced
    value under the key together with every key of the defaults, and a
    later process that can read the file gets the value back from
    [get_setting] and reads every other key as before.  When the file
    cannot be opened for writing it is left as it was; when the write
    breaks off the file no longer loads, whatever it held; both are
    reported and not raised. *)
Theorem setting_round_trip (key other value : string) (v : Config.setting)
    (f : Config.config_file) (faults : io_op -> bool) :
  Config.coerce value = Ok v ->
  faults Mkdir = false ->
  let s := Config.started f faults in
  let run := Config.config_set key value s in
  (faults (OpenWrite Config.CONFIG) = false ->
   faults (WriteData Config.CONFIG) = false ->
   faults (OpenRead Config.CONFIG) = false ->
   run.2 = Ok (Config.Updated key v)
   /\ (exists cfg,
         Config.file run.1 = Config.Stored cfg
         /\ cfg !! key = Some v
         /\ forall k, is_Some (Config.DEFAULT_CONFIG !! k) ->
                      is_Some (cfg !! k))
   /\ (Config.get_setting key (Config.restart run.1)).2 = Ok (Some v)
   /\ (other <> key ->
       (Config.get_setting other (Config.restart run.1)).2
       = (Config.get_setting other s).2))
  /\ (faults (OpenWrite Config.CONFIG) = true ->
      run.2 = Ok (Config.ErrorUpdatingSetting
                    (OSError (OpenWrite Config.CONFIG)))
      /\ Config.file run.1 = f)
  /\ (faults (OpenWrite Config.CONFIG) = false ->
      faults (WriteData Config.CONFIG) = true ->
      run.2 = Ok (Config.ErrorUpdatingSetting
                    (OSError (WriteData Config.CONFIG)))
      /\ Config.file run.1 = Config.Corrupt).
Proof.
  intros Hv Hm s run. subst run s.
  unfold Config.config_set. rewrite Hv.
  unfold Config.update_setting, Config.load_config, Config.get_config_path,
    Config.started, Config.restart, Config.with_defaults.
  cbn [Config.fails Config.file Config.defaults]. rewrite Hm.
  split; [|split].
  - intros Ho Hw Hr. destruct f as [| |user_config].
    + rewrite !(save_config_ok faults Hm) by done.
      cbn [fst snd Config.fails Config.file Config.defaults].
      split; [done|]. split.
      { eexists. split; [reflexivity|]. split; [apply lookup_insert_eq|].
        intros k Hk. destruct (decide (key = k)) as [->|Hne].
        - rewrite lookup_insert_eq. by eexists.
        - by rewrite lookup_insert_ne. }
      rewrite !(get_setting_stored faults Hm) by done.
      cbn [snd]. rewrite lookup_insert_eq. split; [done|].
      intros Hne. rewrite lookup_insert_ne by done.
      unfold Config.get_setting, Config.load_config, Config.get_config_path.
      cbn [Config.fails Config.file Config.defaults]. rewrite Hm.
      rewrite !(save_config_ok faults Hm) by done.
      cbn [snd Config.dict_of Config.defaults].
      by rewrite !lookup_or_self.
    + rewrite !(save_config_ok faults Hm) by done.
      cbn [fst snd Config.fails Config.file Config.defaults].
      split; [done|]. split.
      { eexists. split; [reflexivity|]. split; [apply lookup_insert_eq|].
        intros k Hk. destruct (decide (key = k)) as [->|Hne].
        - rewrite lookup_insert_eq. by eexists.
        - by rewrite lookup_insert_ne. }
      rewrite !(get_setting_stored faults Hm) by done.
      cbn [snd]. rewrite lookup_insert_eq. split; [done|].
      intros Hne. rewrite lookup_insert_ne by done.
      rewrite (get_setting_unloadable faults Hm) by (by left).
      cbn [snd]. by rewrite lookup_or_self.
    + cbn [Config.fails]. rewrite Hr.
      rewrite !(save_config_ok faults Hm) by done.
      cbn [fst snd Config.fails Config.file Config.defaults].
      split; [done|]. split.
      { eexists. split; [reflexivity|]. split; [apply lookup_insert_eq|].
        intros k [d Hd]. destruct (decide (key = k)) as [->|Hne].
        - rewrite lookup_insert_eq. by eexists.
        - rewrite lookup_insert_ne, lookup_union_or, Hd by done.
          by destruct (user_config !! k). }
      rewrite !(get_setting_stored faults Hm) by done.
      cbn [snd]. rewrite lookup_insert_eq. split; [done|].
      intros Hne. rewrite lookup_insert_ne, lookup_union_or by done.
      destruct (user_config !! other); [done|]. by rewrite lookup_or_self.
  - intros Ho. destruct f as [| |user_config].
    + by rewrite !(save_config_unopened faults Hm).
    + by rewrite !(save_config_unopened faults Hm).
    + destruct (faults (OpenRead Config.CONFIG));
        by rewrite !(save_config_unopened faults Hm).
  - intros Ho Hw. destruct f as [| |user_config].
    + by rewrite !(save_config_broken faults Hm).
    + by rewrite !(save_config_broken faults Hm).
    + destruct (faults (OpenRead Config.CONFIG));
        by rewrite !(save_config_broken faults Hm).
Qed.

Lemma setting_round_trip_witness :
  let run :=
    Config.config_set "stories_per_page" "15"
      (Config.started (Config.Stored {[ "color_theme" := Config.SStr "dark" ]})
         Scenario.no_faults) in
  run.2 = Ok (Config.Updated "stories_per_page" (Config.SInt 15))
  /\ (Config.get_setting "stories_per_page" (Config.restart run.1)).2
     = Ok (Some (Config.SInt 15))
  /\ (Config.get_setting "color_theme" (Config.restart run.1)).2
     = Ok (Some (Config.SStr "dark")).
Proof.
  cbv zeta.
  pose proof (setting_round_trip "stories_per_page" "color_theme" "15"
                (Config.SInt 15)
                (Config.Stored {[ "color_theme" := Config.SStr "dark" ]})
                Scenario.no_faults eq_refl eq_refl) as H.
  cbv zeta in H.
  destruct (proj1 H eq_refl eq_refl eq_refl) as (Hrep & _ & Hkey & Hother).
  split; [exact Hrep|]. split; [exact Hkey|].
  rewrite (Hother ltac:(discriminate)). reflexivity.
Defined.

(** X21: [get_setting] in a process of its own, the directory at hand.  A
    file that can be read gives its value for a key it has and the default
    for a key it lacks; a file that does not load, or cannot be read,
    gives the default for every key; a missing file is first written with
    the defaults, and when that write cannot be made [get_setting] raises
    (and [get_config_value] returns the caller's default).  Without the
    directory [get_setting] raises too.  [config_reset] writes the
    defaults when the file can be written. *)
Theorem settings_fall_back_to_defaults (key : string)
    (user_config : gmap string Config.setting) (f : Config.config_file)
    (default : option Config.setting) (faults : io_op -> bool) :
  (faults Mkdir = false ->
   (faults (OpenRead Config.CONFIG) = false ->
    (Config.get_setting key
       (Config.started (Config.Stored user_config) faults)).2
    = Ok match user_config !! key with
         | Some v => Some v
         | None => Config.DEFAULT_CONFIG !! key
         end)
   /\ (faults (OpenRead Config.CONFIG) = true ->
       (Config.get_setting key
          (Config.started (Config.Stored user_config) faults)).2
       = Ok (Config.DEFAULT_CONFIG !! key))
   /\ (Config.get_setting key (Config.started Config.Corrupt faults)).2
      = Ok (Config.DEFAULT_CONFIG !! key)
   /\ (faults (OpenWrite Config.CONFIG) = false ->
       faults (WriteData Config.CONFIG) = false ->
       Config.get_setting key (Config.started Config.Missing faults)
       = (Config.started (Config.Stored Config.DEFAULT_CONFIG) faults,
          Ok (Config.DEFAULT_CONFIG !! key))
       /\ Config.config_reset (Config.started f faults)
          = (Config.started (Config.Stored Config.DEFAULT_CONFIG) faults,
             Config.ConfigurationReset))
   /\ (faults (OpenWrite Config.CONFIG) = true ->
       Config.get_setting key (Config.started Config.Missing faults)
       = (Config.started Config.Missing faults,
          Raise (OSError (OpenWrite Config.CONFIG)))
       /\ Config.get_config_value key default
            (Config.started Config.Missing faults)
          = (Config.started Config.Missing faults, default)))
  /\ (faults Mkdir = true ->
      Config.get_setting key (Config.started f faults)
      = (Config.started f faults, Raise (OSError Mkdir))
      /\ Config.get_config_value key default (Config.started f faults)
         = (Config.started f faults, default)).
Proof.
  unfold Config.started. split.
  - intros Hm. split; [|split; [|split; [|split]]].
    + intros Hr. by rewrite (get_setting_stored faults Hm).
    + intros Hr. rewrite (get_setting_unloadable faults Hm); [done|].
      right. split; [by eexists|done].
    + rewrite (get_setting_unloadable faults Hm); [done|by left].
    + intros Ho Hw. split.
      * unfold Config.get_setting, Config.load_config, Config.get_config_path.
        cbn [Config.fails Config.file Config.defaults]. rewrite Hm.
        rewrite (save_config_ok faults Hm) by done.
        cbn [Config.dict_of Config.defaults]. by rewrite lookup_or_self.
      * unfold Config.config_reset. cbn [Config.defaults].
        by rewrite (save_config_ok faults Hm).
    + intros Ho.
      assert (Config.get_setting key
                (Config.mkStore Config.Missing Config.DEFAULT_CONFIG faults)
              = (Config.mkStore Config.Missing Config.DEFAULT_CONFIG faults,
                 Raise (OSError (OpenWrite Config.CONFIG)))) as Hget.
      { unfold Config.get_setting, Config.load_config, Config.get_config_path.
        cbn [Config.fails Config.file Config.defaults]. rewrite Hm.
        by rewrite (save_config_unopened faults Hm). }
      split; [exact Hget|]. unfold Config.get_config_value. by rewrite Hget.
  - intros Hm.
    assert (Config.get_setting key
              (Config.mkStore f Config.DEFAULT_CONFIG faults)
            = (Config.mkStore f Config.DEFAULT_CONFIG faults,
               Raise (OSError Mkdir))) as Hget.
    { unfold Config.get_setting, Config.load_config, Config.get_config_path.
      cbn [Config.fails]. by rewrite Hm. }
    split; [exact Hget|]. unfold Config.get_config_value. by rewrite Hget.
Qed.

Lemma settings_fall_back_to_defaults_witness :
  let f := Config.Stored {[ "color_theme" := Config.SStr "dark" ]} in
  (Config.get_setting "cache_timeout_minutes"
     (Config.started f Scenario.no_faults)).2
  = Ok (Some (Config.SInt 5))
  /\ (Config.get_setting "color_theme"
        (Config.started f Scenario.no_faults)).2
     = Ok (Some (Config.SStr "dark")).
Proof.
  intros f. split.
  - exact (proj1 (proj1 (settings_fall_back_to_defaults
                           "cache_timeout_minutes"
                           {[ "color_theme" := Config.SStr "dark" ]}
                           Config.Missing None Scenario.no_faults) eq_refl)
             eq_refl).
  - exact (proj1 (proj1 (settings_fall_back_to_defaults "color_theme"
                           {[ "color_theme" := Config.SStr "dark" ]}
                           Config.Missing None Scenario.no_faults) eq_refl)
             eq_refl).
Defined.

(** X27: [load_config] hands out the dict [DEFAULT_CONFIG] itself when
    the file does not load, so [update_setting] then writes the new value
    into the defaults of the running process, whether or not the save
    works: in that process [get_setting] returns the value for the key,
    and [config_reset] writes a file that holds the value, not the
    default.  With a file that loads, the defaults are left alone. *)
Theorem update_writes_to_the_defaults (key : string) (v : Config.setting)
    (user_config d : gmap string Config.setting) (faults : io_op -> bool) :
  faults Mkdir = false ->
  let broken := Config.mkStore Config.Corrupt d faults in
  let s1 := (Config.update_setting key v broken).1 in
  Config.defaults s1 = <[key := v]> d
  /\ (Config.get_setting key s1).2 = Ok (Some v)
  /\ (faults (OpenWrite Config.CONFIG) = false ->
      faults (WriteData Config.CONFIG) = false ->
      Config.file (Config.config_reset s1).1
      = Config.Stored (<[key := v]> d))
  /\ (faults (OpenRead Config.CONFIG) = false ->
      Config.defaults
        (Config.update_setting key v
           (Config.mkStore (Config.Stored user_config) d faults)).1 = d).
Proof.
  intros Hm broken s1. subst s1 broken.
  unfold Config.update_setting, Config.load_config, Config.get_config_path,
    Config.with_defaults.
  cbn [Config.fails Config.file Config.defaults]. rewrite Hm.
  destruct (faults (OpenWrite Config.CONFIG)) eqn:Ho;
    [|destruct (faults (WriteData Config.CONFIG)) eqn:Hw].
  - rewrite (save_config_unopened faults Hm) by done. cbn [fst].
    split; [done|]. split.
    { rewrite (get_setting_unloadable faults Hm) by (by left).
      cbn [snd]. by rewrite lookup_insert_eq. }
    split; [done|]. intros Hr. rewrite Hr.
    by rewrite (save_config_unopened faults Hm).
  - rewrite (save_config_broken faults Hm) by done. cbn [fst].
    split; [done|]. split.
    { rewrite (get_setting_unloadable faults Hm) by (by left).
      cbn [snd]. by rewrite lookup_insert_eq. }
    split; [done|]. intros Hr. rewrite Hr.
    by rewrite (save_config_broken faults Hm).
  - rewrite (save_config_ok faults Hm) by done. cbn [fst].
    split; [done|]. split.
    { unfold Config.get_setting, Config.load_config, Config.get_config_path.
      cbn [Config.fails Config.file Config.defaults]. rewrite Hm.
      destruct (faults (OpenRead Config.CONFIG)); cbn [snd Config.dict_of
        Config.defaults]; [by rewrite lookup_insert_eq|].
      by rewrite lookup_union_or, lookup_insert_eq. }
    split.
    { intros _ _. unfold Config.config_reset. cbn [Config.defaults].
      by rewrite (save_config_ok faults Hm). }
    intros Hr. rewrite Hr. by rewrite (save_config_ok faults Hm).
Qed.

Lemma update_writes_to_the_defaults_witness :
  let s1 :=
    (Config.update_setting "color_theme" (Config.SStr "dark")
       (Config.started Config.Corrupt Scenario.no_faults)).1 in
  (Config.get_setting "color_theme" s1).2 = Ok (Some (Config.SStr "dark"))
  /\ Config.file (Config.config_reset s1).1
     = Config.Stored
         (<["color_theme" := Config.SStr "dark"]> Config.DEFAULT_CONFIG).
Proof.
  cbv zeta.
  pose proof (update_writes_to_the_defaults "color_theme"
                (Config.SStr "dark") ∅ Config.DEFAULT_CONFIG
                Scenario.no_faults eq_refl) as H.
  cbv zeta in H. destruct H as (_ & Hget & Hreset & _).
  split; [exact Hget|]. exact (Hreset eq_refl eq_refl).
Defined.

(** ** The story lists of hncli.py *)

(** X22: [top], [new] and [best] of hncli.py never raise from their loop
    and list stories only, at most one per id they look at: at most
    [limit] for a limit of 0 or more, and, for a negative limit, at most
    all ids but the last [-limit]. *)
Theorem legacy_listing_limit (get_item : json -> M json)
    (story_ids : list json) (limit : Z) (w : world) :
  exists w' listed,
    Legacy.listing get_item story_ids limit w = (w', Ok listed)
    /\ (0 <= limit -> Z.of_nat (length listed) <= limit)
    /\ (limit < 0 ->
        Z.of_nat (length listed)
        <= Z.max (Z.of_nat (length story_ids) + limit) 0)
    /\ (length listed <= length story_ids)%nat
    /\ Forall (fun s => exists kvs, s = JObj kvs
                 /\ assoc "type" kvs = Some (JStr "story")) listed.
Proof.
  unfold Legacy.listing.
  destruct (load_page_listed get_item (slice story_ids 0 limit) [] w)
    as (w' & listed & H & Hlen & Hall).
  exists w', listed. split; [done|].
  rewrite slice_prefix, length_take in Hlen.
  destruct (Z.ltb_spec limit 0); repeat split; try done; lia.
Qed.

(** ** Numerals given to [config_set] *)

Section Numerals.
Import Config.

Lemma pretty_N_char_decimal (d : N) :
  is_decimal_char (pretty_N_char d) = true.
Proof. unfold pretty_N_char. by repeat case_match. Qed.

Lemma all_decimal_all_digits (s : string) :
  all_decimal s = true -> all_digits s = true.
Proof.
  induction s as [|c s IH]; [done|]. simpl.
  intros [Hc Hs]%andb_prop. unfold is_digit_char. by rewrite Hc, IH.
Qed.

Lemma pretty_N_char_value (d : N) :
  (d < 10)%N ->
  Z.of_nat (nat_of_ascii (pretty_N_char d)) - 48 = Z.of_N d.
Proof.
  intros Hd. rewrite <- (N2Nat.id d).
  assert (N.to_nat d < 10)%nat as Hn by lia. revert Hn.
  generalize (N.to_nat d). intros n Hn.
  do 10 (destruct n as [|n]; [reflexivity|]). lia.
Qed.

Lemma all_decimal_pretty_N_go (x : N) : forall s,
  all_decimal (pretty_N_go x s) = all_decimal s.
Proof.
  induction (N.lt_wf_0 x) as [x _ IH]. intros s.
  destruct (decide (0 < x)%N) as [Hpos|Hz].
  - rewrite pretty_N_go_step by done.
    rewrite IH by (apply N.div_lt; lia). simpl.
    by rewrite pretty_N_char_decimal.
  - by replace x with 0%N by lia.
Qed.

Lemma int_of_digits_pretty_N_go (x : N) : forall s,
  (0 < x)%N ->
  int_of_digits 0 (pretty_N_go x s) = int_of_digits (Z.of_N x) s.
Proof.
  induction (N.lt_wf_0 x) as [x _ IH]. intros s Hpos.
  rewrite pretty_N_go_step by done.
  assert (Z.of_N x = 10 * Z.of_N (x `div` 10) + Z.of_N (x `mod` 10)) as Hx.
  { pose proof (N.div_mod x 10 ltac:(lia)) as Hdm.
    rewrite Hdm at 1. rewrite N2Z.inj_add, N2Z.inj_mul. done. }
  destruct (decide (0 < x `div` 10)%N) as [Hq|Hq].
  - rewrite IH; [|apply N.div_lt; lia|done]. simpl.
    rewrite pretty_N_char_value by (apply N.mod_lt; lia).
    by rewrite Hx.
  - assert (x `div` 10 = 0)%N as Hq0.
    { apply N.le_0_r, N.nlt_ge. exact Hq. }
    rewrite Hq0 in Hx |- *.
    rewrite pretty_N_go_0. simpl.
    rewrite pretty_N_char_value by (apply N.mod_lt; lia).
    rewrite Hx. simpl. done.
Qed.

Lemma all_digits_lower (s : string) : all_digits s = true -> lower s = s.
Proof.
  induction s as [|c s IH]; [done|]. simpl.
  intros [Hc Hs]%andb_prop. rewrite IH by done. f_equal.
  destruct c as [[] [] [] [] [] [] [] []]; try discriminate Hc; reflexivity.
Qed.

Lemma str_int_pos (p : positive) :
  str_int (Z.pos p) = pretty_N_go (N.pos p) EmptyString.
Proof. reflexivity. Qed.

End Numerals.

(** X23: the numeral [str(n)] of an integer n >= 2 goes through
    [config_set]'s coercion as the integer n when it has at most
    [int_max_str_digits] digits, and makes it raise [ValueError] when it
    has more; "1" and "0" become booleans; and the numeral of a negative
    integer is no digit string, so it stays a string. *)
Theorem numerals_are_stored_as_integers (n : Z) :
  (2 <= n ->
   Z.of_nat (String.length (str_int n)) <= int_max_str_digits ->
   Config.coerce (str_int n) = Ok (Config.SInt n))
  /\ (2 <= n ->
      int_max_str_digits < Z.of_nat (String.length (str_int n)) ->
      Config.coerce (str_int n) = Raise ValueError)
  /\ (n < 0 -> Config.coerce (str_int n) = Ok (Config.SStr (str_int n)))
  /\ Config.coerce (str_int 1) = Ok (Config.SBool true)
  /\ Config.coerce (str_int 0) = Ok (Config.SBool false).
Proof.
  assert (2 <= n ->
          Config.coerce (str_int n)
          = if Z.of_nat (String.length (str_int n)) <=? int_max_str_digits
            then Ok (Config.SInt n) else Raise ValueError) as Hnum.
  { intros Hn. destruct n as [|p|p]; try lia.
    assert (all_decimal (str_int (Z.pos p)) = true) as Hdec.
    { rewrite str_int_pos. by rewrite all_decimal_pretty_N_go. }
    pose proof (all_decimal_all_digits _ Hdec) as Hall.
    assert (int_of_digits 0 (str_int (Z.pos p)) = Z.pos p) as Hval.
    { rewrite str_int_pos, int_of_digits_pretty_N_go by lia. done. }
    assert (str_int (Z.pos p) <> EmptyString) as Hne.
    { intros Heq. rewrite Heq in Hval. simpl in Hval. lia. }
    assert (forall word, In word ["true"; "yes"; "y"; "1"; "false"; "no";
                                   "n"; "0"]%string ->
              str_int (Z.pos p) <> word) as Hword.
    { intros word Hin Heq. rewrite Heq in Hall, Hval.
      simpl in Hin.
      destruct Hin as [<-|[<-|[<-|[<-|[<-|[<-|[<-|[<-|[]]]]]]]]];
        vm_compute in Hall; try discriminate Hall;
        vm_compute in Hval; lia. }
    rewrite coerce_other.
    + unfold isdigit, int_of_str. rewrite Hall, Hdec, Hval.
      destruct (String.eqb_spec (str_int (Z.pos p)) EmptyString); [done|].
      cbn [negb andb].
      by destruct (Z.of_nat (String.length (str_int (Z.pos p)))
                   <=? int_max_str_digits).
    + rewrite all_digits_lower by done. intros Hin.
      apply (Hword (str_int (Z.pos p))); [|done].
      simpl in *. tauto.
    + rewrite all_digits_lower by done. intros Hin.
      apply (Hword (str_int (Z.pos p))); [|done].
      simpl in *. tauto. }
  split; [|split; [|split; [|split]]]; [| | |reflexivity|reflexivity].
  - intros Hn Hlen. rewrite (Hnum Hn).
    by destruct (Z.leb_spec (Z.of_nat (String.length (str_int n)))
                   int_max_str_digits); [|lia].
  - intros Hn Hlen. rewrite (Hnum Hn).
    by destruct (Z.leb_spec (Z.of_nat (String.length (str_int n)))
                   int_max_str_digits); [lia|].
  - intros Hn. destruct n as [|p|p]; try lia.
    change (str_int (Z.neg p)) with ("-" +:+ pretty (N.pos p)).
    by unfold Config.coerce.
Qed.

Lemma numerals_are_stored_as_integers_witness :
  Config.coerce "300" = Ok (Config.SInt 300)
  /\ Config.coerce "-1" = Ok (Config.SStr "-1").
Proof.
  split.
  - exact (proj1 (numerals_are_stored_as_integers 300) ltac:(lia)
             ltac:(vm_compute; discriminate)).
  - exact (proj1 (proj2 (proj2 (numerals_are_stored_as_integers (-1))))
             ltac:(lia)).
Defined.

(** ** Keys *)

Section Keys.
Import Keyboard Comments.

Lemma eqb_single (c d : ascii) :
  String.eqb (String c EmptyString) (String d EmptyString) = Ascii.eqb c d.
Proof. simpl. by destruct (Ascii.eqb c d). Qed.

Lemma get_key_escape (c : ascii) (rest : string) :
  get_key (String ESC (String c rest))
  = if Ascii.eqb c "[" then
      match rest with
      | EmptyString => (None, EmptyString)
      | String c3 rest' =>
          if Ascii.eqb c3 "A" then (Some UP, rest')
          else if Ascii.eqb c3 "B" then (Some DOWN, rest')
          else (None, rest')
      end
    else (None, rest).
Proof.
  unfold get_key, read_single_keypress.
  rewrite eqb_single, Ascii.eqb_refl, eqb_single.
  destruct (Ascii.eqb c "["); [|done].
  destruct rest as [|c3 rest']; [done|].
  by rewrite !eqb_single.
Qed.

Lemma get_key_plain (c : ascii) (rest : string) :
  c <> ESC ->
  exists k, get_key (String c rest) = (k, rest)
            /\ k <> Some UP /\ k <> Some DOWN.
Proof.
  intros Hc. unfold get_key, read_single_keypress.
  rewrite eqb_single. destruct (Ascii.eqb_spec c ESC); [done|].
  repeat case_match; eexists; (split; [reflexivity|split; discriminate]).
Qed.

End Keys.

(** X24: [get_key] reports an arrow exactly for the three-character
    sequences ESC [ A (up) and ESC [ B (down); after ESC any character
    other than "[" is read and dropped together with it (ESC then q does
    not quit); and one call reads at most three characters. *)
Theorem arrows_are_escape_sequences :
  (forall stdin rest,
     Keyboard.get_key stdin = (Some Comments.UP, rest)
     <-> stdin = String Keyboard.ESC (String "[" (String "A" rest)))
  /\ (forall stdin rest,
        Keyboard.get_key stdin = (Some Comments.DOWN, rest)
        <-> stdin = String Keyboard.ESC (String "[" (String "B" rest)))
  /\ (forall c rest, c <> "["%char ->
        Keyboard.get_key (String Keyboard.ESC (String c rest)) = (None, rest))
  /\ (forall stdin k rest,
        Keyboard.get_key stdin = (k, rest) ->
        exists used, stdin = used +:+ rest /\ (String.length used <= 3)%nat).
Proof.
  assert (forall stdin rest (arrow : Comments.key) (letter : ascii),
            (arrow = Comments.UP /\ letter = "A"%char)
            \/ (arrow = Comments.DOWN /\ letter = "B"%char) ->
            Keyboard.get_key stdin = (Some arrow, rest)
            <-> stdin = String Keyboard.ESC (String "[" (String letter rest)))
    as Harrow.
  { intros stdin rest arrow letter Hwhich. split.
    - destruct stdin as [|c1 s1]; [by destruct Hwhich as [[-> _]|[-> _]]|].
      destruct (Ascii.eqb_spec c1 Keyboard.ESC) as [->|Hne].
      + destruct s1 as [|c2 s2];
          [by destruct Hwhich as [[-> _]|[-> _]]|].
        rewrite get_key_escape.
        destruct (Ascii.eqb_spec c2 "[") as [->|_];
          [|by destruct Hwhich as [[-> _]|[-> _]]].
        destruct s2 as [|c3 s3]; [by destruct Hwhich as [[-> _]|[-> _]]|].
        destruct (Ascii.eqb_spec c3 "A") as [->|_].
        { destruct Hwhich as [[-> ->]|[-> ->]]; by intros [= ->]. }
        destruct (Ascii.eqb_spec c3 "B") as [->|_].
        { destruct Hwhich as [[-> ->]|[-> ->]]; by intros [= ->]. }
        by destruct Hwhich as [[-> _]|[-> _]].
      + destruct (get_key_plain c1 s1 Hne) as (k & -> & Hup & Hdown).
        destruct Hwhich as [[-> _]|[-> _]]; intros [= -> _]; congruence.
    - intros ->. rewrite get_key_escape. simpl.
      by destruct Hwhich as [[-> ->]|[-> ->]]. }
  split; [intros; apply Harrow; by left|].
  split; [intros; apply Harrow; by right|].
  split.
  - intros c rest Hc. rewrite get_key_escape.
    by destruct (Ascii.eqb_spec c "[").
  - intros stdin k rest.
    destruct stdin as [|c1 s1].
    { intros [= <- <-]. exists EmptyString. split; [done|simpl; lia]. }
    destruct (Ascii.eqb_spec c1 Keyboard.ESC) as [->|Hne].
    + destruct s1 as [|c2 s2].
      { intros [= <- <-]. exists (String Keyboard.ESC EmptyString).
        split; [done|simpl; lia]. }
      rewrite get_key_escape.
      destruct (Ascii.eqb c2 "[").
      * destruct s2 as [|c3 s3].
        { intros [= <- <-].
          exists (String Keyboard.ESC (String c2 EmptyString)).
          split; [done|simpl; lia]. }
        intros Hk.
        exists (String Keyboard.ESC (String c2 (String c3 EmptyString))).
        split; [|simpl; lia].
        repeat case_match; by injection Hk as <- <-.
      * intros [= <- <-].
        exists (String Keyboard.ESC (String c2 EmptyString)).
        split; [done|simpl; lia].
    + destruct (get_key_plain c1 s1 Hne) as (k' & -> & _).
      intros [= <- <-]. exists (String c1 EmptyString).
      split; [done|simpl; lia].
Qed.

Lemma arrows_are_escape_sequences_witness :
  Keyboard.get_key (String Keyboard.ESC "qb") = (None, "b").
Proof.
  apply (proj1 (proj2 (proj2 arrows_are_escape_sequences))).
  discriminate.
Defined.

(** ** The comment tree of hncli.py *)

Section TreeFacts.
Import LegacyTree Props.

Variable get_item : json -> M json.
Variable dict_slice_error : exn.
Variable display_comment : json -> Z -> list string * option exn.

Local Abbreviation descend' :=
  (descend get_item dict_slice_error display_comment).
Local Abbreviation visit' := (visit get_item display_comment).

Lemma shown_app (t u : list event) : shown (t ++ u) = (shown t + shown u)%nat.
Proof. unfold shown. by rewrite List.filter_app, length_app. Qed.

Lemma shown_within_deeper (depth : Z) (levels : nat) (e : event) :
  shown_within (depth + 1) levels e -> shown_within depth (S levels) e.
Proof.
  destruct e as [c d printed|]; [|done]. unfold shown_within.
  intros (Hd & Hdeleted & Hdead). repeat split; [lia|lia|done|done].
Qed.

Lemma first_ten_length (comment_ids : json) (ids : list json) :
  first_ten dict_slice_error comment_ids = Ok ids -> (length ids <= 10)%nat.
Proof.
  destruct comment_ids; simpl; try discriminate; intros [= <-];
    rewrite slice_prefix; simpl; rewrite length_take; lia.
Qed.

Lemma visit_all_spec (f : json -> list event -> world -> world * list event)
    (Q : event -> Prop) (n : nat) :
  (forall comment_id trace w, exists extra,
      (f comment_id trace w).2 = trace ++ extra
      /\ Forall Q extra /\ (shown extra <= n)%nat) ->
  forall ids trace w, exists extra,
    (visit_all f ids trace w).2 = trace ++ extra
    /\ Forall Q extra /\ (shown extra <= length ids * n)%nat.
Proof.
  intros Hf. induction ids as [|comment_id rest IH]; intros trace w.
  - exists []. simpl. rewrite app_nil_r. repeat split; [constructor|].
    unfold shown. simpl. lia.
  - simpl. destruct (Hf comment_id trace w) as (extra1 & Heq1 & HQ1 & Hn1).
    destruct (f comment_id trace w) as [w1 trace1]. simpl in Heq1. subst trace1.
    destruct (IH (trace ++ extra1) w1) as (extra2 & -> & HQ2 & Hn2).
    exists (extra1 ++ extra2). rewrite app_assoc.
    split; [done|]. split; [by apply Forall_app|].
    rewrite shown_app. lia.
Qed.

Lemma visit_spec
    (below : json -> Z -> list event -> world ->
             world * (list event * option exn))
    (levels : nat) (depth : Z) :
  (forall kids trace w, exists extra,
      (below kids (depth + 1) trace w).2.1 = trace ++ extra
      /\ Forall (shown_within (depth + 1) levels) extra
      /\ (shown extra <= most_shown levels)%nat) ->
  forall comment_id trace w, exists extra,
    (visit' below comment_id depth trace w).2 = trace ++ extra
    /\ Forall (shown_within depth (S levels)) extra
    /\ (shown extra <= 1 + most_shown levels)%nat.
Proof.
  intros Hbelow comment_id trace w.
  assert (forall e, exists extra : list event,
             trace ++ [ErrorFetchingComment comment_id e] = trace ++ extra
             /\ Forall (shown_within depth (S levels)) extra
             /\ (shown extra <= 1 + most_shown levels)%nat) as Hfailed.
  { intros e. exists [ErrorFetchingComment comment_id e].
    split; [done|]. split; [by repeat constructor|]. unfold shown. simpl. lia. }
  assert (exists extra : list event,
             trace = trace ++ extra
             /\ Forall (shown_within depth (S levels)) extra
             /\ (shown extra <= 1 + most_shown levels)%nat) as Hskipped.
  { exists []. rewrite app_nil_r. split; [done|]. split; [constructor|].
    unfold shown. simpl. lia. }
  unfold visit. destruct (get_item comment_id w) as [w1 [comment|e]];
    simpl; [|done].
  destruct (str_in "deleted" comment) as [[|]|e] eqn:Hdeleted; simpl;
    [done| |done].
  destruct (str_in "dead" comment) as [[|]|e] eqn:Hdead; simpl;
    [done| |done].
  destruct (display_comment comment depth) as [printed failure].
  assert (shown_within depth (S levels) (Displayed comment depth printed))
    as Hshown by (unfold shown_within; repeat split; [lia|lia|done|done]).
  assert (forall tail, shown tail = 0%nat -> Forall (shown_within depth (S levels)) tail ->
            exists extra : list event,
              (trace ++ [Displayed comment depth printed]) ++ tail
              = trace ++ extra
              /\ Forall (shown_within depth (S levels)) extra
              /\ (shown extra <= 1 + most_shown levels)%nat) as Hone.
  { intros tail Htail HQ. exists (Displayed comment depth printed :: tail).
    rewrite <- app_assoc. split; [done|]. split; [by constructor|].
    change (Displayed comment depth printed :: tail)
      with ([Displayed comment depth printed] ++ tail).
    rewrite shown_app, Htail. unfold shown. simpl. lia. }
  destruct failure as [e|]; simpl.
  { apply Hone; [done|by repeat constructor]. }
  destruct (kids_if_any comment) as [[kids|]|e]; simpl.
  - destruct (Hbelow kids (trace ++ [Displayed comment depth printed]) w1)
      as (extra & Heq & HQ & Hn).
    destruct (below kids (depth + 1) _ w1) as [w2 [trace2 failure]].
    simpl in Heq. subst trace2.
    assert (Forall (shown_within depth (S levels)) extra) as HQ'
      by (eapply Forall_impl; [exact HQ|apply shown_within_deeper]).
    destruct failure as [e|]; simpl.
    + exists (Displayed comment depth printed
              :: extra ++ [ErrorFetchingComment comment_id e]).
      rewrite <- !app_assoc. split; [done|].
      split; [constructor; [done|apply Forall_app; by repeat constructor]|].
      change (Displayed comment depth printed
              :: extra ++ [ErrorFetchingComment comment_id e])
        with ([Displayed comment depth printed]
              ++ extra ++ [ErrorFetchingComment comment_id e]).
      rewrite !shown_app. unfold shown at 1 3. simpl. lia.
    + exists (Displayed comment depth printed :: extra).
      rewrite <- !app_assoc. split; [done|]. split; [by constructor|].
      change (Displayed comment depth printed :: extra)
        with ([Displayed comment depth printed] ++ extra).
      rewrite shown_app. unfold shown at 1. simpl. lia.
  - replace (trace ++ [Displayed comment depth printed])
      with ((trace ++ [Displayed comment depth printed]) ++ [])
      by apply app_nil_r.
    apply Hone; [done|constructor].
  - apply Hone; [done|by repeat constructor].
Qed.

Lemma descend_spec (levels : nat) :
  forall comment_ids depth trace w, exists extra,
    (descend' levels comment_ids depth trace w).2.1 = trace ++ extra
    /\ Forall (shown_within depth levels) extra
    /\ (shown extra <= most_shown levels)%nat.
Proof.
  assert (forall (trace : list event) depth n, exists extra : list event,
             trace = trace ++ extra
             /\ Forall (shown_within depth n) extra
             /\ (shown extra <= most_shown n)%nat) as Hnone.
  { intros trace depth n. exists []. rewrite app_nil_r. split; [done|].
    split; [constructor|]. unfold shown. simpl. lia. }
  induction levels as [|levels IH]; intros comment_ids depth trace w;
    [apply Hnone|].
  cbn [descend].
  destruct (negb (truthy comment_ids)); [apply Hnone|].
  destruct (first_ten dict_slice_error comment_ids) as [ids|e] eqn:Hids;
    [|apply Hnone].
  apply first_ten_length in Hids.
  destruct (visit_all_spec
              (fun comment_id => visit' (descend' levels) comment_id depth)
              (shown_within depth (S levels)) (1 + most_shown levels)
              (visit_spec (descend' levels) levels depth
                 (fun kids => IH kids (depth + 1)))
              ids trace w) as (extra & Heq & HQ & Hn).
  destruct (visit_all _ ids trace w) as [w' trace']. simpl in Heq. subst trace'.
  exists extra. split; [done|]. split; [done|].
  cbn [most_shown]. nia.
Qed.

Lemma descend_list_returns (levels : nat) (l : list json) (depth : Z)
    (trace : list event) (w : world) :
  (descend' levels (JList l) depth trace w).2.2 = None.
Proof.
  destruct levels as [|levels]; [done|]. cbn [descend].
  destruct (negb (truthy (JList l))); [done|]. simpl.
  by destruct (visit_all _ _ trace w).
Qed.

End TreeFacts.

(** X25: the comment tree of hncli.py shows only comments above
    [max_depth] (at depths from [depth] up to [max_depth - 1]) that carry
    neither a "deleted" nor a "dead" mark, and at most ten per list of
    replies: [most_shown] of the levels left in all.  It only adds to what
    was printed, and with a list of ids no exception leaves it, whatever
    the fetches and the rendering do. *)
Theorem legacy_tree_is_bounded
    (get_item : json -> M json) (dict_slice_error : exn)
    (display_comment : json -> Z -> list string * option exn)
    (max_depth : Z) (comment_ids : json) (depth : Z)
    (trace : list LegacyTree.event) (w : world) :
  let run :=
    LegacyTree.fetch_and_display_comments get_item dict_slice_error
      display_comment max_depth comment_ids depth trace w in
  exists extra,
    run.2.1 = trace ++ extra
    /\ (forall c d printed,
          In (LegacyTree.Displayed c d printed) extra ->
          depth <= d < max_depth
          /\ str_in "deleted" c = Ok false
          /\ str_in "dead" c = Ok false)
    /\ (Props.shown extra
        <= LegacyTree.most_shown (Z.to_nat (max_depth - depth)))%nat
    /\ (forall l, comment_ids = JList l -> run.2.2 = None).
Proof.
  intros run. subst run. unfold LegacyTree.fetch_and_display_comments.
  destruct (descend_spec get_item dict_slice_error display_comment
              (Z.to_nat (max_depth - depth)) comment_ids depth trace w)
    as (extra & Heq & HQ & Hn).
  exists extra. split; [done|]. split; [|split; [done|]].
  - intros c d printed Hin.
    rewrite List.Forall_forall in HQ. apply HQ in Hin. simpl in Hin.
    destruct Hin as (Hd & Hdeleted & Hdead). repeat split; [lia|lia|done|done].
  - intros l ->. apply descend_list_returns.
Qed.

(** X26: when levels are left, the first id of the list is fetched, and
    if its item carries neither mark the comment is the next thing shown,
    at the depth of the call and with the lines [display_comment] printed
    for it. *)
Theorem live_comment_is_shown
    (get_item : json -> M json) (dict_slice_error : exn)
    (display_comment : json -> Z -> list string * option exn)
    (max_depth : Z) (comment_id : json) (rest : list json) (depth : Z)
    (trace : list LegacyTree.event) (w w1 : world) (comment : json) :
  depth < max_depth ->
  get_item comment_id w = (w1, Ok comment) ->
  str_in "deleted" comment = Ok false ->
  str_in "dead" comment = Ok false ->
  exists more,
    (LegacyTree.fetch_and_display_comments get_item dict_slice_error
       display_comment max_depth (JList (comment_id :: rest)) depth trace w).2.1
    = trace
      ++ LegacyTree.Displayed comment depth (display_comment comment depth).1
      :: more.
Proof.
  intros Hdepth Hitem Hdeleted Hdead.
  unfold LegacyTree.fetch_and_display_comments.
  destruct (Z.to_nat (max_depth - depth)) as [|levels] eqn:Hlevels; [lia|].
  cbn [LegacyTree.descend]. cbn [truthy negb LegacyTree.first_ten].
  rewrite slice_prefix.
  change (Z.to_nat (if 10 <? 0 then _ else 10)) with 10%nat.
  cbn [take LegacyTree.visit_all].
  pose proof (visit_spec get_item display_comment
                (LegacyTree.descend get_item dict_slice_error display_comment
                   levels)
                levels depth
                (fun kids =>
                   descend_spec get_item dict_slice_error display_comment
                     levels kids (depth + 1))) as Hvisit.
  assert (exists tail,
             (LegacyTree.visit get_item display_comment
                (LegacyTree.descend get_item dict_slice_error display_comment
                   levels) comment_id depth trace w).2
             = trace
               ++ LegacyTree.Displayed comment depth
                    (display_comment comment depth).1 :: tail) as [tail Hfirst].
  { unfold LegacyTree.visit. rewrite Hitem, Hdeleted, Hdead.
    destruct (display_comment comment depth) as [printed failure]. simpl.
    destruct failure as [e|].
    { eexists. by rewrite <- app_assoc. }
    destruct (LegacyTree.kids_if_any comment) as [[kids|]|e].
    - destruct (descend_spec get_item dict_slice_error display_comment
                  levels kids (depth + 1)
                  (trace ++ [LegacyTree.Displayed comment depth printed]) w1)
        as (extra & Heq & _).
      destruct (LegacyTree.descend _ _ _ levels kids (depth + 1) _ w1)
        as [w2 [trace2 failure]].
      simpl in Heq. subst trace2.
      destruct failure as [e|]; simpl; eexists; by rewrite <- !app_assoc.
    - by exists [].
    - eexists. by rewrite <- app_assoc. }
  destruct (LegacyTree.visit _ _ _ comment_id depth trace w) as [w' trace1].
  simpl in Hfirst. subst trace1.
  destruct (visit_all_spec
              (fun comment_id =>
                 LegacyTree.visit get_item display_comment
                   (LegacyTree.descend get_item dict_slice_error
                      display_comment levels) comment_id depth)
              _ _ Hvisit (take 9 rest) 
              (trace ++ LegacyTree.Displayed comment depth
                          (display_comment comment depth).1 :: tail) w')
    as (extra & Heq & _).
  destruct (LegacyTree.visit_all _ (take 9 rest) _ w') as [w'' trace'].
  simpl in Heq. subst trace'. simpl.
  exists (tail ++ extra). by rewrite <- app_assoc.
Qed.

Lemma live_comment_is_shown_witness :
  exists more,
    (LegacyTree.fetch_and_display_comments Scenario.by_id TypeError
       Sample.plain_display 3 (JList [JNum 100]) 0 [] Scenario.threaded).2.1
    = []
      ++ LegacyTree.Displayed
           (Scenario.comment 100 "ann" "first" [101; 102]) 0
           (Sample.plain_display
              (Scenario.comment 100 "ann" "first" [101; 102]) 0).1
      :: more.
Proof.
  eapply (live_comment_is_shown Scenario.by_id TypeError Sample.plain_display
            3 (JNum 100) [] 0 [] Scenario.threaded).
  - lia.
  - vm_compute. reflexivity.
  - reflexivity.
  - reflexivity.
Defined.
